(** * monVOX: the resilient multi-provider LLM access layer

    A shallow embedding of [src/services/LLMProvider.ts] (the providers, the
    [LLMFactory] and the [ResilientLLMService]) and of the
    [FeatureFlagService] it consults, followed by the properties of the
    dispatch, of the circuit breaker and of the simulated streaming.

    Around that layer the file embeds its collaborators and its caller: the
    methods of the [FeatureFlagService] that persist overrides through
    [AsyncStorage], the [PerformanceMonitor] that times the providers'
    calls, and the [AssistantService] through which the chat screen reaches
    the dispatch. The storage is an oracle too: it holds one item and may
    reject any call.

    Conventions of the embedding:
    - a JavaScript number that holds an integer (a counter, a timestamp in
      milliseconds, a token budget) is a [Z]; the sampling temperature is a
      binary64 [float]; fractional token estimates are [Q];
    - a JavaScript [Map] keyed by strings is a [gmap string _];
    - asynchronous methods are run to completion: a method is a function from
      the world before the call to an outcome (a returned value or a thrown
      value) and the world after it;
    - what the code receives from outside (the clock, the chat backends, the
      performance timer, the random generator) is read from an environment of
      oracles, one reading per instant of the run;
    - the calls to the caller's callbacks, and the audit records and console
      warnings that the embedded methods issue themselves, are events
      appended to the world's trace, in the order the code issues them;
    - the streaming methods are embedded twice: in the module [Streaming]
      they take the caller's callbacks, each of which returns or throws;
      outside it they are the same methods for callbacks that return, where
      a call is nothing but its event. The two agree on callbacks that
      return ([streamResponse_returning]). The assistant is embedded twice
      in the same way ([AssistantService] and [Assisting]);
    - text is a [string]; a character of it stands for one UTF-16 code
      unit. *)

From Stdlib Require Import ZArith List String Ascii Bool Lia QArith Floats.
From stdpp Require Import gmap strings.

Set Warnings "-inexact-float".
Local Open Scope Z_scope.

(** ** JavaScript values used by the services *)

Module Js.

(** ToInt32: the 32-bit two's complement wrap-around of the bit operators. *)
Definition to_int32 (z : Z) : Z := (z + 2 ^ 31) mod 2 ^ 32 - 2 ^ 31.

(** [a << n] *)
Definition shl32 (a n : Z) : Z := to_int32 (Z.shiftl (to_int32 a) (n mod 32)).

(** [a & b] *)
Definition and32 (a b : Z) : Z := to_int32 (Z.land (to_int32 a) (to_int32 b)).

(** [Map.get(k) || 0] on integer values: an absent key and a stored [0]
    both give [0]. *)
Definition or0 (v : option Z) : Z :=
  match v with
  | Some n => if n =? 0 then 0 else n
  | None => 0
  end.

(** [x || d] on an optional integer field: [undefined] and [0] are falsy. *)
Definition int_or (x : option Z) (d : Z) : Z :=
  match x with
  | Some n => if n =? 0 then d else n
  | None => d
  end.

(** Truthiness of a binary64 number: [+0], [-0] and [NaN] are falsy. *)
Definition float_truthy (x : float) : bool :=
  negb (PrimFloat.eqb x 0%float || negb (PrimFloat.eqb x x)).

(** [x || d] on an optional binary64 field. *)
Definition float_or (x : option float) (d : float) : float :=
  match x with
  | Some v => if float_truthy v then v else d
  | None => d
  end.

(** [x || d] on an optional string field: [undefined] and [''] are falsy. *)
Definition string_or (x : option string) (d : string) : string :=
  match x with
  | Some EmptyString => d
  | Some s => s
  | None => d
  end.

(** A thrown value: an [Error] with its message, or anything else. *)
Inductive value : Type :=
| Error (message : string)
| NotAnError (repr : string).

(** [error instanceof Error ? error : new Error(fallback)] *)
Definition as_error (thrown : value) (fallback : string) : value :=
  match thrown with
  | Error message => Error message
  | NotAnError _ => Error fallback
  end.

(** [s.split(sep)] for a one-character separator: never empty, and the
    empty string splits into one empty word. *)
Fixpoint split (sep : ascii) (s : string) : list string :=
  match s with
  | EmptyString => [EmptyString]
  | String c rest =>
      if Ascii.eqb c sep then EmptyString :: split sep rest
      else match split sep rest with
           | w :: ws => String c w :: ws
           | [] => [String c EmptyString]
           end
  end.

End Js.

(** ** FeatureFlagService *)

Record FeatureFlag : Type := mkFeatureFlag {
  key : string;
  enabled : bool;
  description : string;
  rolloutPercentage : option Z;
  targetGroups : option (list string)
}.

Inductive FeatureFlags : Type :=
| LOCAL_LLM | STREAMING_RESPONSES | CONTEXT_MEMORY
| VOICE_WAKE_WORD | CONTINUOUS_LISTENING | VOICE_COMMANDS
| SENSOR_PIPELINE | COMPUTER_VISION | LOCATION_CONTEXT
| BACKGROUND_TASKS | PROACTIVE_SUGGESTIONS | CUSTOM_AUTOMATIONS
| STRICT_LOCAL_MODE | ENHANCED_ENCRYPTION | AUDIT_LOGGING
| DARK_MODE | INTERACTIVE_ONBOARDING | ADVANCED_SETTINGS
| DEBUG_MODE | PERFORMANCE_MONITORING | MOCK_AUTHENTICATION.

(** The string value of each member of the [FeatureFlags] enum. *)
Definition flag_key (f : FeatureFlags) : string :=
  match f with
  | LOCAL_LLM => "local_llm"
  | STREAMING_RESPONSES => "streaming_responses"
  | CONTEXT_MEMORY => "context_memory"
  | VOICE_WAKE_WORD => "voice_wake_word"
  | CONTINUOUS_LISTENING => "continuous_listening"
  | VOICE_COMMANDS => "voice_commands"
  | SENSOR_PIPELINE => "sensor_pipeline"
  | COMPUTER_VISION => "computer_vision"
  | LOCATION_CONTEXT => "location_context"
  | BACKGROUND_TASKS => "background_tasks"
  | PROACTIVE_SUGGESTIONS => "proactive_suggestions"
  | CUSTOM_AUTOMATIONS => "custom_automations"
  | STRICT_LOCAL_MODE => "strict_local_mode"
  | ENHANCED_ENCRYPTION => "enhanced_encryption"
  | AUDIT_LOGGING => "audit_logging"
  | DARK_MODE => "dark_mode"
  | INTERACTIVE_ONBOARDING => "interactive_onboarding"
  | ADVANCED_SETTINGS => "advanced_settings"
  | DEBUG_MODE => "debug_mode"
  | PERFORMANCE_MONITORING => "performance_monitoring"
  | MOCK_AUTHENTICATION => "mock_authentication"
  end.

Module FeatureFlagService.

(** The fields of the singleton. *)
Record t : Type := mk {
  flags : gmap string FeatureFlag;
  userId : option string;
  initialized : bool
}.

Definition flag (k : FeatureFlags) (on : bool) (d : string) (rollout : option Z)
  : FeatureFlag :=
  mkFeatureFlag (flag_key k) on d rollout None.

(** The list built by [initializeDefaultFlags]; [dev] is the global
    [__DEV__]. *)
Definition defaultFlags (dev : bool) : list FeatureFlag :=
  [ flag STREAMING_RESPONSES true "Real-time streaming AI responses" None;
    flag CONTEXT_MEMORY true "Long-term conversation memory" None;
    flag LOCAL_LLM false "On-device LLM processing" (Some 20);
    flag VOICE_COMMANDS true "Voice input for commands" None;
    flag VOICE_WAKE_WORD false "Wake word activation" (Some 10);
    flag CONTINUOUS_LISTENING false "Always-on listening mode" None;
    flag SENSOR_PIPELINE false "Real-time sensor data processing" None;
    flag COMPUTER_VISION false "On-device vision processing" None;
    flag LOCATION_CONTEXT false "Location-aware features" None;
    flag BACKGROUND_TASKS false "Background processing tasks" (Some 15);
    flag PROACTIVE_SUGGESTIONS false "Proactive AI suggestions" None;
    flag CUSTOM_AUTOMATIONS false "User-defined automation rules" None;
    flag STRICT_LOCAL_MODE true "Strict on-device processing mode" None;
    flag ENHANCED_ENCRYPTION true "Enhanced data encryption" None;
    flag AUDIT_LOGGING true "Comprehensive audit logging" None;
    flag DARK_MODE false "Dark theme support" None;
    flag INTERACTIVE_ONBOARDING true "Interactive onboarding flow" None;
    flag ADVANCED_SETTINGS true "Advanced configuration options" None;
    flag DEBUG_MODE dev "Debug logging and tools" None;
    flag PERFORMANCE_MONITORING true "Performance metrics collection" None;
    flag MOCK_AUTHENTICATION dev "Mock biometric authentication" None ].

(** [defaultFlags.forEach(flag => this.flags.set(flag.key, flag))] *)
Definition initializeDefaultFlags (dev : bool) (s : t) : t :=
  mk (foldl (fun m f => <[key f := f]> m) (flags s) (defaultFlags dev))
     (userId s) (initialized s).

(** The private constructor. *)
Definition new (dev : bool) : t := initializeDefaultFlags dev (mk ∅ None false).

(** What [AsyncStorage.getItem] followed by [JSON.parse] yields. *)
Inductive stored : Type :=
| ReadFails
| ReadNothing
| ReadOverrides (overrides : list (string * bool)).

Definition with_enabled (f : FeatureFlag) (on : bool) : FeatureFlag :=
  mkFeatureFlag (key f) on (description f) (rolloutPercentage f) (targetGroups f).

Definition applyOverride (m : gmap string FeatureFlag) (o : string * bool)
  : gmap string FeatureFlag :=
  match m !! o.1 with
  | Some f => <[o.1 := with_enabled f o.2]> m
  | None => m
  end.

(** [initialize(userId?)]: a missing or empty id becomes ['anonymous'];
    stored overrides are applied to the flags that exist; a failing read
    keeps the current flags. *)
Definition initialize (id : option string) (storage : stored) (s : t) : t :=
  let uid := Some (Js.string_or id "anonymous") in
  match storage with
  | ReadOverrides overrides => mk (foldl applyOverride (flags s) overrides) uid true
  | ReadNothing => mk (flags s) uid true
  | ReadFails => mk (flags s) uid true
  end.

(** The loop of [hashUserId]: [hash = ((hash << 5) - hash) + char] followed
    by [hash = hash & hash], which wraps to 32 bits. *)
Fixpoint hashLoop (chars : string) (hash : Z) : Z :=
  match chars with
  | EmptyString => hash
  | String c rest =>
      let char := Z.of_N (N_of_ascii c) in
      let hash1 := Js.shl32 hash 5 - hash + char in
      hashLoop rest (Js.and32 hash1 hash1)
  end.

Definition hashUserId (id : string) : Z := Z.abs (hashLoop id 0).

(** [isEnabled(flagKey)]; the warning logged for an unknown flag is left
    out. *)
Definition isEnabled (s : t) (flagKey : FeatureFlags) : bool :=
  if negb (initialized s) then
    match flags s !! flag_key flagKey with
    | Some f => enabled f
    | None => false
    end
  else
    match flags s !! flag_key flagKey with
    | None => false
    | Some f =>
        match rolloutPercentage f with
        | Some percentage =>
            if percentage <? 100 then
              let hash := hashUserId (Js.string_or (userId s) "") in
              let userPercentile := Z.rem hash 100 in
              enabled f && (userPercentile <? percentage)
            else enabled f
        | None => enabled f
        end
    end.

(** The in-memory effect of [setFlagOverride]; persisting the override is
    the storage's business. *)
Definition setFlagOverride (flagKey : FeatureFlags) (on : bool) (s : t) : t :=
  match flags s !! flag_key flagKey with
  | Some f => mk (<[flag_key flagKey := with_enabled f on]> (flags s))
                 (userId s) (initialized s)
  | None => s
  end.

End FeatureFlagService.

(** ** Messages, options and responses *)

Inductive Role : Type := system | user | assistant.

Module AIMessage.
Record t : Type := mk { role : Role; content : string }.
End AIMessage.

Module LLMOptions.
Record t : Type := mk {
  maxTokens : option Z;
  temperature : option float;
  model : option string;
  streaming : option bool;
  systemPrompt : option string
}.
End LLMOptions.

Module Usage.
Record t : Type := mk {
  promptTokens : Q;
  completionTokens : Q;
  totalTokens : Q
}.
End Usage.

Module LLMResponse.
Record t : Type := mk {
  content : string;
  usage : option Usage.t;
  model : string;
  provider : string;
  processingTime : Z;
  isFromCache : option bool
}.

(** [{ ...response, processingTime: ms }] *)
Definition with_processingTime (r : t) (ms : Z) : t :=
  mk (content r) (usage r) (model r) (provider r) ms (isFromCache r).
End LLMResponse.

(** The options object handed to the chat service. *)
Module ChatOptions.
Record t : Type := mk { model : string; temperature : float; maxTokens : Z }.
End ChatOptions.

(** What a call to the chat service comes back with. *)
Inductive ChatResult : Type :=
| ChatOk (content : string) (usage : option Usage.t)
| ChatThrows (thrown : Js.value).

(** The three provider classes; an instance carries no state of its own. *)
Inductive LLMProvider : Type := OpenAI | Anthropic | Local.

#[global] Instance LLMProvider_eq_dec : EqDecision LLMProvider.
Proof. solve_decision. Defined.

Definition name (p : LLMProvider) : string :=
  match p with
  | OpenAI => "OpenAI"
  | Anthropic => "Anthropic"
  | Local => "Local"
  end.

Definition supportsStreaming (p : LLMProvider) : bool := true.

Definition isLocal (p : LLMProvider) : bool :=
  match p with Local => true | _ => false end.

Definition requiresNetwork (p : LLMProvider) : bool :=
  match p with Local => false | _ => true end.

(** ** The world of a run *)

(** What is observable of a run, in the order it happens. [Generate] marks
    the entry into a provider's [generateResponse]; the other events are the
    calls the code makes to its collaborators and to the caller's callbacks.
    The detail of an audit record keeps the fixed text of the template; an
    interpolated duration or error is left out. The audit records and the
    warnings are those the embedded methods write themselves. *)
Inductive Event : Type :=
| Generate (provider : string)
| ChatRequest (provider : string) (messages : list AIMessage.t) (options : ChatOptions.t)
| Inference (provider : string)
| Audit (action detail : string)
| Warn (text : string)
| Delay (ms : Z)
| OnToken (token : string)
| OnComplete (response : LLMResponse.t)
| OnError (error : Js.value).

(** The oracles: the reading each collaborator gives at a given instant. *)
Record Env : Type := mkEnv {
  (** [Date.now()] *)
  clock : nat -> Z;
  (** [getOpenAITextResponse], [getAnthropicTextResponse] *)
  chat : nat -> LLMProvider -> list AIMessage.t -> ChatOptions.t -> ChatResult;
  (** [PerformanceMonitor.endTimer] *)
  timer : nat -> Z;
  (** [Math.floor(Math.random() * 4)] *)
  random : nat -> nat
}.

(** The singletons of the process: the flag service, the factory's cache,
    the fields of the [ResilientLLMService] instance, and the run so far. *)
Record World : Type := mkWorld {
  tick : nat;
  trace : list Event;
  featureFlags : FeatureFlagService.t;
  providers : gmap string LLMProvider;
  primaryProvider : LLMProvider;
  fallbackProviders : list LLMProvider;
  failureCount : gmap string Z;
  lastFailureTime : gmap string Z
}.

Definition set_tick (n : nat) (w : World) : World :=
  mkWorld n (trace w) (featureFlags w) (providers w) (primaryProvider w)
          (fallbackProviders w) (failureCount w) (lastFailureTime w).

Definition push (e : Event) (w : World) : World :=
  mkWorld (tick w) (trace w ++ [e]) (featureFlags w) (providers w) (primaryProvider w)
          (fallbackProviders w) (failureCount w) (lastFailureTime w).

Definition set_featureFlags (f : FeatureFlagService.t) (w : World) : World :=
  mkWorld (tick w) (trace w) f (providers w) (primaryProvider w)
          (fallbackProviders w) (failureCount w) (lastFailureTime w).

Definition set_providers (m : gmap string LLMProvider) (w : World) : World :=
  mkWorld (tick w) (trace w) (featureFlags w) m (primaryProvider w)
          (fallbackProviders w) (failureCount w) (lastFailureTime w).

Definition set_primaryProvider (p : LLMProvider) (w : World) : World :=
  mkWorld (tick w) (trace w) (featureFlags w) (providers w) p
          (fallbackProviders w) (failureCount w) (lastFailureTime w).

Definition set_fallbackProviders (l : list LLMProvider) (w : World) : World :=
  mkWorld (tick w) (trace w) (featureFlags w) (providers w) (primaryProvider w)
          l (failureCount w) (lastFailureTime w).

Definition set_failureCount (m : gmap string Z) (w : World) : World :=
  mkWorld (tick w) (trace w) (featureFlags w) (providers w) (primaryProvider w)
          (fallbackProviders w) m (lastFailureTime w).

Definition set_lastFailureTime (m : gmap string Z) (w : World) : World :=
  mkWorld (tick w) (trace w) (featureFlags w) (providers w) (primaryProvider w)
          (fallbackProviders w) (failureCount w) m.

(** ** The monad of methods: environment, state and exceptions *)

Inductive Outcome (A : Type) : Type :=
| Returned (a : A)
| Thrown (e : Js.value).
Arguments Returned {A} a.
Arguments Thrown {A} e.

Definition M (A : Type) : Type := Env -> World -> Outcome A * World.

Definition ret {A} (a : A) : M A := fun _ w => (Returned a, w).

Definition bind {A B} (m : M A) (f : A -> M B) : M B :=
  fun env w => match m env w with
               | (Returned a, w') => f a env w'
               | (Thrown e, w') => (Thrown e, w')
               end.

Definition throw {A} (e : Js.value) : M A := fun _ w => (Thrown e, w).

(** [try { m } catch (error) { handler error }] *)
Definition try_catch {A} (m : M A) (handler : Js.value -> M A) : M A :=
  fun env w => match m env w with
               | (Returned a, w') => (Returned a, w')
               | (Thrown e, w') => handler e env w'
               end.

Definition gets {A} (f : World -> A) : M A := fun _ w => (Returned (f w), w).

Definition modify (f : World -> World) : M unit := fun _ w => (Returned tt, f w).

Definition emit (e : Event) : M unit := modify (push e).

(** One reading of an oracle: the instant advances. *)
Definition read {A} (oracle : Env -> nat -> A) : M A :=
  fun env w => (Returned (oracle env (tick w)), set_tick (S (tick w)) w).

Declare Scope method_scope.
Delimit Scope method_scope with method.
Notation "x <- m ;; k" := (bind m (fun x => k))
  (at level 100, m at next level, right associativity) : method_scope.
Notation "m ;; k" := (bind m (fun _ => k))
  (at level 100, right associativity) : method_scope.
Local Open Scope method_scope.

(** [Date.now()] *)
Definition Date_now : M Z := read clock.

(** [PerformanceMonitor.getInstance().endTimer(operationId, metric)]: the
    monitor is an outside collaborator, only the duration it returns flows
    into the response. What the monitor writes on its own account (its
    metrics, its audit records and its threshold warnings) is not part of
    the trace; the module [PerformanceMonitor] below embeds it. *)
Definition endTimer : M Z := read timer.

(** [AuditService.getInstance().log(action, detail)] *)
Definition audit (action detail : string) : M unit := emit (Audit action detail).

(** [console.warn(text, ...)] *)
Definition console_warn (text : string) : M unit := emit (Warn text).

(** [FeatureFlagService.getInstance().isEnabled(flag)] *)
Definition isEnabled (f : FeatureFlags) : M bool :=
  gets (fun w => FeatureFlagService.isEnabled (featureFlags w) f).

(** [options?.field] *)
Definition field {A} (get : LLMOptions.t -> option A) (options : option LLMOptions.t)
  : option A :=
  match options with
  | Some o => get o
  | None => None
  end.

(** ** The providers *)

(** The request both remote providers build from the caller's options. *)
Definition chatOptions (defaultModel : string) (options : option LLMOptions.t)
  : ChatOptions.t :=
  ChatOptions.mk (Js.string_or (field LLMOptions.model options) defaultModel)
                 (Js.float_or (field LLMOptions.temperature options) 0.7%float)
                 (Js.int_or (field LLMOptions.maxTokens options) 1024).

(** [await getOpenAITextResponse(messages, request)] and its Anthropic twin. *)
Definition chatService (p : LLMProvider) (messages : list AIMessage.t)
    (request : ChatOptions.t) : M (string * option Usage.t) :=
  emit (ChatRequest (name p) messages request) ;;
  result <- read (fun env t => chat env t p messages request) ;;
  match result with
  | ChatOk content usage => ret (content, usage)
  | ChatThrows thrown => throw thrown
  end.

(** The body shared, up to its constants, by [OpenAIProvider.generateResponse]
    and [AnthropicProvider.generateResponse]. *)
Definition remoteGenerate (p : LLMProvider) (defaultModel : string)
    (messages : list AIMessage.t) (options : option LLMOptions.t)
  : M LLMResponse.t :=
  emit (Generate (name p)) ;;
  try_catch
    (response <- chatService p messages (chatOptions defaultModel options) ;;
     processingTime <- endTimer ;;
     audit "memory_write" (name p +:+ " API call completed") ;;
     ret (LLMResponse.mk response.1 response.2
            (Js.string_or (field LLMOptions.model options) defaultModel)
            (name p) processingTime None))
    (fun error =>
       endTimer ;;
       audit "auth_failed" (name p +:+ " API call failed") ;;
       throw error).

(** The word-by-word loop of the three [streamResponse] methods, for
    callbacks that return ([Streaming.tokenLoop] has the caller's). *)
Fixpoint tokenLoop (delay : Z) (i : nat) (accumulated : string) (words : list string)
  : M unit :=
  match words with
  | [] => ret tt
  | word :: rest =>
      let accumulated' :=
        accumulated +:+ (match i with O => "" | S _ => " " end) +:+ word in
      emit (OnToken accumulated') ;;
      emit (Delay delay) ;;
      tokenLoop delay (S i) accumulated' rest
  end.

(** The body shared, up to the delay and the fallback message, by the three
    [streamResponse] methods; [generate] is [this.generateResponse]. The
    callbacks are taken to return ([Streaming.simulateStream] has the
    caller's). *)
Definition simulateStream
    (generate : list AIMessage.t -> option LLMOptions.t -> M LLMResponse.t)
    (delay : Z) (fallbackMessage : string)
    (messages : list AIMessage.t) (options : LLMOptions.t) : M unit :=
  startTime <- Date_now ;;
  try_catch
    (response <- generate messages (Some options) ;;
     tokenLoop delay 0 "" (Js.split " " (LLMResponse.content response)) ;;
     endTime <- Date_now ;;
     emit (OnComplete (LLMResponse.with_processingTime response (endTime - startTime))))
    (fun error => emit (OnError (Js.as_error error fallbackMessage))).

Module OpenAIProvider.
Definition generateResponse := remoteGenerate OpenAI "gpt-4o".
Definition streamResponse := simulateStream generateResponse 50 "Unknown error".
Definition isAvailable : M bool := isEnabled STREAMING_RESPONSES.
End OpenAIProvider.

Module AnthropicProvider.
Definition generateResponse := remoteGenerate Anthropic "claude-3-5-sonnet-20240620".
Definition streamResponse := simulateStream generateResponse 40 "Unknown error".
Definition isAvailable : M bool := isEnabled STREAMING_RESPONSES.
End AnthropicProvider.

Module LocalLLMProvider.

(** One UTF-16 code unit above ASCII, as a one-character string. *)
Definition u (code : nat) : string := String (ascii_of_nat code) "".

Definition responses : list string :=
  [ "Je comprends votre question. En tant qu'assistant IA priv" +:+ u 233 +:+ " fonctionnant enti" +:+ u 232 +:+ "rement sur votre appareil, je peux vous aider de mani" +:+ u 232 +:+ "re s" +:+ u 233 +:+ "curis" +:+ u 233 +:+ "e.";
    "Voici une r" +:+ u 233 +:+ "ponse g" +:+ u 233 +:+ "n" +:+ u 233 +:+ "r" +:+ u 233 +:+ "e localement sur votre appareil. Vos donn" +:+ u 233 +:+ "es restent priv" +:+ u 233 +:+ "es et ne quittent jamais votre iPhone.";
    "Excellente question ! En mode local, je traite vos demandes sans connexion internet, garantissant une confidentialit" +:+ u 233 +:+ " absolue.";
    "Je traite cette demande directement sur votre appareil. Cela peut prendre un peu plus de temps, mais vos donn" +:+ u 233 +:+ "es restent enti" +:+ u 232 +:+ "rement priv" +:+ u 233 +:+ "es." ].

(** The placeholder for the on-device model: one of the canned answers,
    picked at random. *)
Definition generateSimulatedResponse (messages : list AIMessage.t) : M string :=
  emit (Inference (name Local)) ;;
  index <- read random ;;
  ret (nth (index mod length responses)%nat responses "").

Definition tokens (text : string) : Q := Z.of_nat (String.length text) # 4.

Definition generateResponse (messages : list AIMessage.t)
    (options : option LLMOptions.t) : M LLMResponse.t :=
  emit (Generate (name Local)) ;;
  on <- isEnabled LOCAL_LLM ;;
  if negb on then throw (Js.Error "Local LLM is not enabled")
  else
    try_catch
      (simulatedResponse <- generateSimulatedResponse messages ;;
       processingTime <- endTimer ;;
       let completionTokens := tokens simulatedResponse in
       audit "memory_write" "Local LLM inference completed" ;;
       ret (LLMResponse.mk simulatedResponse
              (Some (Usage.mk
                       (fold_left (fun acc msg => (acc + tokens (AIMessage.content msg))%Q)
                                  messages 0%Q)
                       completionTokens 0%Q))
              "phi-3-mini" (name Local) processingTime None))
      (fun error =>
         endTimer ;;
         audit "auth_failed" "Local LLM inference failed" ;;
         throw error).

Definition streamResponse := simulateStream generateResponse 25 "Local LLM error".

Definition isAvailable : M bool := isEnabled LOCAL_LLM.

End LocalLLMProvider.

(** Method calls on a provider reference go to the method of its class. *)
Definition provider_generateResponse (p : LLMProvider)
  : list AIMessage.t -> option LLMOptions.t -> M LLMResponse.t :=
  match p with
  | OpenAI => OpenAIProvider.generateResponse
  | Anthropic => AnthropicProvider.generateResponse
  | Local => LocalLLMProvider.generateResponse
  end.

Definition provider_streamResponse (p : LLMProvider)
  : list AIMessage.t -> LLMOptions.t -> M unit :=
  match p with
  | OpenAI => OpenAIProvider.streamResponse
  | Anthropic => AnthropicProvider.streamResponse
  | Local => LocalLLMProvider.streamResponse
  end.

Definition provider_isAvailable (p : LLMProvider) : M bool :=
  match p with
  | OpenAI => OpenAIProvider.isAvailable
  | Anthropic => AnthropicProvider.isAvailable
  | Local => LocalLLMProvider.isAvailable
  end.

(** ** LLMFactory *)

Inductive ProviderType : Type := openai | anthropic | local | auto.

Definition type_key (type : ProviderType) : string :=
  match type with
  | openai => "openai"
  | anthropic => "anthropic"
  | local => "local"
  | auto => "auto"
  end.

Module LLMFactory.

(** The part of [getProvider] below the test for ['auto']: the cached
    instance, or a new one of the class the [switch] picks. *)
Definition cachedOrNew (type : ProviderType) : M LLMProvider :=
  cached <- gets (fun w => providers w !! type_key type) ;;
  match cached with
  | Some provider => ret provider
  | None =>
      match type with
      | openai =>
          modify (fun w => set_providers (<[type_key type := OpenAI]> (providers w)) w) ;;
          ret OpenAI
      | anthropic =>
          modify (fun w => set_providers (<[type_key type := Anthropic]> (providers w)) w) ;;
          ret Anthropic
      | local =>
          modify (fun w => set_providers (<[type_key type := Local]> (providers w)) w) ;;
          ret Local
      | auto => throw (Js.Error "Unknown LLM provider type: auto")
      end
  end.

(** [getOptimalProvider]; its calls to [getProvider] name concrete types. *)
Definition getOptimalProvider : M LLMProvider :=
  strict <- isEnabled STRICT_LOCAL_MODE ;;
  if strict then cachedOrNew local
  else
    localModel <- isEnabled LOCAL_LLM ;;
    if localModel then cachedOrNew local
    else cachedOrNew anthropic.

Definition getProvider (type : ProviderType) : M LLMProvider :=
  match type with
  | auto => getOptimalProvider
  | _ => cachedOrNew type
  end.

End LLMFactory.

(** ** ResilientLLMService *)

Module ResilientLLMService.

Definition CIRCUIT_BREAKER_THRESHOLD : Z := 3.
Definition CIRCUIT_BREAKER_TIMEOUT : Z := 60000.

(** The constructor's assignments. *)
Definition new : M unit :=
  primary <- LLMFactory.getProvider anthropic ;;
  modify (set_primaryProvider primary) ;;
  fallback <- LLMFactory.getProvider openai ;;
  modify (set_fallbackProviders [fallback]).

Definition initializeProviders : M unit :=
  primary <- LLMFactory.getProvider auto ;;
  modify (set_primaryProvider primary) ;;
  first <- LLMFactory.getProvider anthropic ;;
  second <- LLMFactory.getProvider openai ;;
  modify (set_fallbackProviders [first; second]).

Definition shouldAttemptProvider (providerName : string) : M bool :=
  failures <- gets (fun w => Js.or0 (failureCount w !! providerName)) ;;
  lastFailure <- gets (fun w => Js.or0 (lastFailureTime w !! providerName)) ;;
  if failures <? CIRCUIT_BREAKER_THRESHOLD then ret true
  else
    now <- Date_now ;;
    ret (CIRCUIT_BREAKER_TIMEOUT <? now - lastFailure).

Definition recordSuccess (providerName : string) : M unit :=
  modify (fun w => set_failureCount (<[providerName := 0]> (failureCount w)) w) ;;
  modify (fun w => set_lastFailureTime (delete providerName (lastFailureTime w)) w).

Definition recordFailure (providerName : string) : M unit :=
  currentFailures <- gets (fun w => Js.or0 (failureCount w !! providerName)) ;;
  modify (fun w => set_failureCount
                     (<[providerName := currentFailures + 1]> (failureCount w)) w) ;;
  now <- Date_now ;;
  modify (fun w => set_lastFailureTime (<[providerName := now]> (lastFailureTime w)) w).

(** The [try] block around the primary provider: [Some] stands for the
    [return response] inside it, [None] for falling out of the [if]. *)
Definition tryPrimary (messages : list AIMessage.t) (options : option LLMOptions.t)
  : M (option LLMResponse.t) :=
  primary <- gets primaryProvider ;;
  attempt <- shouldAttemptProvider (name primary) ;;
  if attempt then
    try_catch
      (available <- provider_isAvailable primary ;;
       if available then
         response <- provider_generateResponse primary messages options ;;
         recordSuccess (name primary) ;;
         ret (Some response)
       else ret None)
      (fun error =>
         recordFailure (name primary) ;;
         console_warn "Primary LLM provider failed:" ;;
         audit "auth_failed" "Primary LLM failed" ;;
         ret None)
  else ret None.

(** The [for (const fallback of this.fallbackProviders)] loop. *)
Fixpoint tryFallbacks (fallbacks : list LLMProvider)
    (messages : list AIMessage.t) (options : option LLMOptions.t)
  : M (option LLMResponse.t) :=
  match fallbacks with
  | [] => ret None
  | fallback :: rest =>
      attempt <- shouldAttemptProvider (name fallback) ;;
      if negb attempt then tryFallbacks rest messages options
      else
        returned <-
          try_catch
            (available <- provider_isAvailable fallback ;;
             if available then
               audit "settings_change" ("Falling back to " +:+ name fallback) ;;
               response <- provider_generateResponse fallback messages options ;;
               recordSuccess (name fallback) ;;
               ret (Some response)
             else ret None)
            (fun error =>
               recordFailure (name fallback) ;;
               console_warn ("Fallback provider " +:+ name fallback +:+ " failed:") ;;
               ret None) ;;
        match returned with
        | Some response => ret (Some response)
        | None => tryFallbacks rest messages options
        end
  end.

Definition allUnavailable : Js.value :=
  Js.Error "All LLM providers are currently unavailable".

Definition generateResponse (messages : list AIMessage.t)
    (options : option LLMOptions.t) : M LLMResponse.t :=
  initializeProviders ;;
  returned <- tryPrimary messages options ;;
  match returned with
  | Some response => ret response
  | None =>
      fallbacks <- gets fallbackProviders ;;
      returned <- tryFallbacks fallbacks messages options ;;
      match returned with
      | Some response => ret response
      | None => throw allUnavailable
      end
  end.

(** [true] stands for the [return] after the primary's stream. The
    callbacks are taken to return ([Streaming.streamResponse] has the
    caller's). *)
Definition streamResponse (messages : list AIMessage.t) (options : LLMOptions.t)
  : M unit :=
  initializeProviders ;;
  returned <-
    try_catch
      (primary <- gets primaryProvider ;;
       available <- provider_isAvailable primary ;;
       if available && supportsStreaming primary then
         provider_streamResponse primary messages options ;;
         ret true
       else ret false)
      (fun error =>
         console_warn "Primary streaming provider failed:" ;;
         emit (OnError (Js.as_error error "Streaming failed")) ;;
         ret false) ;;
  if (returned : bool) then ret tt
  else
    try_catch
      (response <- generateResponse messages (Some options) ;;
       emit (OnComplete response))
      (fun error => emit (OnError (Js.as_error error "All providers failed"))).

Definition getCurrentProvider : M LLMProvider := gets primaryProvider.

Definition switchProvider (type : ProviderType) : M unit :=
  provider <- LLMFactory.getProvider type ;;
  modify (set_primaryProvider provider) ;;
  audit "settings_change" ("Switched to " +:+ type_key type +:+ " LLM provider").

End ResilientLLMService.

(** ** Streaming with the caller's callbacks *)

(** A [StreamingCallback]: the caller's three functions. A call is an event
    of the run; the function then returns ([None]) or throws a value, which
    it may decide from the run so far (the trace before the call) and from
    its argument. A callback does not call the services itself. *)
Module StreamingCallback.

Record t : Type := mk {
  onToken : list Event -> string -> option Js.value;
  onComplete : list Event -> LLMResponse.t -> option Js.value;
  onError : list Event -> Js.value -> option Js.value
}.

(** Callbacks that return, whatever they are called with. *)
Definition returning : t :=
  mk (fun _ _ => None) (fun _ _ => None) (fun _ _ => None).

End StreamingCallback.

(** The three [streamResponse] methods of the providers and the one of the
    [ResilientLLMService], with their [callbacks] parameter. *)
Module Streaming.

(** A call to one of the caller's functions: the call is recorded, then the
    function returns or throws. *)
Definition call (e : Event) (reaction : list Event -> option Js.value) : M unit :=
  before <- gets trace ;;
  emit e ;;
  match reaction before with
  | Some thrown => throw thrown
  | None => ret tt
  end.

(** [callbacks.onToken(token)] *)
Definition onToken (callbacks : StreamingCallback.t) (token : string) : M unit :=
  call (OnToken token) (fun before => StreamingCallback.onToken callbacks before token).

(** [callbacks.onComplete(response)] *)
Definition onComplete (callbacks : StreamingCallback.t) (response : LLMResponse.t)
  : M unit :=
  call (OnComplete response)
       (fun before => StreamingCallback.onComplete callbacks before response).

(** [callbacks.onError(error)] *)
Definition onError (callbacks : StreamingCallback.t) (error : Js.value) : M unit :=
  call (OnError error) (fun before => StreamingCallback.onError callbacks before error).

(** The word-by-word loop: a callback that throws ends it. *)
Fixpoint tokenLoop (callbacks : StreamingCallback.t) (delay : Z) (i : nat)
    (accumulated : string) (words : list string) : M unit :=
  match words with
  | [] => ret tt
  | word :: rest =>
      let accumulated' :=
        accumulated +:+ (match i with O => "" | S _ => " " end) +:+ word in
      onToken callbacks accumulated' ;;
      emit (Delay delay) ;;
      tokenLoop callbacks delay (S i) accumulated' rest
  end.

(** The body of a provider's [streamResponse]: the calls to [onToken] and
    to [onComplete] are inside the [try], so what they throw reaches the
    [catch], which calls [onError]; what [onError] throws leaves the
    method. *)
Definition simulateStream
    (generate : list AIMessage.t -> option LLMOptions.t -> M LLMResponse.t)
    (delay : Z) (fallbackMessage : string)
    (messages : list AIMessage.t) (options : LLMOptions.t)
    (callbacks : StreamingCallback.t) : M unit :=
  startTime <- Date_now ;;
  try_catch
    (response <- generate messages (Some options) ;;
     tokenLoop callbacks delay 0 "" (Js.split " " (LLMResponse.content response)) ;;
     endTime <- Date_now ;;
     onComplete callbacks
       (LLMResponse.with_processingTime response (endTime - startTime)))
    (fun error => onError callbacks (Js.as_error error fallbackMessage)).

(** [provider.streamResponse(messages, options, callbacks)], by class. *)
Definition provider_streamResponse (p : LLMProvider)
    (messages : list AIMessage.t) (options : LLMOptions.t)
    (callbacks : StreamingCallback.t) : M unit :=
  match p with
  | OpenAI =>
      simulateStream OpenAIProvider.generateResponse 50 "Unknown error"
                     messages options callbacks
  | Anthropic =>
      simulateStream AnthropicProvider.generateResponse 40 "Unknown error"
                     messages options callbacks
  | Local =>
      simulateStream LocalLLMProvider.generateResponse 25 "Local LLM error"
                     messages options callbacks
  end.

(** [ResilientLLMService.streamResponse(messages, options, callbacks)];
    [true] stands for the [return] after the primary's stream. *)
Definition streamResponse (messages : list AIMessage.t) (options : LLMOptions.t)
    (callbacks : StreamingCallback.t) : M unit :=
  ResilientLLMService.initializeProviders ;;
  returned <-
    try_catch
      (primary <- gets primaryProvider ;;
       available <- provider_isAvailable primary ;;
       if available && supportsStreaming primary then
         provider_streamResponse primary messages options callbacks ;;
         ret true
       else ret false)
      (fun error =>
         console_warn "Primary streaming provider failed:" ;;
         onError callbacks (Js.as_error error "Streaming failed") ;;
         ret false) ;;
  if (returned : bool) then ret tt
  else
    try_catch
      (response <- ResilientLLMService.generateResponse messages (Some options) ;;
       onComplete callbacks response)
      (fun error => onError callbacks (Js.as_error error "All providers failed")).

End Streaming.

(** The process after start-up: default flags, an empty factory, and the
    service as its constructor leaves it. *)
Definition boot (dev : bool) (env : Env) : World :=
  (ResilientLLMService.new env
     (mkWorld 0 [] (FeatureFlagService.new dev) ∅ Anthropic [] ∅ ∅)).2.

(** ** The persisted overrides of the feature flags *)

(** An overrides object, a [Record<string, boolean>], is a map from keys to
    booleans; [JSON.stringify] followed by [JSON.parse] gives the same
    object back. *)

Module AsyncStorage.

(** The item ['feature_flags_override'], as the object its text denotes
    ([None] for [null]), and the number of calls made so far. *)
Record t : Type := mk {
  item : option (gmap string bool);
  calls : nat
}.

(** [await AsyncStorage.getItem(key)]; [rejects] tells which calls, counted
    from the first, end in a rejection, for which [None] stands. *)
Definition getItem (rejects : nat -> bool) (st : t) : option (option (gmap string bool)) * t :=
  (if rejects (calls st) then None else Some (item st), mk (item st) (S (calls st))).

(** [await AsyncStorage.setItem(key, JSON.stringify(value))]; [false] stands
    for a rejection. *)
Definition setItem (rejects : nat -> bool) (value : gmap string bool) (st : t) : bool * t :=
  if rejects (calls st) then (false, mk (item st) (S (calls st)))
  else (true, mk (Some value) (S (calls st))).

(** [await AsyncStorage.removeItem(key)] *)
Definition removeItem (rejects : nat -> bool) (st : t) : bool * t :=
  if rejects (calls st) then (false, mk (item st) (S (calls st)))
  else (true, mk None (S (calls st))).

End AsyncStorage.

(** The methods of [FeatureFlagService] that go through [AsyncStorage], on
    the fields of the singleton together with the storage. *)
Module FeatureFlagStore.

Record t : Type := mk {
  service : FeatureFlagService.t;
  storage : AsyncStorage.t
}.

Section Methods.

(** The global [__DEV__], and the calls to the storage that are rejected. *)
Variable dev : bool.
Variable rejects : nat -> bool.

(** [getStoredOverrides]: a missing item and a failing read both give the
    empty object. *)
Definition getStoredOverrides (st : AsyncStorage.t) : gmap string bool * AsyncStorage.t :=
  match AsyncStorage.getItem rejects st with
  | (Some (Some overrides), st') => (overrides, st')
  | (_, st') => (∅, st')
  end.

(** [initialize(userId?)] with its read of the storage. *)
Definition initialize (id : option string) (x : t) : t :=
  let (read, st') := AsyncStorage.getItem rejects (storage x) in
  mk (FeatureFlagService.initialize id
        (match read with
         | None => FeatureFlagService.ReadFails
         | Some None => FeatureFlagService.ReadNothing
         | Some (Some overrides) =>
             FeatureFlagService.ReadOverrides (map_to_list overrides)
         end)
        (service x))
     st'.

(** [setFlagOverride(flagKey, enabled)]: the flag in memory, then the
    stored object; a failure to persist is logged and dropped. *)
Definition setFlagOverride (flagKey : FeatureFlags) (on : bool) (x : t) : t :=
  match FeatureFlagService.flags (service x) !! flag_key flagKey with
  | Some _ =>
      let (overrides, st1) := getStoredOverrides (storage x) in
      let (_, st2) :=
        AsyncStorage.setItem rejects (<[flag_key flagKey := on]> overrides) st1 in
      mk (FeatureFlagService.setFlagOverride flagKey on (service x)) st2
  | None => x
  end.

(** [clearFlagOverride(flagKey)]: when the write fails, the [catch] block
    is all that runs after it. *)
Definition clearFlagOverride (flagKey : FeatureFlags) (x : t) : t :=
  let (overrides, st1) := getStoredOverrides (storage x) in
  let (written, st2) :=
    AsyncStorage.setItem rejects (delete (flag_key flagKey) overrides) st1 in
  if written then
    initialize (FeatureFlagService.userId (service x))
      (mk (FeatureFlagService.initializeDefaultFlags dev (service x)) st2)
  else mk (service x) st2.

(** [getFlag(flagKey)] *)
Definition getFlag (flagKey : FeatureFlags) (x : t) : option FeatureFlag :=
  FeatureFlagService.flags (service x) !! flag_key flagKey.

(** [enableAllFlags()]; [false] stands for the rejection of the promise,
    which the method does not catch. *)
Definition enableAllFlags (x : t) : bool * t :=
  if negb dev then (true, x)
  else
    let overrides : gmap string bool := (fun _ => true) <$> FeatureFlagService.flags (service x) in
    let (written, st1) := AsyncStorage.setItem rejects overrides (storage x) in
    if written then
      (true, initialize (FeatureFlagService.userId (service x)) (mk (service x) st1))
    else (false, mk (service x) st1).

(** [resetAllFlags()] *)
Definition resetAllFlags (x : t) : bool * t :=
  if negb dev then (true, x)
  else
    let (removed, st1) := AsyncStorage.removeItem rejects (storage x) in
    if removed then
      (true, initialize (FeatureFlagService.userId (service x))
               (mk (FeatureFlagService.initializeDefaultFlags dev (service x)) st1))
    else (false, mk (service x) st1).

End Methods.

End FeatureFlagStore.

(** ** PerformanceMonitor *)

Module PerformanceMonitor.

(** The numeric keys of [PerformanceMetrics], the ones a measurement is
    recorded under. *)
Inductive MetricType : Type :=
| coldStartTime | warmStartTime | memoryUsage | cpuUsage
| inferenceTime | tokensPerSecond | modelLoadTime
| apiResponseTime | networkLatency
| frameRate | uiResponseTime
| batteryDrainRate.

(** A recorded measurement: the one numeric field its caller filled in,
    with the two fields [recordMetric] adds. Durations are differences of
    [Date.now()] readings, hence integers. *)
Record PerformanceMetrics : Type := mkMetric {
  metric : MetricType;
  value : Z;
  timestamp : Z;
  sessionId : string
}.

Record PerformanceThresholds : Type := mkThresholds {
  th_coldStartTime : Z;
  th_warmStartTime : Z;
  th_memoryUsage : Z;
  th_cpuUsage : Z;
  th_frameRate : Z;
  th_inferenceTime : Z;
  th_apiResponseTime : Z
}.

Definition DEFAULT_THRESHOLDS : PerformanceThresholds :=
  mkThresholds 5000 2000 (300 * 1024 * 1024) 5 55 10000 5000.

(** [this.thresholds[metricType]]: undefined for a key that has no
    threshold. *)
Definition threshold_of (th : PerformanceThresholds) (m : MetricType) : option Z :=
  match m with
  | coldStartTime => Some (th_coldStartTime th)
  | warmStartTime => Some (th_warmStartTime th)
  | memoryUsage => Some (th_memoryUsage th)
  | cpuUsage => Some (th_cpuUsage th)
  | frameRate => Some (th_frameRate th)
  | inferenceTime => Some (th_inferenceTime th)
  | apiResponseTime => Some (th_apiResponseTime th)
  | _ => None
  end.

(** The fields of the singleton. *)
Record t : Type := mk {
  metrics : list PerformanceMetrics;
  session : string;
  thresholds : PerformanceThresholds;
  startTimes : gmap string Z
}.

(** What the monitor writes to the console and to the audit log; the
    texts are kept as their data. *)
Inductive Log : Type :=
| NoStartTime (operationId : string)
| ThresholdWarning (m : MetricType) (value threshold : Z)
| ThresholdAudit (m : MetricType) (value threshold : Z)
| ThresholdTable (m : MetricType) (value threshold : Z)
| MetricAudit (m : MetricType) (value : Z).

(** [startTimer(operationId)] at the instant [now]. *)
Definition startTimer (now : Z) (operationId : string) (s : t) : t :=
  mk (metrics s) (session s) (thresholds s) (<[operationId := now]> (startTimes s)).

Definition isThresholdExceeded (metricType : MetricType) (value threshold : Z) : bool :=
  match metricType with
  | frameRate => value <? threshold
  | _ => threshold <? value
  end.

(** [checkThreshold]; [dev] is the global [__DEV__]. *)
Definition checkThreshold (dev : bool) (metricType : MetricType) (value : Z) (s : t)
  : list Log :=
  match threshold_of (thresholds s) metricType with
  | None => []
  | Some threshold =>
      if threshold =? 0 then []
      else if isThresholdExceeded metricType value threshold then
        [ThresholdWarning metricType value threshold;
         ThresholdAudit metricType value threshold]
        ++ (if dev then [ThresholdTable metricType value threshold] else [])
      else []
  end.

(** [logSignificantEvents]: three of the metrics are logged when they are
    positive. *)
Definition logSignificantEvents (m : PerformanceMetrics) : list Log :=
  match metric m with
  | inferenceTime | coldStartTime | apiResponseTime =>
      if negb (value m =? 0) && (0 <? value m) then [MetricAudit (metric m) (value m)]
      else []
  | _ => []
  end.

(** [recordMetric({[metricType]: value})]; [enabled] is what the
    performance-monitoring flag reads, [now] the instant. *)
Definition recordMetric (enabled : bool) (now : Z) (metricType : MetricType) (v : Z)
    (s : t) : t * list Log :=
  if negb enabled then (s, [])
  else
    let fullMetric := mkMetric metricType v now (session s) in
    let pushed := metrics s ++ [fullMetric] in
    let kept :=
      if (1000 <? length pushed)%nat then drop (length pushed - 500) pushed
      else pushed in
    (mk kept (session s) (thresholds s) (startTimes s), logSignificantEvents fullMetric).

(** [endTimer(operationId, metricType)]: [now] is the instant the duration
    is taken at, [later] the instant the metric is stamped with. *)
Definition endTimer (enabled dev : bool) (now later : Z) (operationId : string)
    (metricType : MetricType) (s : t) : Z * t * list Log :=
  match startTimes s !! operationId with
  | None => (0, s, [NoStartTime operationId])
  | Some startTime =>
      if startTime =? 0 then (0, s, [NoStartTime operationId])
      else
        let duration := now - startTime in
        let s1 := mk (metrics s) (session s) (thresholds s)
                     (delete operationId (startTimes s)) in
        let (s2, logged) := recordMetric enabled later metricType duration s1 in
        (duration, s2, logged ++ checkThreshold dev metricType duration s2)
  end.

(** [clearMetrics()] *)
Definition clearMetrics (s : t) : t := mk [] (session s) (thresholds s) ∅.

End PerformanceMonitor.

(** ** AssistantService *)

Module AssistantMessage.
Record t : Type := mk {
  id : string;
  content : string;
  isUser : bool;
  timestamp : Z
}.
End AssistantMessage.

Module AssistantService.

Definition u : nat -> string := LocalLLMProvider.u.

(** The line feed of the template literals. *)
Definition nl : string := u 10.

(** What the assistant does to its collaborators, in order: the caller's
    two callbacks, the memory service, the audit log, the console, and the
    pause between two simulated tokens. An interpolated error is left out
    of the texts. *)
Inductive Effect : Type :=
| Token (partial : string)
| Complete (fullResponse : string)
| SaveMemory (text provider : string)
| AuditLog (action detail : string)
| ConsoleError (text : string)
| Wait (ms : Z).

Definition basePrompt : string :=
  "Tu es monVOX, un assistant IA priv" +:+ u 233 +:+ " et s" +:+ u 233 +:+ "curis" +:+
  u 233 +:+ " qui fonctionne enti" +:+ u 232 +:+
  "rement sur l'appareil de l'utilisateur. Tu parles fran" +:+ u 231 +:+
  "ais canadien et tu es tr" +:+ u 232 +:+ "s utile, respectueux et empathique." +:+ nl +:+
  nl +:+ "Caract" +:+ u 233 +:+ "ristiques importantes:" +:+ nl +:+ "- Tu es 100% priv" +:+
  u 233 +:+ " - aucune donn" +:+ u 233 +:+ "e ne quitte l'appareil" +:+ nl +:+ "- Tu es s" +:+
  u 233 +:+ "curis" +:+ u 233 +:+ " par authentification biom" +:+ u 233 +:+ "trique" +:+
  nl +:+ "- Tu respectes la vie priv" +:+ u 233 +:+ "e absolument  " +:+ nl +:+ "- R" +:+
  u 233 +:+ "pond en fran" +:+ u 231 +:+ "ais canadien de mani" +:+ u 232 +:+
  "re naturelle et conversationnelle".

Definition memoryPrompt : string :=
  nl +:+ "- Tu peux m" +:+ u 233 +:+ "moriser les conversations importantes" +:+ nl +:+ nl +:+
  "Voici quelques m" +:+ u 233 +:+ "moires r" +:+ u 233 +:+ "centes pour le contexte:" +:+ nl.

(** [getSystemPrompt(memoryContext?)]: an empty context is falsy. *)
Definition getSystemPrompt (memoryContext : option string) : string :=
  match memoryContext with
  | Some context =>
      if String.eqb context "" then basePrompt
      else basePrompt +:+ memoryPrompt +:+ context
  | None => basePrompt
  end.

Definition errorMessage : string :=
  "D" +:+ u 233 +:+ "sol" +:+ u 233 +:+
  ", je ne peux pas traiter votre demande en ce moment. Veuillez r" +:+ u 233 +:+ "essayer.".

(** [handleGenerationError(error, onToken, onComplete)]; the two booleans
    tell whether the caller gave the callback. *)
Definition handleGenerationError (onToken onComplete : bool) : string * list Effect :=
  (errorMessage,
   [AuditLog "auth_failed" "Response generation failed"]
   ++ (if onToken then [Token errorMessage] else [])
   ++ (if onComplete then [Complete errorMessage] else [])).

(** [saveConversationMemory(messages, response)], up to the call of
    [saveMemory]. The handlers on the promise it returns (an audit record
    once the memory is saved, a console error if saving fails) run when the
    memory service settles, after the caller's [onComplete]; they are not
    among the effects here ([Assisting.memorySettled] has them). *)
Definition saveConversationMemory (messages : list AssistantMessage.t) (response : string)
  : M (list Effect) :=
  memory <- isEnabled CONTEXT_MEMORY ;;
  if negb memory then ret []
  else
    provider <- ResilientLLMService.getCurrentProvider ;;
    let question :=
      Js.string_or (AssistantMessage.content <$> last messages) "" in
    ret [SaveMemory ("Q: " +:+ question +:+ nl +:+ "R: " +:+ response) (name provider)].

(** [messages.map(msg => ({role: msg.isUser ? 'user' : 'assistant', content: msg.content}))] *)
Definition toAIMessage (msg : AssistantMessage.t) : AIMessage.t :=
  AIMessage.mk (if AssistantMessage.isUser msg then user else assistant)
               (AssistantMessage.content msg).

(** The first part of [generateResponse]: the conversation in the
    providers' format, with the system prompt put in front.
    [recentMemories] is what [memoryService.getMemories(undefined, 5)]
    resolves to, as the contents of the entries, or what it rejects with. *)
Definition aiMessages (messages : list AssistantMessage.t)
    (recentMemories : Outcome (list string)) : M (list AIMessage.t) :=
  let converted := toAIMessage <$> messages in
  memory <- isEnabled CONTEXT_MEMORY ;;
  if memory then
    match recentMemories with
    | Thrown error => throw error
    | Returned [] => ret (AIMessage.mk system (getSystemPrompt None) :: converted)
    | Returned memories =>
        let memoryContext :=
          String.concat nl ((fun m => "[M" +:+ u 233 +:+ "moire: " +:+ m +:+ "]") <$> memories) in
        ret (AIMessage.mk system (getSystemPrompt (Some memoryContext)) :: converted)
    end
  else ret (AIMessage.mk system (getSystemPrompt None) :: converted).

(** [{ maxTokens: 1024, temperature: 0.7 }] *)
Definition options : LLMOptions.t :=
  LLMOptions.mk (Some 1024) (Some 0.7%float) None None None.

(** The three callbacks handed to [llmService.streamResponse], run over
    the callbacks it fired, in order; [fullResponse] is the variable they
    share. They read the flags and the current provider and write nothing
    that [streamResponse] reads. *)
Fixpoint runCallbacks (messages : list AssistantMessage.t) (onComplete : bool)
    (fired : list Event) (fullResponse : string) : M (string * list Effect) :=
  match fired with
  | [] => ret (fullResponse, [])
  | OnToken token :: rest =>
      later <- runCallbacks messages onComplete rest token ;;
      ret (later.1, Token token :: later.2)
  | OnComplete response :: rest =>
      saved <- saveConversationMemory messages (LLMResponse.content response) ;;
      later <- runCallbacks messages onComplete rest (LLMResponse.content response) ;;
      ret (later.1,
           saved
           ++ (if onComplete then [Complete (LLMResponse.content response)] else [])
           ++ later.2)
  | OnError error :: rest =>
      later <- runCallbacks messages onComplete rest fullResponse ;;
      ret (later.1,
           ConsoleError "Streaming failed:"
           :: (handleGenerationError true onComplete).2 ++ later.2)
  | _ :: rest => runCallbacks messages onComplete rest fullResponse
  end.

(** The loop that simulates streaming in the non-streaming branch:
    [words.slice(0, i + 1).join(' ')] for each [i]. *)
Definition simulatedTokens (words : list string) : list Effect :=
  flat_map (fun i => [Token (String.concat " " (take (S i) words)); Wait 30])
           (seq 0 (length words)).

(** [generateResponse(messages, onToken?, onComplete?)]: the text the
    promise resolves to, with the effects in order. The caller's two
    callbacks are taken to return ([Assisting.generateResponse] has the
    caller's). *)
Definition generateResponse (messages : list AssistantMessage.t)
    (onToken onComplete : bool) (recentMemories : Outcome (list string))
  : M (string * list Effect) :=
  try_catch
    (request <- aiMessages messages recentMemories ;;
     currentProvider <- ResilientLLMService.getCurrentProvider ;;
     streaming <- isEnabled STREAMING_RESPONSES ;;
     if streaming && supportsStreaming currentProvider && onToken then
       before <- gets trace ;;
       ResilientLLMService.streamResponse request options ;;
       after <- gets trace ;;
       runCallbacks messages onComplete
         (List.filter
            (fun e => match e with
                      | OnToken _ | OnComplete _ | OnError _ => true
                      | _ => false
                      end)
            (drop (length before) after)) ""
     else
       response <- ResilientLLMService.generateResponse request (Some options) ;;
       let fullResponse := LLMResponse.content response in
       saved <- saveConversationMemory messages fullResponse ;;
       ret (fullResponse,
            (if onToken then simulatedTokens (Js.split " " fullResponse) else [])
            ++ saved
            ++ (if onComplete then [Complete fullResponse] else [])))
    (fun error =>
       let handled := handleGenerationError onToken onComplete in
       ret (handled.1, ConsoleError "Failed to generate response:" :: handled.2)).

End AssistantService.

(** ** LLMFactory, with the identity of its instances *)

(** The embedding above takes an instance for its class, which is all the
    service reads of it. Here an instance is an object: its class, and its
    rank among the objects the factory has created. *)
Module Instance.
Record t : Type := mk { class : LLMProvider; object : nat }.
End Instance.

Module LLMFactoryObjects.

(** The static field [providers], and how many objects [new] has made. *)
Record t : Type := mk {
  providers : gmap string Instance.t;
  created : nat
}.

(** [provider = new Class(); this.providers.set(type, provider)] *)
Definition construct (class : LLMProvider) (type : ProviderType) (s : t)
  : Outcome Instance.t * t :=
  let provider := Instance.mk class (created s) in
  (Returned provider, mk (<[type_key type := provider]> (providers s)) (S (created s))).

(** The part of [getProvider] below the test for ['auto']. *)
Definition cachedOrNew (type : ProviderType) (s : t) : Outcome Instance.t * t :=
  match providers s !! type_key type with
  | Some provider => (Returned provider, s)
  | None =>
      match type with
      | openai => construct OpenAI type s
      | anthropic => construct Anthropic type s
      | local => construct Local type s
      | auto => (Thrown (Js.Error "Unknown LLM provider type: auto"), s)
      end
  end.

Definition getOptimalProvider (flags : FeatureFlagService.t) (s : t)
  : Outcome Instance.t * t :=
  if FeatureFlagService.isEnabled flags STRICT_LOCAL_MODE then cachedOrNew local s
  else if FeatureFlagService.isEnabled flags LOCAL_LLM then cachedOrNew local s
  else cachedOrNew anthropic s.

Definition getProvider (flags : FeatureFlagService.t) (type : ProviderType) (s : t)
  : Outcome Instance.t * t :=
  match type with
  | auto => getOptimalProvider flags s
  | _ => cachedOrNew type s
  end.

End LLMFactoryObjects.

(** ** AssistantService, with the caller's callbacks and the memory service *)

(** The caller's [onToken] and [onComplete]: left out, or a function that
    is called with a text and returns ([None]) or throws a value. *)
Module AssistantCallbacks.
Record t : Type := mk {
  onToken : option (string -> option Js.value);
  onComplete : option (string -> option Js.value)
}.
End AssistantCallbacks.

(** What the memory service does during one call of the assistant: the
    promise of [getMemories] resolves to the contents of the entries or
    rejects; the promise of [saveMemory] resolves or rejects at once, or is
    still pending when the call ends ([None]). *)
Module MemoryService.
Record t : Type := mk {
  getMemories : Outcome (list string);
  saveMemory : option (Outcome unit)
}.
End MemoryService.

(** [AssistantService.generateResponse] and its helpers, as the code has
    them, with the caller's callbacks and the handlers on the promise of
    [saveMemory]. *)
Module Assisting.

(** [if (callback) callback(text)]: the call, when the callback is given,
    and what it throws. *)
Definition invoke (callback : option (string -> option Js.value))
    (effect : string -> AssistantService.Effect) (text : string)
  : list AssistantService.Effect * option Js.value :=
  match callback with
  | Some call => ([effect text], call text)
  | None => ([], None)
  end.

(** [handleGenerationError(error, onToken, onComplete)]: what it does, and
    the text it returns or the value a callback throws. *)
Definition handleGenerationError (callbacks : AssistantCallbacks.t)
  : list AssistantService.Effect * Outcome string :=
  let logged := AssistantService.AuditLog "auth_failed" "Response generation failed" in
  let shown :=
    invoke (AssistantCallbacks.onToken callbacks) AssistantService.Token
           AssistantService.errorMessage in
  match shown.2 with
  | Some thrown => (logged :: shown.1, Thrown thrown)
  | None =>
      let completed :=
        invoke (AssistantCallbacks.onComplete callbacks) AssistantService.Complete
               AssistantService.errorMessage in
      (logged :: shown.1 ++ completed.1,
       match completed.2 with
       | Some thrown => Thrown thrown
       | None => Returned AssistantService.errorMessage
       end)
  end.

(** The handlers on the promise of [saveMemory]: they run at the end of the
    turn in which the memory was saved, when the promise has settled. *)
Definition memorySettled (memory : MemoryService.t)
    (saved : list AssistantService.Effect) : list AssistantService.Effect :=
  match saved with
  | [] => []
  | _ :: _ =>
      match MemoryService.saveMemory memory with
      | Some (Returned _) =>
          [AssistantService.AuditLog "memory_write" "Conversation saved to memory"]
      | Some (Thrown _) =>
          [AssistantService.ConsoleError "Failed to save conversation memory:"]
      | None => []
      end
  end.

(** The three callbacks handed to [llmService.streamResponse], as that
    method sees them: each throws what the caller's callback inside it
    throws. *)
Definition closures (callbacks : AssistantCallbacks.t) : StreamingCallback.t :=
  StreamingCallback.mk
    (fun _ token =>
       (invoke (AssistantCallbacks.onToken callbacks) AssistantService.Token token).2)
    (fun _ response =>
       (invoke (AssistantCallbacks.onComplete callbacks) AssistantService.Complete
               (LLMResponse.content response)).2)
    (fun _ _ =>
       match (handleGenerationError callbacks).2 with
       | Thrown thrown => Some thrown
       | Returned _ => None
       end).

(** What those three callbacks do, run over the callbacks
    [streamResponse] fired, in order; [fullResponse] is the variable they
    share. When [onComplete] throws, the [catch] block of [streamResponse]
    calls [onError] in the same turn. *)
Fixpoint runCallbacks (messages : list AssistantMessage.t)
    (callbacks : AssistantCallbacks.t) (memory : MemoryService.t)
    (fired : list Event) (fullResponse : string)
  : M (string * list AssistantService.Effect) :=
  match fired with
  | [] => ret (fullResponse, [])
  | OnToken token :: rest =>
      later <- runCallbacks messages callbacks memory rest token ;;
      ret (later.1,
           (invoke (AssistantCallbacks.onToken callbacks) AssistantService.Token token).1
           ++ later.2)
  | OnComplete response :: rest =>
      let content := LLMResponse.content response in
      saved <- AssistantService.saveConversationMemory messages content ;;
      let completed :=
        invoke (AssistantCallbacks.onComplete callbacks) AssistantService.Complete content in
      match completed.2, rest with
      | Some _, OnError _ :: rest' =>
          later <- runCallbacks messages callbacks memory rest' content ;;
          ret (later.1,
               saved ++ completed.1
               ++ AssistantService.ConsoleError "Streaming failed:"
                  :: (handleGenerationError callbacks).1
               ++ memorySettled memory saved ++ later.2)
      | _, _ =>
          later <- runCallbacks messages callbacks memory rest content ;;
          ret (later.1, saved ++ completed.1 ++ memorySettled memory saved ++ later.2)
      end
  | OnError _ :: rest =>
      later <- runCallbacks messages callbacks memory rest fullResponse ;;
      ret (later.1,
           AssistantService.ConsoleError "Streaming failed:"
           :: (handleGenerationError callbacks).1 ++ later.2)
  | _ :: rest => runCallbacks messages callbacks memory rest fullResponse
  end.

(** The loop that simulates streaming in the non-streaming branch, over
    the indices [i] of the words: a callback that throws ends it. *)
Fixpoint simulateTokens (call : string -> option Js.value) (words : list string)
    (indices : list nat) : list AssistantService.Effect * option Js.value :=
  match indices with
  | [] => ([], None)
  | i :: later =>
      let partial := String.concat " " (take (S i) words) in
      match call partial with
      | Some thrown => ([AssistantService.Token partial], Some thrown)
      | None =>
          let rest := simulateTokens call words later in
          (AssistantService.Token partial :: AssistantService.Wait 30 :: rest.1, rest.2)
      end
  end.

(** The [catch] block of [generateResponse], after the effects made so
    far. *)
Definition failed (callbacks : AssistantCallbacks.t)
    (effects : list AssistantService.Effect)
  : Outcome string * list AssistantService.Effect :=
  let handled := handleGenerationError callbacks in
  (handled.2,
   effects ++ AssistantService.ConsoleError "Failed to generate response:" :: handled.1).

(** The non-streaming branch of [generateResponse], from the call to the
    dispatch on. *)
Definition nonStreaming (messages : list AssistantMessage.t)
    (callbacks : AssistantCallbacks.t) (memory : MemoryService.t)
    (request : list AIMessage.t)
  : M (Outcome string * list AssistantService.Effect) :=
  generated <-
    try_catch
      (response <- ResilientLLMService.generateResponse request
                     (Some AssistantService.options) ;;
       ret (Returned response))
      (fun error => ret (Thrown error)) ;;
  match generated with
  | Thrown _ => ret (failed callbacks [])
  | Returned response =>
      let fullResponse := LLMResponse.content response in
      let shown :=
        match AssistantCallbacks.onToken callbacks with
        | Some call =>
            let words := Js.split " " fullResponse in
            simulateTokens call words (seq 0 (length words))
        | None => ([], None)
        end in
      match shown.2 with
      | Some _ => ret (failed callbacks shown.1)
      | None =>
          saved <- AssistantService.saveConversationMemory messages fullResponse ;;
          let completed :=
            invoke (AssistantCallbacks.onComplete callbacks) AssistantService.Complete
                   fullResponse in
          match completed.2 with
          | Some _ =>
              let caught := failed callbacks (shown.1 ++ saved ++ completed.1) in
              ret (caught.1, caught.2 ++ memorySettled memory saved)
          | None =>
              ret (Returned fullResponse,
                   shown.1 ++ saved ++ completed.1 ++ memorySettled memory saved)
          end
      end
  end.

(** [generateResponse(messages, onToken?, onComplete?)]: what the promise
    settles to (the text it resolves to, or the value it rejects with),
    and the effects in order. *)
Definition generateResponse (messages : list AssistantMessage.t)
    (callbacks : AssistantCallbacks.t) (memory : MemoryService.t)
  : M (Outcome string * list AssistantService.Effect) :=
  prepared <-
    try_catch
      (request <- AssistantService.aiMessages messages
                    (MemoryService.getMemories memory) ;;
       ret (Returned request))
      (fun error => ret (Thrown error)) ;;
  match prepared with
  | Thrown _ => ret (failed callbacks [])
  | Returned request =>
      currentProvider <- ResilientLLMService.getCurrentProvider ;;
      streaming <- isEnabled STREAMING_RESPONSES ;;
      match AssistantCallbacks.onToken callbacks with
      | Some _ =>
          if streaming && supportsStreaming currentProvider then
            before <- gets trace ;;
            rejected <-
              try_catch
                (Streaming.streamResponse request AssistantService.options
                   (closures callbacks) ;;
                 ret None)
                (fun error => ret (Some error)) ;;
            after <- gets trace ;;
            done <-
              runCallbacks messages callbacks memory
                (List.filter
                   (fun e => match e with
                             | OnToken _ | OnComplete _ | OnError _ => true
                             | _ => false
                             end)
                   (drop (length before) after)) "" ;;
            match rejected with
            | None => ret (Returned done.1, done.2)
            | Some _ => ret (failed callbacks done.2)
            end
          else nonStreaming messages callbacks memory request
      | None => nonStreaming messages callbacks memory request
      end
  end.

End Assisting.

(** * Vocabulary of the properties *)

(** ** Observations on a run *)

(** The providers whose [generateResponse] was entered, in order. *)
Definition generated (evs : list Event) : list string :=
  omap (fun e => match e with Generate n => Some n | _ => None end) evs.

(** The callbacks of the caller that fired, in order. *)
Definition is_callback (e : Event) : bool :=
  match e with
  | OnToken _ | OnComplete _ | OnError _ => true
  | _ => false
  end.

Definition callbacks (evs : list Event) : list Event := List.filter is_callback evs.

(** The caller's callbacks return, whatever the run so far and whatever
    they are called with. *)
Definition returns_normally (caller : StreamingCallback.t) : Prop :=
  (forall fired token, StreamingCallback.onToken caller fired token = None) /\
  (forall fired response, StreamingCallback.onComplete caller fired response = None) /\
  (forall fired error, StreamingCallback.onError caller fired error = None).

(** The simulated on-device inference ran. *)
Definition is_inference (e : Event) : bool :=
  match e with Inference _ => true | _ => false end.

(** The events a step from [w] to [w'] added to the trace. *)
Definition new_events (w w' : World) : list Event := drop (length (trace w)) (trace w').

(** How many times [n] occurs in a list of provider names. *)
Definition count (n : string) (l : list string) : nat := count_occ string_dec l n.

(** The texts the word loop hands to [onToken], in order. *)
Fixpoint snapshots (i : nat) (accumulated : string) (words : list string) : list string :=
  match words with
  | [] => []
  | word :: rest =>
      let accumulated' :=
        accumulated +:+ (match i with O => "" | S _ => " " end) +:+ word in
      accumulated' :: snapshots (S i) accumulated' rest
  end.

(** The events of the word loop: each token is followed by its delay. *)
Definition token_events (delay : Z) (toks : list string) : list Event :=
  flat_map (fun tok => [OnToken tok; Delay delay]) toks.

(** ** State of the service *)

(** The flags, the factory and the provider references are the same. *)
Definition frame (w w' : World) : Prop :=
  featureFlags w' = featureFlags w /\ providers w' = providers w /\
  primaryProvider w' = primaryProvider w /\
  fallbackProviders w' = fallbackProviders w.

(** The circuit breaker's two maps are the same. *)
Definition circuit_same (w w' : World) : Prop :=
  failureCount w' = failureCount w /\ lastFailureTime w' = lastFailureTime w.

(** A provider's availability, as [isAvailable] computes it from the flags. *)
Definition available (p : LLMProvider) (w : World) : bool :=
  match p with
  | Local => FeatureFlagService.isEnabled (featureFlags w) LOCAL_LLM
  | _ => FeatureFlagService.isEnabled (featureFlags w) STREAMING_RESPONSES
  end.

(** A provider's failure count and last failure instant, as the circuit
    breaker reads them ([get(name) || 0]). *)
Definition failures (n : string) (w : World) : Z := Js.or0 (failureCount w !! n).
Definition lastFailure (n : string) (w : World) : Z := Js.or0 (lastFailureTime w !! n).

(** A provider's entries in the circuit breaker's two maps. *)
Definition circuit_of (n : string) (w : World) : option Z * option Z :=
  (failureCount w !! n, lastFailureTime w !! n).

(** The circuit check at the instant of [w]: closed, or cooled down. *)
Definition circuit_allows (env : Env) (n : string) (w : World) : Prop :=
  failures n w < 3 \/ 60000 < clock env (tick w) - lastFailure n w.

(** A provider that a dispatch started in [w] cannot call: its circuit is
    open and stays inside the timeout at every instant, or it is
    unavailable. *)
Definition blocked (env : Env) (p : LLMProvider) (w : World) : Prop :=
  (3 <= failures (name p) w /\
   forall t, clock env t - lastFailure (name p) w <= 60000) \/
  available p w = false.

(** The priority list of [getOptimalProvider] as a function of the flags. *)
Definition resolve (f : FeatureFlagService.t) : LLMProvider :=
  if FeatureFlagService.isEnabled f STRICT_LOCAL_MODE then Local
  else if FeatureFlagService.isEnabled f LOCAL_LLM then Local
  else Anthropic.

(** The class the factory instantiates for a concrete type. *)
Definition class_of (type : ProviderType) : LLMProvider :=
  match type with
  | openai => OpenAI
  | local => Local
  | _ => Anthropic
  end.

(** The factory's cache holds, under each key, an instance of that key's
    class: what [getProvider], the only writer, ever stores. *)
Definition cached_as (m : gmap string LLMProvider) (type : ProviderType) : bool :=
  match m !! type_key type with
  | None => true
  | Some p => bool_decide (p = class_of type)
  end.

Definition factory_ok (w : World) : bool :=
  cached_as (providers w) openai && cached_as (providers w) anthropic
  && cached_as (providers w) local.

(** ** The steps of a dispatch *)

(** What a call to a provider's [generateResponse] does to the world: it
    appends events, among them exactly one entry mark, and touches neither
    the circuit breaker nor the provider references. *)
Record generate_post (p : LLMProvider) (w : World)
    (res : Outcome LLMResponse.t) (w' : World) (evs : list Event) : Prop := {
  gen_trace : trace w' = trace w ++ evs;
  gen_generated : generated evs = [name p];
  gen_callbacks : callbacks evs = [];
  gen_frame : frame w w';
  gen_circuit : circuit_same w w';
  gen_tick : (tick w <= tick w')%nat;
  gen_provider : forall r, res = Returned r -> LLMResponse.provider r = name p;
  gen_inference : forall e, In e evs -> is_inference e = true ->
                            p = Local /\ available Local w = true
}.

(** Events issued one after the other. *)
Definition emits (evs : list Event) : M unit :=
  modify (fun w => foldl (fun w e => push e w) w evs).

(** The [try] block of a candidate: the primary's and a fallback's differ in
    what they log before the call and after a failure. *)
Definition attemptBody (p : LLMProvider) (before after : list Event)
    (messages : list AIMessage.t) (options : option LLMOptions.t)
  : M (option LLMResponse.t) :=
  try_catch
    (available <- provider_isAvailable p ;;
     if available then
       emits before ;;
       response <- provider_generateResponse p messages options ;;
       ResilientLLMService.recordSuccess (name p) ;;
       ret (Some response)
     else ret None)
    (fun error =>
       ResilientLLMService.recordFailure (name p) ;;
       emits after ;;
       ret None).

(** The [try] block around a candidate [p] that passed the circuit check,
    started in [w]: [p] is unavailable and nothing happens; or [p] is called
    and succeeds, which closes its circuit; or [p] is called and fails, which
    is recorded. *)
Inductive Body (p : LLMProvider) (w : World)
  : option LLMResponse.t -> World -> list Event -> Prop :=
| body_unavailable :
    available p w = false ->
    Body p w None w []
| body_success r w' evs :
    available p w = true ->
    LLMResponse.provider r = name p ->
    trace w' = trace w ++ evs ->
    generated evs = [name p] ->
    (forall e, In e evs -> is_inference e = true -> p = Local) ->
    frame w w' ->
    failureCount w' = <[name p := 0]> (failureCount w) ->
    lastFailureTime w' = delete (name p) (lastFailureTime w) ->
    Body p w (Some r) w' evs
| body_failure w' evs t :
    available p w = true ->
    trace w' = trace w ++ evs ->
    generated evs = [name p] ->
    (forall e, In e evs -> is_inference e = true -> p = Local) ->
    frame w w' ->
    failureCount w' = <[name p := failures (name p) w + 1]> (failureCount w) ->
    lastFailureTime w' = <[name p := t]> (lastFailureTime w) ->
    Body p w None w' evs.

(** A candidate [p] met in [w]: skipped by the circuit breaker, or let
    through to the [try] block. *)
Inductive Attempt (env : Env) (p : LLMProvider) (w : World)
  : option LLMResponse.t -> World -> list Event -> Prop :=
| attempt_skipped :
    3 <= failures (name p) w ->
    clock env (tick w) - lastFailure (name p) w <= 60000 ->
    Attempt env p w None (set_tick (S (tick w)) w) []
| attempt_tried w1 r w' evs :
    circuit_allows env (name p) w ->
    w1 = w \/ w1 = set_tick (S (tick w)) w ->
    Body p w1 r w' evs ->
    Attempt env p w r w' evs.

(** The candidates met in order, up to the first that answers. *)
Inductive Run (env : Env)
  : list LLMProvider -> World -> option LLMResponse.t -> World -> list Event -> Prop :=
| run_nil w : Run env [] w None w []
| run_hit p ps w r w' evs :
    Attempt env p w (Some r) w' evs ->
    Run env (p :: ps) w (Some r) w' evs
| run_miss p ps w w1 evs1 r w' evs :
    Attempt env p w None w1 evs1 ->
    Run env ps w1 r w' evs ->
    Run env (p :: ps) w r w' (evs1 ++ evs).

(** ** Scenarios *)

(** A one-message conversation. *)
Definition hello : list AIMessage.t := [AIMessage.mk user "Bonjour"].

(** Both chat backends are down; the clock reads [now]. *)
Definition outage (now : Z) : Env :=
  mkEnv (fun _ => now)
        (fun _ _ _ _ => ChatThrows (Js.Error "Network request failed"))
        (fun _ => 12) (fun _ => 0%nat).

(** Both chat backends answer. *)
Definition healthy (now : Z) : Env :=
  mkEnv (fun _ => now)
        (fun _ _ _ _ => ChatOk "Bonjour ! Comment puis-je vous aider ?" None)
        (fun _ => 12) (fun _ => 0%nat).

(** Anthropic's backend is down, OpenAI's answers. *)
Definition anthropic_down (now : Z) : Env :=
  mkEnv (fun _ => now)
        (fun _ p _ _ =>
           match p with
           | Anthropic => ChatThrows (Js.Error "Network request failed")
           | _ => ChatOk "Hello from the fallback" None
           end)
        (fun _ => 12) (fun _ => 0%nat).

(** The process just started, with the default flags: strict local mode is
    on and the local model is off. *)
Definition started : World := boot false (healthy 0).

(** The same with strict local mode switched off in the settings, so that
    [auto] resolves to Anthropic. *)
Definition remote_mode : World :=
  set_featureFlags
    (FeatureFlagService.setFlagOverride STRICT_LOCAL_MODE false (featureFlags started))
    started.

(** Two requests during an outage at instant 1000: Anthropic's circuit is
    open (three failures), OpenAI has failed twice. *)
Definition tripped : World :=
  (ResilientLLMService.generateResponse hello None (outage 1000)
     (ResilientLLMService.generateResponse hello None (outage 1000) remote_mode).2).2.

(** Three requests under the default flags while Anthropic's backend is down
    at instant 1000: the disabled local primary is passed over, Anthropic
    fails and OpenAI answers each time, so Anthropic's circuit is open and
    OpenAI's is closed. *)
Definition anthropic_tripped : World :=
  (ResilientLLMService.generateResponse hello None (anthropic_down 1000)
     (ResilientLLMService.generateResponse hello None (anthropic_down 1000)
        (ResilientLLMService.generateResponse hello None (anthropic_down 1000)
           started).2).2).2.

(** A caller whose [onComplete] throws, and whose other two callbacks
    return. *)
Definition throwing_onComplete : StreamingCallback.t :=
  StreamingCallback.mk (fun _ _ => None)
                       (fun _ _ => Some (Js.Error "onComplete failed"))
                       (fun _ _ => None).

(** ** Tactics *)

Ltac unfold_methods :=
  unfold Date_now, endTimer, audit, console_warn, isEnabled, emit in *;
  unfold bind, ret, throw, try_catch, gets, modify, read in *.

Ltac world_fields :=
  cbn [tick trace featureFlags providers primaryProvider fallbackProviders
       failureCount lastFailureTime push set_tick set_featureFlags set_providers
       set_primaryProvider set_fallbackProviders set_failureCount
       set_lastFailureTime fst snd] in *.

Ltac case_chat :=
  match goal with
  | |- context [chat ?env ?t ?p ?m ?r] =>
      let c := fresh "content" in
      let u := fresh "usage" in
      let e := fresh "thrown" in
      destruct (chat env t p m r) as [c u|e]
  end.

Ltac no_inference :=
  let e := fresh "e" in
  let He := fresh "He" in
  let Hi := fresh "Hi" in
  intros e He Hi; cbn in He;
  repeat (destruct He as [<-|He]; [discriminate Hi|]); destruct He.

Ltac solve_post :=
  solve
    [ rewrite <- ?app_assoc; reflexivity
    | repeat split; reflexivity
    | cbn; lia
    | let r := fresh "r" in intros r [= <-]; reflexivity
    | let r := fresh "r" in intros r [=]
    | no_inference ].

(** ** Invariants of the service *)

(** The circuit breaker's two maps agree: no count is negative, and a
    provider has a last failure instant exactly when its count is not zero. *)
Definition circuit_wf (w : World) : Prop :=
  forall n, 0 <= failures n w /\ (failures n w = 0 <-> lastFailureTime w !! n = None).

(** The cached objects are objects the factory created, and no object is
    cached under two keys. *)
Definition objects_ok (s : LLMFactoryObjects.t) : Prop :=
  (forall k i, LLMFactoryObjects.providers s !! k = Some i ->
               (Instance.object i < LLMFactoryObjects.created s)%nat) /\
  (forall k k' i i',
     LLMFactoryObjects.providers s !! k = Some i ->
     LLMFactoryObjects.providers s !! k' = Some i' ->
     Instance.object i = Instance.object i' -> k = k').

(** The cache as the main embedding has it: the class of each instance. *)
Definition classes (s : LLMFactoryObjects.t) : gmap string LLMProvider :=
  Instance.class <$> LLMFactoryObjects.providers s.

(** The factory before its first call. *)
Definition no_objects : LLMFactoryObjects.t := LLMFactoryObjects.mk ∅ 0.

(** A method that fires none of the caller's callbacks, whatever the state
    it starts in and whatever its outcome. *)
Definition quiet {A} (m : M A) : Prop :=
  forall env w, exists evs,
    trace (m env w).2 = trace w ++ evs /\ callbacks evs = [].

(** What a call to a callback comes back with. *)
Definition outcome_of (reaction : option Js.value) : Outcome unit :=
  match reaction with
  | Some thrown => Thrown thrown
  | None => Returned tt
  end.

(** The pauses of the simulated stream, in order. *)
Definition delays (evs : list Event) : list Z :=
  omap (fun e => match e with Delay ms => Some ms | _ => None end) evs.

(** The requests that left the device, in order. *)
Definition chat_requests (evs : list Event) : list string :=
  omap (fun e => match e with ChatRequest n _ _ => Some n | _ => None end) evs.

(** The pause between two words of each provider's [streamResponse]. *)
Definition delay_of (p : LLMProvider) : Z :=
  match p with OpenAI => 50 | Anthropic => 40 | Local => 25 end.

(** How many times the character [c] occurs in [s]. *)
Fixpoint occurrences (c : ascii) (s : string) : nat :=
  match s with
  | EmptyString => 0
  | String x rest => (if Ascii.eqb x c then 1 else 0) + occurrences c rest
  end.

(** What the local provider leaves in the trace when it answers. *)
Definition local_events : list Event :=
  [Generate "Local"; Inference "Local";
   Audit "memory_write" "Local LLM inference completed"].

(** ** Feature flags *)

(** A flag as a stored overrides object leaves it: its [enabled] bit is
    the stored one where the object has the flag's key. *)
Definition overridden (o : gmap string bool) (k : string) (f : FeatureFlag) : FeatureFlag :=
  match o !! k with
  | Some on => FeatureFlagService.with_enabled f on
  | None => f
  end.

(** The user's place in a rollout, as [isEnabled] computes it. *)
Definition percentile (s : FeatureFlagService.t) : Z :=
  Z.rem (FeatureFlagService.hashUserId (Js.string_or (FeatureFlagService.userId s) "")) 100.

(** The entry [initializeDefaultFlags] writes for a flag. *)
Definition default_flag (dev : bool) (k : FeatureFlags) : option FeatureFlag :=
  FeatureFlagService.flags (FeatureFlagService.new dev) !! flag_key k.

(** A storage nobody has called yet, and one that never rejects. *)
Definition fresh_storage (item : option (gmap string bool)) : AsyncStorage.t :=
  AsyncStorage.mk item 0.

Definition reliable : nat -> bool := fun _ => false.

(** A process that has just started on the given storage. *)
Definition fresh_process (dev : bool) (st : AsyncStorage.t) : FeatureFlagStore.t :=
  FeatureFlagStore.mk (FeatureFlagService.new dev) st.

(** ** Observations on the assistant *)

(** The texts handed to the caller's [onToken], in order. *)
Definition shown (effects : list AssistantService.Effect) : list string :=
  omap (fun e => match e with AssistantService.Token s => Some s | _ => None end) effects.

(** The texts handed to the caller's [onComplete], in order. *)
Definition completed (effects : list AssistantService.Effect) : list string :=
  omap (fun e => match e with AssistantService.Complete s => Some s | _ => None end) effects.

(** What [saveConversationMemory] does in the world [w]. *)
Definition saved (messages : list AssistantMessage.t) (response : string) (w : World)
  : list AssistantService.Effect :=
  if FeatureFlagService.isEnabled (featureFlags w) CONTEXT_MEMORY then
    [AssistantService.SaveMemory
       ("Q: " +:+ Js.string_or (AssistantMessage.content <$> last messages) ""
        +:+ AssistantService.nl +:+ "R: " +:+ response)
       (name (primaryProvider w))]
  else [].

(** What the caller sees of a failure outside the stream. *)
Definition apology (onToken onComplete : bool) : list AssistantService.Effect :=
  AssistantService.ConsoleError "Failed to generate response:"
  :: (AssistantService.handleGenerationError onToken onComplete).2.

(** The callback [onComplete], when the caller gave one. *)
Definition complete_with (onComplete : bool) (text : string)
  : list AssistantService.Effect :=
  if onComplete then [AssistantService.Complete text] else [].

(** Whether the caller gave a callback. *)
Definition given {A} (callback : option A) : bool :=
  match callback with
  | Some _ => true
  | None => false
  end.

(** The callbacks the caller gave return, whatever text they are called
    with. *)
Definition callbacks_return (callbacks : AssistantCallbacks.t) : Prop :=
  (forall call text, AssistantCallbacks.onToken callbacks = Some call -> call text = None) /\
  (forall call text, AssistantCallbacks.onComplete callbacks = Some call ->
                     call text = None).

(** The memories the assistant asked the memory service to save. *)
Definition saves (effects : list AssistantService.Effect)
  : list AssistantService.Effect :=
  List.filter (fun e => match e with
                        | AssistantService.SaveMemory _ _ => true
                        | _ => false
                        end) effects.

(** The chat screen's call: both callbacks, and no memory service. *)
Definition question : list AssistantMessage.t :=
  [AssistantMessage.mk "1" "Bonjour" true 0].

(** A method all of whose events satisfy [P], whatever the state it starts
    in and whatever its outcome. *)
Definition only (P : Event -> Prop) {A} (m : M A) : Prop :=
  forall env w, exists evs,
    trace (m env w).2 = trace w ++ evs /\ Forall P evs.

(** The model each provider asks for when the caller names none. *)
Definition defaultModel (p : LLMProvider) : string :=
  match p with
  | OpenAI => "gpt-4o"
  | Anthropic => "claude-3-5-sonnet-20240620"
  | Local => "phi-3-mini"
  end.

(** The response [r] is the answer of the provider [p], called among the
    events [evs] of a step from instant [from] to instant [to]. For a remote
    provider this says where the answer comes from: the request to [p]'s
    backend is among the events, with the caller's messages and the options
    [p] derives from the caller's, and the content and the usage of [r] are
    what the backend returned at an instant of the step. *)
Definition answered_by (env : Env) (p : LLMProvider) (messages : list AIMessage.t)
    (options : option LLMOptions.t) (evs : list Event) (from to : nat)
    (r : LLMResponse.t) : Prop :=
  LLMResponse.provider r = name p /\
  In (Generate (name p)) evs /\
  (requiresNetwork p = true ->
   In (ChatRequest (name p) messages (chatOptions (defaultModel p) options)) evs /\
   exists t, (from <= t < to)%nat /\
             chat env t p messages (chatOptions (defaultModel p) options)
             = ChatOk (LLMResponse.content r) (LLMResponse.usage r)).

(** An event that is not a request to a chat backend, or is the request
    of a remote provider for [messages], with the options the provider
    derives from [options]. *)
Definition request_for (messages : list AIMessage.t) (options : LLMOptions.t)
    (e : Event) : Prop :=
  match e with
  | ChatRequest n msgs opts =>
      msgs = messages /\
      exists p, p <> Local /\ n = name p /\
                opts = chatOptions (defaultModel p) (Some options)
  | _ => True
  end.

(** The local provider's failure count is as it was, or has been reset. *)
Definition local_kept (w w' : World) : Prop :=
  failureCount w' !! "Local" = failureCount w !! "Local" \/
  failureCount w' !! "Local" = Some 0.

(** A method that never raises the local provider's failure count. *)
Definition spares_local {A} (m : M A) : Prop :=
  forall env w, local_kept w (m env w).2.

(** ** The flags in the running app *)

(** The states the flag service can be in once the app has started: [App]
    calls [initialize()] without a user id, and the settings screens call
    the four methods that change flags. The storage may hold anything and
    reject any call. *)
Inductive reachable (dev : bool) : FeatureFlagStore.t -> Prop :=
| reach_start rejects st :
    reachable dev (FeatureFlagStore.initialize rejects None (fresh_process dev st))
| reach_set rejects k on x :
    reachable dev x ->
    reachable dev (FeatureFlagStore.setFlagOverride rejects k on x)
| reach_clear rejects k x :
    reachable dev x ->
    reachable dev (FeatureFlagStore.clearFlagOverride dev rejects k x)
| reach_enable rejects x :
    reachable dev x ->
    reachable dev (FeatureFlagStore.enableAllFlags dev rejects x).2
| reach_reset rejects x :
    reachable dev x ->
    reachable dev (FeatureFlagStore.resetAllFlags dev rejects x).2.

(** What every such state has: it is initialized for the user
    ['anonymous'], and every flag is there with the rollout percentage of
    its default. *)
Definition anonymous_rollout (dev : bool) (x : FeatureFlagStore.t) : Prop :=
  FeatureFlagService.initialized (FeatureFlagStore.service x) = true /\
  FeatureFlagService.userId (FeatureFlagStore.service x) = Some "anonymous" /\
  forall k, rolloutPercentage <$> FeatureFlagStore.getFlag k x
            = rolloutPercentage <$> default_flag dev k.

(** * Properties *)

(** ** The embedding on known values *)

Example to_int32_wraps :
  Js.to_int32 (2 ^ 31) = - 2 ^ 31 /\ Js.to_int32 (2 ^ 32 + 5) = 5 /\
  Js.shl32 (2 ^ 30) 1 = - 2 ^ 31.
Proof. repeat split. Qed.

Example hashUserId_values :
  FeatureFlagService.hashUserId "anonymous" = 2095811475 /\
  FeatureFlagService.hashUserId "d" = 100 /\
  FeatureFlagService.hashUserId "" = 0.
Proof. vm_compute. repeat split. Qed.

Example split_values :
  Js.split " " "" = [""] /\
  Js.split " " "abc" = ["abc"] /\
  Js.split " " " a  b " = [""; "a"; ""; "b"; ""].
Proof. repeat split. Qed.

Example default_flags :
  FeatureFlagService.isEnabled (FeatureFlagService.new false) STRICT_LOCAL_MODE = true /\
  FeatureFlagService.isEnabled (FeatureFlagService.new false) LOCAL_LLM = false /\
  FeatureFlagService.isEnabled (FeatureFlagService.new false) STREAMING_RESPONSES = true.
Proof. vm_compute. repeat split. Qed.

(** The rollout of the local model (20 percent): switched on in the stored
    overrides, it is enabled for the user ["d"] (percentile 0) and not for
    ["anonymous"] (percentile 75). *)
Example local_model_rollout :
  let overrides := FeatureFlagService.ReadOverrides [("local_llm", true)] in
  FeatureFlagService.isEnabled
    (FeatureFlagService.initialize (Some "d") overrides (FeatureFlagService.new false))
    LOCAL_LLM = true /\
  FeatureFlagService.isEnabled
    (FeatureFlagService.initialize None overrides (FeatureFlagService.new false))
    LOCAL_LLM = false.
Proof. vm_compute. repeat split. Qed.

(** ** Running the monad *)

Lemma run_bind {A B} (m : M A) (f : A -> M B) env w :
  bind m f env w =
  match m env w with
  | (Returned a, w') => f a env w'
  | (Thrown e, w') => (Thrown e, w')
  end.
Proof. reflexivity. Qed.

Lemma run_try_catch {A} (m : M A) (h : Js.value -> M A) env w :
  try_catch m h env w =
  match m env w with
  | (Returned a, w') => (Returned a, w')
  | (Thrown e, w') => h e env w'
  end.
Proof. reflexivity. Qed.

Lemma name_inj p q : name p = name q -> p = q.
Proof. destruct p, q; simpl; congruence. Qed.

Lemma generated_app evs evs' : generated (evs ++ evs') = generated evs ++ generated evs'.
Proof. apply omap_app. Qed.

(** ** The providers' [generateResponse] *)

Lemma remoteGenerate_post p defaultModel messages options env w :
  exists evs,
    generate_post p w (remoteGenerate p defaultModel messages options env w).1
                  (remoteGenerate p defaultModel messages options env w).2 evs.
Proof.
  unfold remoteGenerate, chatService. unfold_methods.
  cbn. case_chat; cbn; eexists; constructor; cbn; solve_post.
Qed.

Lemma localGenerate_post messages options env w :
  exists evs,
    generate_post Local w (LocalLLMProvider.generateResponse messages options env w).1
                  (LocalLLMProvider.generateResponse messages options env w).2 evs.
Proof.
  unfold LocalLLMProvider.generateResponse, LocalLLMProvider.generateSimulatedResponse.
  unfold_methods. cbn.
  destruct (FeatureFlagService.isEnabled (featureFlags w) LOCAL_LLM) eqn:Hon; cbn;
    eexists; constructor; cbn; try solve_post.
  intros e _ _. unfold available. rewrite Hon. split; reflexivity.
Qed.

Lemma provider_generateResponse_post p messages options env w :
  exists evs,
    generate_post p w (provider_generateResponse p messages options env w).1
                  (provider_generateResponse p messages options env w).2 evs.
Proof.
  destruct p; cbn [provider_generateResponse].
  - apply remoteGenerate_post.
  - apply remoteGenerate_post.
  - apply localGenerate_post.
Qed.

(** A local call with the model flag off throws before anything else. *)
Lemma localGenerate_disabled messages options env w :
  FeatureFlagService.isEnabled (featureFlags w) LOCAL_LLM = false ->
  LocalLLMProvider.generateResponse messages options env w =
  (Thrown (Js.Error "Local LLM is not enabled"), push (Generate "Local") w).
Proof.
  intros Hoff. unfold LocalLLMProvider.generateResponse. unfold_methods. cbn.
  rewrite Hoff. reflexivity.
Qed.

Lemma provider_isAvailable_run p env w :
  provider_isAvailable p env w = (Returned (available p w), w).
Proof. destruct p; reflexivity. Qed.

Lemma isAvailable_returns p env w b :
  (provider_isAvailable p env w).1 = Returned b -> available p w = b.
Proof. rewrite provider_isAvailable_run. cbn. congruence. Qed.

(** ** The circuit breaker's three methods *)

Lemma shouldAttemptProvider_closed n env w :
  failures n w < 3 ->
  ResilientLLMService.shouldAttemptProvider n env w = (Returned true, w).
Proof.
  intros H. unfold ResilientLLMService.shouldAttemptProvider. unfold_methods.
  unfold failures in H. cbn.
  destruct (Z.ltb_spec (Js.or0 (failureCount w !! n))
              ResilientLLMService.CIRCUIT_BREAKER_THRESHOLD) as [_|Hge]; [reflexivity|].
  unfold ResilientLLMService.CIRCUIT_BREAKER_THRESHOLD in Hge. lia.
Qed.

Lemma shouldAttemptProvider_open n env w :
  3 <= failures n w ->
  ResilientLLMService.shouldAttemptProvider n env w =
  (Returned (60000 <? clock env (tick w) - lastFailure n w), set_tick (S (tick w)) w).
Proof.
  intros H. unfold ResilientLLMService.shouldAttemptProvider. unfold_methods.
  unfold failures in H. cbn.
  destruct (Z.ltb_spec (Js.or0 (failureCount w !! n))
              ResilientLLMService.CIRCUIT_BREAKER_THRESHOLD) as [Hlt|_]; [|reflexivity].
  unfold ResilientLLMService.CIRCUIT_BREAKER_THRESHOLD in Hlt. lia.
Qed.

Lemma recordSuccess_run n env w :
  ResilientLLMService.recordSuccess n env w =
  (Returned tt,
   set_lastFailureTime (delete n (lastFailureTime w))
     (set_failureCount (<[n := 0]> (failureCount w)) w)).
Proof. reflexivity. Qed.

Lemma recordFailure_run n env w :
  ResilientLLMService.recordFailure n env w =
  (Returned tt,
   set_lastFailureTime (<[n := clock env (tick w)]> (lastFailureTime w))
     (set_tick (S (tick w))
        (set_failureCount (<[n := failures n w + 1]> (failureCount w)) w))).
Proof. reflexivity. Qed.

(** ** One candidate of the dispatch *)

Lemma trace_pushes evs w :
  trace (foldl (fun w e => push e w) w evs) = trace w ++ evs.
Proof.
  revert w. induction evs as [|e evs IH]; intros w; cbn.
  - symmetry. apply app_nil_r.
  - rewrite IH. cbn. rewrite <- app_assoc. reflexivity.
Qed.

Lemma frame_pushes evs w : frame w (foldl (fun w e => push e w) w evs).
Proof.
  revert w. induction evs as [|e evs IH]; intros w; cbn.
  - repeat split.
  - destruct (IH (push e w)) as (?&?&?&?). cbn in *. repeat split; congruence.
Qed.

Lemma circuit_pushes evs w : circuit_same w (foldl (fun w e => push e w) w evs).
Proof.
  revert w. induction evs as [|e evs IH]; intros w; cbn.
  - split; reflexivity.
  - destruct (IH (push e w)) as (?&?). cbn in *. split; congruence.
Qed.

Lemma available_frame p w w' : frame w w' -> available p w' = available p w.
Proof. intros (Hf&_). unfold available. rewrite Hf. reflexivity. Qed.

Lemma attemptBody_run p before after messages options env w :
  generated before = [] -> generated after = [] ->
  forallb (fun e => negb (is_inference e)) (before ++ after) = true ->
  exists r w' evs,
    attemptBody p before after messages options env w = (Returned r, w') /\
    Body p w r w' evs /\
    (r = None -> available p w = true ->
     exists w1 e, (provider_generateResponse p messages options env w1).1 = Thrown e).
Proof.
  intros Hb Ha Hinf. unfold attemptBody.
  rewrite run_try_catch, run_bind, provider_isAvailable_run.
  destruct (available p w) eqn:Hav.
  2:{ exists None, w, []. split; [reflexivity|]. split; [|discriminate].
      constructor. exact Hav. }
  rewrite run_bind. unfold emits at 1. unfold modify.
  set (w1 := foldl (fun w e => push e w) w before).
  rewrite run_bind.
  destruct (provider_generateResponse_post p messages options env w1) as (evs & Hpost).
  destruct (provider_generateResponse p messages options env w1) as [res w2] eqn:Hcall.
  cbn [fst snd] in Hpost. destruct Hpost as [Htr Hgen _ Hfr Hci _ Hprov Hinfer].
  assert (Hfr1 : frame w w1) by apply frame_pushes.
  assert (Hci1 : circuit_same w w1) by apply circuit_pushes.
  assert (Htr1 : trace w1 = trace w ++ before) by apply trace_pushes.
  rewrite forallb_app in Hinf. apply andb_prop in Hinf. destruct Hinf as [Hinfb Hinfa].
  destruct res as [response|error].
  - rewrite run_bind, recordSuccess_run. cbn [ret].
    eexists (Some response), _, (before ++ evs). split; [reflexivity|].
    split; [|discriminate].
    apply body_success; cbn.
    + exact Hav.
    + apply Hprov. reflexivity.
    + rewrite Htr, Htr1, app_assoc. reflexivity.
    + rewrite generated_app, Hb, Hgen. reflexivity.
    + intros e He Hi. apply in_app_or in He. destruct He as [He|He].
      * rewrite forallb_forall in Hinfb. apply Hinfb in He. rewrite Hi in He. discriminate.
      * apply (Hinfer e He Hi).
    + destruct Hfr as (?&?&?&?), Hfr1 as (?&?&?&?). unfold frame. cbn.
      repeat split; congruence.
    + destruct Hci as (->&_), Hci1 as (->&_). reflexivity.
    + destruct Hci as (_&->), Hci1 as (_&->). reflexivity.
  - rewrite run_bind, recordFailure_run. rewrite run_bind. unfold emits, modify. cbn [ret].
    eexists None, _, (before ++ evs ++ after). split; [reflexivity|].
    split; [|intros _ _; exists w1, error; rewrite Hcall; reflexivity].
    eapply body_failure; cbn.
    + exact Hav.
    + rewrite trace_pushes. cbn. rewrite Htr, Htr1, <- !app_assoc. reflexivity.
    + rewrite !generated_app, Hb, Hgen, Ha. reflexivity.
    + intros e He Hi. apply in_app_or in He. destruct He as [He|He].
      * rewrite forallb_forall in Hinfb. apply Hinfb in He. rewrite Hi in He. discriminate.
      * apply in_app_or in He. destruct He as [He|He]; [apply (Hinfer e He Hi)|].
        rewrite forallb_forall in Hinfa. apply Hinfa in He. rewrite Hi in He. discriminate.
    + match goal with |- frame _ (foldl _ ?x _) => pose proof (frame_pushes after x) as Hfr2 end.
      destruct Hfr as (?&?&?&?), Hfr1 as (?&?&?&?), Hfr2 as (?&?&?&?). cbn in *.
      unfold frame. repeat split; congruence.
    + match goal with |- failureCount (foldl _ ?x _) = _ =>
        pose proof (circuit_pushes after x) as (->&_) end. cbn.
      unfold failures. destruct Hci as (->&_), Hci1 as (->&_). reflexivity.
    + match goal with |- lastFailureTime (foldl _ ?x _) = _ =>
        pose proof (circuit_pushes after x) as (_&->) end. cbn.
      destruct Hci as (_&->), Hci1 as (_&->). reflexivity.
Qed.

Lemma tryPrimary_unfold messages options :
  ResilientLLMService.tryPrimary messages options =
  (primary <- gets primaryProvider ;;
   attempt <- ResilientLLMService.shouldAttemptProvider (name primary) ;;
   if attempt then
     attemptBody primary []
       [Warn "Primary LLM provider failed:"; Audit "auth_failed" "Primary LLM failed"]
       messages options
   else ret None).
Proof. reflexivity. Qed.

Lemma tryFallbacks_unfold fallback rest messages options :
  ResilientLLMService.tryFallbacks (fallback :: rest) messages options =
  (attempt <- ResilientLLMService.shouldAttemptProvider (name fallback) ;;
   if negb attempt then ResilientLLMService.tryFallbacks rest messages options
   else
     returned <-
       attemptBody fallback
         [Audit "settings_change" ("Falling back to " +:+ name fallback)]
         [Warn ("Fallback provider " +:+ name fallback +:+ " failed:")]
         messages options ;;
     match returned with
     | Some response => ret (Some response)
     | None => ResilientLLMService.tryFallbacks rest messages options
     end).
Proof. reflexivity. Qed.

(** The circuit check in front of a [try] block [body]. *)
Lemma gate_cases n env w :
  (failures n w < 3 /\
   ResilientLLMService.shouldAttemptProvider n env w = (Returned true, w)) \/
  (3 <= failures n w /\ 60000 < clock env (tick w) - lastFailure n w /\
   ResilientLLMService.shouldAttemptProvider n env w =
   (Returned true, set_tick (S (tick w)) w)) \/
  (3 <= failures n w /\ clock env (tick w) - lastFailure n w <= 60000 /\
   ResilientLLMService.shouldAttemptProvider n env w =
   (Returned false, set_tick (S (tick w)) w)).
Proof.
  destruct (Z_lt_le_dec (failures n w) 3) as [Hlt|Hge].
  - left. split; [exact Hlt|]. apply shouldAttemptProvider_closed, Hlt.
  - right. rewrite (shouldAttemptProvider_open n env w Hge).
    destruct (Z.ltb_spec 60000 (clock env (tick w) - lastFailure n w)); [left|right]; auto.
Qed.

Lemma tryPrimary_attempt messages options env w :
  exists r w' evs,
    ResilientLLMService.tryPrimary messages options env w = (Returned r, w') /\
    Attempt env (primaryProvider w) w r w' evs.
Proof.
  rewrite tryPrimary_unfold. rewrite run_bind. cbn [gets]. rewrite run_bind.
  set (p := primaryProvider w).
  destruct (gate_cases (name p) env w) as [(Hlt&->)|[(Hge&Hcool&->)|(Hge&Hhot&->)]].
  - destruct (attemptBody_run p [] [Warn "Primary LLM provider failed:";
                Audit "auth_failed" "Primary LLM failed"] messages options env w)
      as (r & w' & evs & Hrun & Hbody & _); try reflexivity.
    exists r, w', evs. split; [exact Hrun|].
    eapply attempt_tried; [left; exact Hlt|left; reflexivity|exact Hbody].
  - destruct (attemptBody_run p [] [Warn "Primary LLM provider failed:";
                Audit "auth_failed" "Primary LLM failed"] messages options env
                (set_tick (S (tick w)) w))
      as (r & w' & evs & Hrun & Hbody & _); try reflexivity.
    exists r, w', evs. split; [exact Hrun|].
    eapply attempt_tried; [right; exact Hcool|right; reflexivity|exact Hbody].
  - exists None, (set_tick (S (tick w)) w), []. split; [reflexivity|].
    apply attempt_skipped; assumption.
Qed.

Lemma tryFallbacks_run fallbacks messages options env w :
  exists r w' evs,
    ResilientLLMService.tryFallbacks fallbacks messages options env w = (Returned r, w') /\
    Run env fallbacks w r w' evs.
Proof.
  revert w. induction fallbacks as [|p rest IH]; intros w.
  - exists None, w, []. split; [reflexivity|constructor].
  - rewrite tryFallbacks_unfold, run_bind.
    destruct (gate_cases (name p) env w) as [(Hlt&->)|[(Hge&Hcool&->)|(Hge&Hhot&->)]];
      cbn [negb].
    + rewrite run_bind.
      destruct (attemptBody_run p
                  [Audit "settings_change" ("Falling back to " +:+ name p)]
                  [Warn ("Fallback provider " +:+ name p +:+ " failed:")]
                  messages options env w)
        as (r & w1 & evs1 & -> & Hbody & _); try reflexivity.
      assert (Hatt : Attempt env p w r w1 evs1)
        by (eapply attempt_tried; [left; exact Hlt|left; reflexivity|exact Hbody]).
      destruct r as [response|].
      * exists (Some response), w1, evs1. split; [reflexivity|]. apply run_hit, Hatt.
      * destruct (IH w1) as (r & w' & evs & -> & Hrun).
        exists r, w', (evs1 ++ evs). split; [reflexivity|]. eapply run_miss; eassumption.
    + rewrite run_bind.
      destruct (attemptBody_run p
                  [Audit "settings_change" ("Falling back to " +:+ name p)]
                  [Warn ("Fallback provider " +:+ name p +:+ " failed:")]
                  messages options env (set_tick (S (tick w)) w))
        as (r & w1 & evs1 & -> & Hbody & _); try reflexivity.
      assert (Hatt : Attempt env p w r w1 evs1)
        by (eapply attempt_tried; [right; exact Hcool|right; reflexivity|exact Hbody]).
      destruct r as [response|].
      * exists (Some response), w1, evs1. split; [reflexivity|]. apply run_hit, Hatt.
      * destruct (IH w1) as (r & w' & evs & -> & Hrun).
        exists r, w', (evs1 ++ evs). split; [reflexivity|]. eapply run_miss; eassumption.
    + destruct (IH (set_tick (S (tick w)) w)) as (r & w' & evs & -> & Hrun).
      exists r, w', ([] ++ evs). split; [reflexivity|].
      eapply run_miss; [|exact Hrun]. apply attempt_skipped; assumption.
Qed.

(** ** The factory *)

Lemma set_providers_id w : set_providers (providers w) w = w.
Proof. destruct w; reflexivity. Qed.

Lemma type_key_inj t t' : type_key t = type_key t' -> t = t'.
Proof. destruct t, t'; cbn; intros H; first [reflexivity|discriminate H]. Qed.

Lemma cached_as_insert m t t' :
  cached_as m t' = true ->
  cached_as (<[type_key t := class_of t]> m) t' = true.
Proof.
  intros H. unfold cached_as in *. rewrite lookup_insert. case_decide as Hk.
  - apply type_key_inj in Hk. subst t'. apply bool_decide_eq_true. reflexivity.
  - exact H.
Qed.

Lemma factory_ok_insert t w :
  factory_ok w = true ->
  factory_ok (set_providers (<[type_key t := class_of t]> (providers w)) w) = true.
Proof.
  unfold factory_ok. cbn. intros H.
  apply andb_prop in H. destruct H as [H Hl]. apply andb_prop in H. destruct H as [Ho Ha].
  rewrite !cached_as_insert by assumption. reflexivity.
Qed.

(** A concrete type is served from the cache or created, and never throws;
    over a well-formed cache the instance is of the type's class. *)
Lemma cachedOrNew_run type env w :
  type <> auto ->
  exists p m,
    LLMFactory.cachedOrNew type env w = (Returned p, set_providers m w) /\
    (factory_ok w = true ->
     p = class_of type /\ factory_ok (set_providers m w) = true).
Proof.
  intros Hty. unfold LLMFactory.cachedOrNew. unfold_methods. cbn.
  destruct (providers w !! type_key type) as [q|] eqn:Hq.
  - exists q, (providers w). rewrite set_providers_id. split; [reflexivity|].
    intros Hok. split; [|exact Hok].
    unfold factory_ok in Hok.
    apply andb_prop in Hok. destruct Hok as [Hok Hl].
    apply andb_prop in Hok. destruct Hok as [Ho Ha].
    unfold cached_as in *.
    destruct type; try congruence;
      [rewrite Hq in Ho; apply bool_decide_eq_true in Ho; exact Ho
      |rewrite Hq in Ha; apply bool_decide_eq_true in Ha; exact Ha
      |rewrite Hq in Hl; apply bool_decide_eq_true in Hl; exact Hl].
  - destruct type; try congruence; cbn;
      eexists _, _; (split; [reflexivity|]); intros Hok;
      (split; [reflexivity|]).
    + apply (factory_ok_insert openai w Hok).
    + apply (factory_ok_insert anthropic w Hok).
    + apply (factory_ok_insert local w Hok).
Qed.

Lemma getProvider_auto_run env w :
  exists p m,
    LLMFactory.getProvider auto env w = (Returned p, set_providers m w) /\
    (factory_ok w = true ->
     p = resolve (featureFlags w) /\ factory_ok (set_providers m w) = true).
Proof.
  cbn [LLMFactory.getProvider]. unfold LLMFactory.getOptimalProvider.
  rewrite run_bind. unfold isEnabled at 1. cbn [gets]. unfold resolve.
  destruct (FeatureFlagService.isEnabled (featureFlags w) STRICT_LOCAL_MODE).
  - destruct (cachedOrNew_run local env w) as (p & m & Hrun & Hok); [discriminate|].
    exists p, m. split; [exact Hrun|exact Hok].
  - rewrite run_bind. unfold isEnabled at 1. cbn [gets].
    destruct (FeatureFlagService.isEnabled (featureFlags w) LOCAL_LLM).
    + destruct (cachedOrNew_run local env w) as (p & m & Hrun & Hok); [discriminate|].
      exists p, m. split; [exact Hrun|exact Hok].
    + destruct (cachedOrNew_run anthropic env w) as (p & m & Hrun & Hok); [discriminate|].
      exists p, m. split; [exact Hrun|exact Hok].
Qed.

Lemma getProvider_concrete_run type env w :
  type <> auto ->
  LLMFactory.getProvider type env w = LLMFactory.cachedOrNew type env w.
Proof. destruct type; try reflexivity. congruence. Qed.

(** [initializeProviders] always returns; it rewrites the two provider
    references and possibly the factory's cache, nothing else. *)
Lemma initializeProviders_run env w :
  exists m p fs,
    ResilientLLMService.initializeProviders env w =
    (Returned tt,
     mkWorld (tick w) (trace w) (featureFlags w) m p fs
             (failureCount w) (lastFailureTime w)) /\
    (factory_ok w = true ->
     p = resolve (featureFlags w) /\ fs = [Anthropic; OpenAI] /\
     factory_ok (set_providers m w) = true).
Proof.
  unfold ResilientLLMService.initializeProviders.
  rewrite run_bind.
  destruct (getProvider_auto_run env w) as (p & m1 & -> & H1).
  rewrite run_bind. cbn [modify]. rewrite run_bind.
  rewrite getProvider_concrete_run by discriminate.
  destruct (cachedOrNew_run anthropic env (set_primaryProvider p (set_providers m1 w)))
    as (a & m2 & -> & H2); [discriminate|].
  rewrite run_bind.
  rewrite getProvider_concrete_run by discriminate.
  destruct (cachedOrNew_run openai env
              (set_providers m2 (set_primaryProvider p (set_providers m1 w))))
    as (o & m3 & -> & H3); [discriminate|].
  exists m3, p, [a; o]. split; [reflexivity|].
  intros Hok. destruct (H1 Hok) as (-> & Hok1).
  destruct (H2 Hok1) as (-> & Hok2). destruct (H3 Hok2) as (-> & Hok3).
  repeat split. exact Hok3.
Qed.

(** ** What a dispatch leaves behind *)

Lemma or0_Some x : Js.or0 (Some x) = x.
Proof. cbn. destruct (Z.eqb_spec x 0); congruence. Qed.

Lemma count_sublist n (l1 l2 : list string) :
  sublist l1 l2 -> (count n l1 <= count n l2)%nat.
Proof.
  unfold count. induction 1 as [|x l1 l2 _ IH|x l1 l2 _ IH]; cbn.
  - lia.
  - destruct (string_dec x n); lia.
  - destruct (string_dec x n); lia.
Qed.

Lemma count_app n (l1 l2 : list string) : count n (l1 ++ l2) = (count n l1 + count n l2)%nat.
Proof. apply count_occ_app. Qed.

Lemma Body_frame p w r w' evs :
  Body p w r w' evs -> frame w w' /\ trace w' = trace w ++ evs.
Proof.
  destruct 1; try (split; assumption).
  split; [repeat split|symmetry; apply app_nil_r].
Qed.

Lemma Attempt_frame env p w r w' evs :
  Attempt env p w r w' evs -> frame w w' /\ trace w' = trace w ++ evs.
Proof.
  destruct 1 as [|w1 r w' evs _ Hw1 Hbody].
  - split; [repeat split|symmetry; apply app_nil_r].
  - apply Body_frame in Hbody. destruct Hw1; subst w1; exact Hbody.
Qed.

Lemma frame_trans w1 w2 w3 : frame w1 w2 -> frame w2 w3 -> frame w1 w3.
Proof. intros (?&?&?&?) (?&?&?&?). repeat split; congruence. Qed.

Lemma Run_frame env ps w r w' evs :
  Run env ps w r w' evs -> frame w w' /\ trace w' = trace w ++ evs.
Proof.
  induction 1 as [w|p ps w r w' evs Hatt|p ps w w1 evs1 r w' evs Hatt _ IH].
  - split; [repeat split|symmetry; apply app_nil_r].
  - eapply Attempt_frame, Hatt.
  - apply Attempt_frame in Hatt. destruct Hatt as [Hf1 Ht1], IH as [Hf Ht].
    split; [eapply frame_trans; eassumption|].
    rewrite Ht, Ht1, app_assoc. reflexivity.
Qed.

(** A candidate's [generateResponse] is entered at most once. *)
Lemma Attempt_generated env p w r w' evs :
  Attempt env p w r w' evs -> generated evs = [] \/ generated evs = [name p].
Proof.
  destruct 1 as [|w1 r w' evs _ _ Hbody]; [left; reflexivity|].
  destruct Hbody; [left; reflexivity|right; assumption|right; assumption].
Qed.

Lemma Run_generated env ps w r w' evs :
  Run env ps w r w' evs -> sublist (generated evs) (name <$> ps).
Proof.
  induction 1 as [w|p ps w r w' evs Hatt|p ps w w1 evs1 r w' evs Hatt _ IH]; cbn.
  - constructor.
  - destruct (Attempt_generated _ _ _ _ _ _ Hatt) as [->| ->].
    + apply sublist_nil_l.
    + apply sublist_skip, sublist_nil_l.
  - rewrite generated_app.
    destruct (Attempt_generated _ _ _ _ _ _ Hatt) as [->| ->]; cbn.
    + apply sublist_cons, IH.
    + apply sublist_skip, IH.
Qed.

(** A candidate that does not answer adds to each counter the number of
    calls made to that provider: one for the candidate if it was called. *)
Lemma Attempt_miss_failures env p w w' evs n :
  Attempt env p w None w' evs ->
  failures n w' = failures n w + Z.of_nat (count n (generated evs)).
Proof.
  intros Hatt. inversion Hatt as [Hge Hhot|w1 r0 w0 evs0 _ Hw1 Hbody]; subst.
  - cbn. unfold failures. cbn. lia.
  - assert (Hf1 : forall k, failures k w1 = failures k w)
      by (intros k; destruct Hw1; subst w1; reflexivity).
    rewrite <- (Hf1 n).
    inversion Hbody as [Hav|?|w0 evs0 t Hav Htr Hgen _ _ Hfc Hlt]; subst.
    + cbn. lia.
    + rewrite Hgen. unfold failures at 1. rewrite Hfc. unfold count. cbn.
      destruct (string_dec (name p) n) as [->|Hne].
      * rewrite lookup_insert_eq, or0_Some. lia.
      * rewrite lookup_insert_ne by exact Hne. unfold failures. lia.
Qed.

Lemma Run_miss_failures env ps w w' evs n :
  Run env ps w None w' evs ->
  failures n w' = failures n w + Z.of_nat (count n (generated evs)).
Proof.
  intros Hrun. remember None as r eqn:Hr.
  induction Hrun as [w|p ps w r w' evs Hatt|p ps w w1 evs1 r w' evs Hatt _ IH].
  - cbn. lia.
  - discriminate Hr.
  - rewrite generated_app, count_app, (IH Hr).
    rewrite (Attempt_miss_failures _ _ _ _ _ n Hatt). lia.
Qed.

(** The candidate that answers was called, was available, and leaves its
    circuit closed. *)
Lemma Attempt_hit env p w response w' evs :
  Attempt env p w (Some response) w' evs ->
  LLMResponse.provider response = name p /\ available p w = true /\
  generated evs = [name p] /\
  failureCount w' !! name p = Some 0 /\ lastFailureTime w' !! name p = None.
Proof.
  inversion 1 as [|w1 r0 w0 evs0 _ Hw1 Hbody]; subst.
  inversion Hbody as [|r0 w0 evs0 Hav Hprov Htr Hgen _ _ Hfc Hlt|]; subst.
  repeat split.
  - exact Hprov.
  - destruct Hw1; subst w1; exact Hav.
  - exact Hgen.
  - rewrite Hfc. apply lookup_insert_eq.
  - rewrite Hlt. apply lookup_delete_eq.
Qed.

Lemma Run_hit_provider env ps w response w' evs :
  Run env ps w (Some response) w' evs ->
  exists p, In p ps /\ LLMResponse.provider response = name p /\
            available p w = true /\
            In (name p) (generated evs) /\
            failureCount w' !! name p = Some 0 /\
            lastFailureTime w' !! name p = None.
Proof.
  intros Hrun. remember (Some response) as r eqn:Hr.
  induction Hrun as [w|p ps w r w' evs Hatt|p ps w w1 evs1 r w' evs Hatt _ IH].
  - discriminate Hr.
  - injection Hr as ->. exists p. split; [left; reflexivity|].
    destruct (Attempt_hit _ _ _ _ _ _ Hatt) as (Hprov & Hav & Hgen & Hfc & Hlt).
    repeat split; try assumption. rewrite Hgen. left; reflexivity.
  - destruct (IH Hr) as (q & Hin & Hprov & Hav & Hgen & Hfc & Hlt).
    exists q. repeat split; try assumption.
    + right; exact Hin.
    + apply Attempt_frame in Hatt. destruct Hatt as [Hf _].
      rewrite <- (available_frame q w w1 Hf). exact Hav.
    + rewrite generated_app. apply in_or_app. right; exact Hgen.
Qed.

Lemma Attempt_blocked env p q w r w' evs :
  blocked env p w ->
  Attempt env q w r w' evs ->
  ~ In (name p) (generated evs) /\ circuit_of (name p) w' = circuit_of (name p) w.
Proof.
  intros Hblocked Hatt.
  inversion Hatt as [Hge Hhot|w1 r0 w0 evs0 Hallow Hw1 Hbody]; subst.
  - split; [intros []|reflexivity].
  - assert (Hsame : circuit_of (name p) w1 = circuit_of (name p) w
                    /\ available p w1 = available p w
                    /\ failures (name q) w1 = failures (name q) w)
      by (destruct Hw1; subst w1; repeat split).
    destruct Hsame as (Hc1 & Hav1 & Hf1).
    assert (Hne : forall evs1, available q w1 = true -> generated evs1 = [name q] ->
                               name q <> name p /\ ~ In (name p) (generated evs1)).
    { intros evs1 Hav Hgen.
      assert (name q <> name p) as Hne.
      { intros Heq. apply name_inj in Heq. subst q.
        destruct Hblocked as [(Hge & Hhot)|Hun].
        - destruct Hallow as [Hlt|Hcool]; [lia|]. specialize (Hhot (tick w)). lia.
        - rewrite Hav1 in Hav. congruence. }
      split; [exact Hne|]. rewrite Hgen. intros [Heq|[]]. contradiction. }
    inversion Hbody as [Hav|r1 w2 evs1 Hav _ _ Hgen _ _ Hfc Hlt
                           |w2 evs1 t Hav _ Hgen _ _ Hfc Hlt]; subst.
    + split; [intros []|exact Hc1].
    + destruct (Hne _ Hav Hgen) as [Hneq Hnin]. split; [exact Hnin|].
      rewrite <- Hc1. unfold circuit_of. rewrite Hfc, Hlt.
      rewrite lookup_insert_ne, lookup_delete_ne by exact Hneq. reflexivity.
    + destruct (Hne _ Hav Hgen) as [Hneq Hnin]. split; [exact Hnin|].
      rewrite <- Hc1. unfold circuit_of. rewrite Hfc, Hlt.
      rewrite !lookup_insert_ne by exact Hneq. reflexivity.
Qed.

Lemma blocked_preserved env p w w' :
  frame w w' -> circuit_of (name p) w' = circuit_of (name p) w ->
  blocked env p w -> blocked env p w'.
Proof.
  intros Hf Hc [(Hge & Hhot)|Hun].
  - left. unfold failures, lastFailure, circuit_of in *.
    injection Hc as -> ->. split; assumption.
  - right. rewrite (available_frame p w w' Hf). exact Hun.
Qed.

Lemma Run_blocked env p ps w r w' evs :
  blocked env p w ->
  Run env ps w r w' evs ->
  ~ In (name p) (generated evs) /\ circuit_of (name p) w' = circuit_of (name p) w.
Proof.
  intros Hblocked Hrun. revert Hblocked.
  induction Hrun as [w|q ps w r w' evs Hatt|q ps w w1 evs1 r w' evs Hatt _ IH];
    intros Hblocked.
  - split; [intros []|reflexivity].
  - eapply Attempt_blocked; eassumption.
  - destruct (Attempt_blocked _ _ _ _ _ _ _ Hblocked Hatt) as [Hnin1 Hc1].
    apply Attempt_frame in Hatt. destruct Hatt as [Hf1 _].
    destruct (IH (blocked_preserved _ _ _ _ Hf1 Hc1 Hblocked)) as [Hnin Hc].
    split; [|congruence].
    rewrite generated_app. intros Hin. apply in_app_or in Hin. tauto.
Qed.

(** The simulated inference runs only inside a call to the local provider. *)
Lemma Run_inference env ps w r w' evs e :
  Run env ps w r w' evs ->
  In e evs -> is_inference e = true -> In (name Local) (generated evs).
Proof.
  intros Hrun.
  assert (Hatt : forall p w r w' evs, Attempt env p w r w' evs ->
                 In e evs -> is_inference e = true -> In (name Local) (generated evs)).
  { clear. intros p w r w' evs Hatt Hin Hi.
    inversion Hatt as [|w1 r0 w0 evs0 _ _ Hbody]; subst; [destruct Hin|].
    inversion Hbody as [|r1 w2 evs1 _ _ _ Hgen Hinf _ _ _
                        |w2 evs1 t _ _ Hgen Hinf _ _ _]; subst.
    - destruct Hin.
    - rewrite Hgen, (Hinf e Hin Hi). left; reflexivity.
    - rewrite Hgen, (Hinf e Hin Hi). left; reflexivity. }
  induction Hrun as [w|q ps w r w' evs Hq|q ps w w1 evs1 r w' evs Hq _ IH];
    intros Hin Hi.
  - destruct Hin.
  - eapply Hatt; eassumption.
  - rewrite generated_app. apply in_or_app. apply in_app_or in Hin.
    destruct Hin as [Hin|Hin]; [left; eapply Hatt; eassumption|right; auto].
Qed.

(** ** The dispatch as a whole *)

(** [generateResponse] always comes back: it re-derives the provider
    references, meets the primary and then the fallbacks in order, and
    returns the first answer or throws the exhaustion error. *)
Lemma generateResponse_run messages options env w :
  exists w0 r w' evs,
    ResilientLLMService.initializeProviders env w = (Returned tt, w0) /\
    Run env (primaryProvider w0 :: fallbackProviders w0) w0 r w' evs /\
    ResilientLLMService.generateResponse messages options env w =
    (match r with
     | Some response => Returned response
     | None => Thrown ResilientLLMService.allUnavailable
     end, w').
Proof.
  unfold ResilientLLMService.generateResponse. rewrite run_bind.
  destruct (initializeProviders_run env w) as (m & p & fs & Hinit & _).
  rewrite Hinit. set (w0 := mkWorld _ _ _ _ _ _ _ _).
  rewrite run_bind.
  destruct (tryPrimary_attempt messages options env w0) as (r1 & w1 & evs1 & -> & Hatt).
  exists w0. destruct r1 as [response|].
  - exists (Some response), w1, evs1. repeat split. apply run_hit, Hatt.
  - rewrite run_bind. cbn [gets]. rewrite run_bind.
    destruct (tryFallbacks_run (fallbackProviders w1) messages options env w1)
      as (r & w' & evs & -> & Hrun).
    assert (Hfs : fallbackProviders w1 = fallbackProviders w0)
      by (apply Attempt_frame in Hatt; destruct Hatt as ((_&_&_&Hfs)&_); exact Hfs).
    rewrite Hfs in Hrun.
    exists r, w', (evs1 ++ evs). repeat split.
    + eapply run_miss; eassumption.
    + destruct r; reflexivity.
Qed.

Lemma new_events_app w w' evs : trace w' = trace w ++ evs -> new_events w w' = evs.
Proof. intros H. unfold new_events. rewrite H. apply drop_app_length. Qed.

Lemma generateResponse_summary messages options env w :
  exists w0 r w' evs,
    ResilientLLMService.generateResponse messages options env w =
    (match r with
     | Some response => Returned response
     | None => Thrown ResilientLLMService.allUnavailable
     end, w') /\
    Run env (primaryProvider w0 :: fallbackProviders w0) w0 r w' evs /\
    new_events w w' = evs /\
    tick w0 = tick w /\ featureFlags w0 = featureFlags w /\
    failureCount w0 = failureCount w /\ lastFailureTime w0 = lastFailureTime w /\
    primaryProvider w' = primaryProvider w0 /\
    fallbackProviders w' = fallbackProviders w0 /\
    (factory_ok w = true ->
     primaryProvider w0 = resolve (featureFlags w) /\
     fallbackProviders w0 = [Anthropic; OpenAI]).
Proof.
  destruct (generateResponse_run messages options env w)
    as (w0 & r & w' & evs & Hinit & Hrun & Hgen).
  destruct (initializeProviders_run env w) as (m & p & fs & Hinit' & Hok).
  rewrite Hinit in Hinit'. injection Hinit' as ->.
  eexists _, r, w', evs. split; [exact Hgen|]. split; [exact Hrun|].
  destruct (Run_frame _ _ _ _ _ _ Hrun) as [(_ & _ & Hp & Hfs) Htr].
  split; [apply new_events_app; exact Htr|].
  repeat split; try assumption; apply Hok; assumption.
Qed.

(** ** The circuit breaker *)



Lemma tryFallbacks_skips p rest messages options env w :
  3 <= failures (name p) w ->
  clock env (tick w) - lastFailure (name p) w <= 60000 ->
  ResilientLLMService.tryFallbacks (p :: rest) messages options env w =
  ResilientLLMService.tryFallbacks rest messages options env (set_tick (S (tick w)) w).
Proof.
  intros Hge Hhot. rewrite tryFallbacks_unfold, run_bind.
  rewrite (shouldAttemptProvider_open _ env w Hge).
  destruct (Z.ltb_spec 60000 (clock env (tick w) - lastFailure (name p) w));
    [lia|reflexivity].
Qed.




Example tripped_circuits :
  failures "Anthropic" tripped = 3 /\ lastFailure "Anthropic" tripped = 1000 /\
  failures "OpenAI" tripped = 2 /\ failures "Local" tripped = 0.
Proof. vm_compute. repeat split. Qed.


(** ** The candidate list *)

Lemma resolve_cases f : resolve f = Local \/ resolve f = Anthropic.
Proof.
  unfold resolve.
  destruct (FeatureFlagService.isEnabled f STRICT_LOCAL_MODE); [left; reflexivity|].
  destruct (FeatureFlagService.isEnabled f LOCAL_LLM); [left|right]; reflexivity.
Qed.

(** C2, as stated, fails: with strict local mode off and the local model
    off, [auto] resolves to Anthropic, which is also the first fallback; when
    its backend is down it is called as primary and again as fallback. *)
Lemma C2_counterexample :
  ~ (forall env messages options w p,
       factory_ok w = true ->
       (count (name p)
          (generated (new_events w
             (ResilientLLMService.generateResponse messages options env w).2))
        <= 1)%nat).
Proof.
  intros H.
  specialize (H (outage 1000) hello None remote_mode Anthropic eq_refl).
  vm_compute in H. lia.
Qed.

(** C2, amended. The candidates of a [generateResponse] are the provider
    [auto] resolves to, followed by Anthropic and OpenAI; the providers
    called are called in that order, each position at most once. So OpenAI
    and Local are called at most once, and Anthropic at most twice: once as
    primary and once as first fallback. *)
Theorem C2_candidates_in_order :
  forall (env : Env) (messages : list AIMessage.t) (options : option LLMOptions.t)
         (w : World),
    factory_ok w = true ->
    let w' := (ResilientLLMService.generateResponse messages options env w).2 in
    let called := generated (new_events w w') in
    primaryProvider w' = resolve (featureFlags w) /\
    fallbackProviders w' = [Anthropic; OpenAI] /\
    sublist called (name <$> (primaryProvider w' :: fallbackProviders w')) /\
    (count "OpenAI" called <= 1)%nat /\
    (count "Local" called <= 1)%nat /\
    (count "Anthropic" called <= 2)%nat.
Proof.
  intros env messages options w Hok w' called. subst called w'.
  destruct (generateResponse_summary messages options env w)
    as (w0 & r & w' & evs & -> & Hrun & Hev & _ & _ & _ & _ & Hp & Hfs & Hres).
  cbn [snd]. rewrite Hev. destruct (Hres Hok) as [Hp0 Hfs0].
  rewrite Hp, Hfs, Hp0, Hfs0.
  apply Run_generated in Hrun. rewrite Hp0, Hfs0 in Hrun.
  repeat split; try exact Hrun.
  - apply (count_sublist "OpenAI") in Hrun.
    eapply Nat.le_trans; [exact Hrun|].
    destruct (resolve_cases (featureFlags w)) as [-> | ->]; vm_compute; lia.
  - apply (count_sublist "Local") in Hrun.
    eapply Nat.le_trans; [exact Hrun|].
    destruct (resolve_cases (featureFlags w)) as [-> | ->]; vm_compute; lia.
  - apply (count_sublist "Anthropic") in Hrun.
    eapply Nat.le_trans; [exact Hrun|].
    destruct (resolve_cases (featureFlags w)) as [-> | ->]; vm_compute; lia.
Qed.

Lemma C2_witness :
  factory_ok remote_mode = true /\
  (count "Anthropic"
     (generated (new_events remote_mode
        (ResilientLLMService.generateResponse hello None (outage 1000) remote_mode).2))
   <= 2)%nat.
Proof.
  split; [reflexivity|].
  apply (C2_candidates_in_order (outage 1000) hello None remote_mode eq_refl).
Defined.

(** ** Exhaustion *)

(** C4. A [generateResponse] either returns the answer of a provider it
    called, whose circuit it leaves closed (count 0, no timestamp), or throws
    the exhaustion error, and nothing else. When it throws,
    the providers it called are candidates met in order, each position at
    most once (no retry), and every provider's failure counter has grown by
    the number of calls made to it; so a provider that stood at 0 and was
    called once stands at 1. *)
Theorem C4_exhaustion_is_terminal :
  forall (env : Env) (messages : list AIMessage.t) (options : option LLMOptions.t)
         (w : World),
    let res := (ResilientLLMService.generateResponse messages options env w).1 in
    let w' := (ResilientLLMService.generateResponse messages options env w).2 in
    let called := generated (new_events w w') in
    (exists response,
       res = Returned response /\ In (LLMResponse.provider response) called /\
       failureCount w' !! LLMResponse.provider response = Some 0 /\
       lastFailureTime w' !! LLMResponse.provider response = None) \/
    (res = Thrown (Js.Error "All LLM providers are currently unavailable") /\
     sublist called (name <$> (primaryProvider w' :: fallbackProviders w')) /\
     (forall n, failures n w' = failures n w + Z.of_nat (count n called)) /\
     (forall p, failures (name p) w = 0 -> count (name p) called = 1%nat ->
                failures (name p) w' = 1)).
Proof.
  intros env messages options w res w' called. subst res called w'.
  destruct (generateResponse_summary messages options env w)
    as (w0 & r & w' & evs & -> & Hrun & Hev & _ & _ & Hfc & _ & Hp & Hfs & _).
  cbn [fst snd]. rewrite Hev. destruct r as [response|].
  - left. exists response. split; [reflexivity|].
    apply Run_hit_provider in Hrun.
    destruct Hrun as (p & _ & -> & _ & Hin & Hzero & Hnone). repeat split; assumption.
  - right. split; [reflexivity|].
    assert (Hcount : forall n,
               failures n w' = failures n w + Z.of_nat (count n (generated evs))).
    { intros n. rewrite (Run_miss_failures _ _ _ _ _ n Hrun).
      unfold failures. rewrite Hfc. reflexivity. }
    split; [|split].
    + rewrite Hp, Hfs. apply Run_generated in Hrun. exact Hrun.
    + exact Hcount.
    + intros p H0 H1. rewrite Hcount, H0, H1. reflexivity.
Qed.

Lemma C4_witness :
  (ResilientLLMService.generateResponse hello None (outage 1000) started).1 =
    Thrown (Js.Error "All LLM providers are currently unavailable") /\
  failures "Anthropic"
    (ResilientLLMService.generateResponse hello None (outage 1000) started).2 = 1 /\
  failures "OpenAI"
    (ResilientLLMService.generateResponse hello None (outage 1000) started).2 = 1.
Proof.
  destruct (C4_exhaustion_is_terminal (outage 1000) hello None started)
    as [(response & Hres & _)|(Hres & _ & _ & Hone)].
  - vm_compute in Hres. discriminate Hres.
  - split; [exact Hres|]. split.
    + apply (Hone Anthropic); vm_compute; reflexivity.
    + apply (Hone OpenAI); vm_compute; reflexivity.
Defined.

(** ** Unavailable providers *)

Lemma attemptBody_unavailable p before after messages options env w :
  available p w = false ->
  attemptBody p before after messages options env w = (Returned None, w).
Proof.
  intros Hun. unfold attemptBody.
  rewrite run_try_catch, run_bind, provider_isAvailable_run, Hun. reflexivity.
Qed.

(** An unavailable candidate is passed over; at most the instant moves (when
    the circuit check read the clock). *)
Lemma tryPrimary_unavailable messages options env w :
  available (primaryProvider w) w = false ->
  exists w1, (w1 = w \/ w1 = set_tick (S (tick w)) w) /\
             ResilientLLMService.tryPrimary messages options env w = (Returned None, w1).
Proof.
  intros Hun. rewrite tryPrimary_unfold, run_bind. cbn [gets]. rewrite run_bind.
  destruct (gate_cases (name (primaryProvider w)) env w)
    as [(_&->)|[(_&_&->)|(_&_&->)]].
  - exists w. split; [left; reflexivity|]. apply attemptBody_unavailable, Hun.
  - exists (set_tick (S (tick w)) w). split; [right; reflexivity|].
    apply attemptBody_unavailable, Hun.
  - exists (set_tick (S (tick w)) w). split; [right; reflexivity|reflexivity].
Qed.

Lemma tryFallbacks_unavailable p rest messages options env w :
  available p w = false ->
  exists w1, (w1 = w \/ w1 = set_tick (S (tick w)) w) /\
             ResilientLLMService.tryFallbacks (p :: rest) messages options env w =
             ResilientLLMService.tryFallbacks rest messages options env w1.
Proof.
  intros Hun. rewrite tryFallbacks_unfold, run_bind.
  destruct (gate_cases (name p) env w) as [(_&->)|[(_&_&->)|(_&_&->)]]; cbn [negb].
  - exists w. split; [left; reflexivity|].
    rewrite run_bind, attemptBody_unavailable by exact Hun. reflexivity.
  - exists (set_tick (S (tick w)) w). split; [right; reflexivity|].
    rewrite run_bind, attemptBody_unavailable by exact Hun. reflexivity.
  - exists (set_tick (S (tick w)) w). split; [right; reflexivity|reflexivity].
Qed.

(** A remote provider whose backend answers returns. *)
Lemma remoteGenerate_answers p defaultModel messages options env w :
  (forall t msgs request, exists content usage,
      chat env t p msgs request = ChatOk content usage) ->
  exists r, (remoteGenerate p defaultModel messages options env w).1 = Returned r.
Proof.
  intros Hchat. unfold remoteGenerate, chatService. unfold_methods. cbn.
  match goal with
  | |- context [chat env ?t p ?m ?r] => destruct (Hchat t m r) as (c & u & ->)
  end.
  cbn. eexists. reflexivity.
Qed.

(** A remote fallback with a closed circuit, available and with its backend
    answering, is called and serves the request. *)
Lemma tryFallbacks_head_answers p rest messages options env w :
  p <> Local ->
  failures (name p) w < 3 ->
  available p w = true ->
  (forall t msgs request, exists content usage,
      chat env t p msgs request = ChatOk content usage) ->
  exists response w' evs,
    ResilientLLMService.tryFallbacks (p :: rest) messages options env w =
      (Returned (Some response), w') /\
    LLMResponse.provider response = name p /\
    trace w' = trace w ++ evs /\ generated evs = [name p].
Proof.
  intros Hp Hlt Hav Hchat.
  rewrite tryFallbacks_unfold, run_bind.
  rewrite shouldAttemptProvider_closed by exact Hlt. cbn [negb].
  rewrite run_bind.
  destruct (attemptBody_run p
              [Audit "settings_change" ("Falling back to " +:+ name p)]
              [Warn ("Fallback provider " +:+ name p +:+ " failed:")]
              messages options env w)
    as (r & w2 & evs & -> & Hbody & Hthrow); try reflexivity.
  destruct r as [response|].
  - exists response, w2, evs. split; [reflexivity|].
    inversion Hbody as [|? ? ? _ Hprov Htr Hgen _ _ _ _|]; subst.
    repeat split; assumption.
  - exfalso. destruct (Hthrow eq_refl Hav) as (wa & e & Hthrown).
    assert (Hret : exists r, (provider_generateResponse p messages options env wa).1
                             = Returned r).
    { destruct p; [| |congruence]; apply remoteGenerate_answers; exact Hchat. }
    destruct Hret as (r & Hr). congruence.
Qed.

(** With the local provider as unavailable primary, the first fallback that
    the circuit breaker lets through serves the call: Anthropic when its
    circuit is closed, OpenAI when Anthropic's circuit is open. *)
Lemma local_disabled_falls_back messages options env w :
  factory_ok w = true ->
  resolve (featureFlags w) = Local ->
  available Local w = false ->
  (available Anthropic w = true ->
   failures "Anthropic" w < 3 ->
   (forall t msgs request, exists content usage,
       chat env t Anthropic msgs request = ChatOk content usage) ->
   exists response,
     (ResilientLLMService.generateResponse messages options env w).1 = Returned response /\
     LLMResponse.provider response = "Anthropic" /\
     generated (new_events w
       (ResilientLLMService.generateResponse messages options env w).2) = ["Anthropic"]) /\
  (available OpenAI w = true ->
   3 <= failures "Anthropic" w ->
   (forall t, clock env t - lastFailure "Anthropic" w <= 60000) ->
   failures "OpenAI" w < 3 ->
   (forall t msgs request, exists content usage,
       chat env t OpenAI msgs request = ChatOk content usage) ->
   exists response,
     (ResilientLLMService.generateResponse messages options env w).1 = Returned response /\
     LLMResponse.provider response = "OpenAI" /\
     generated (new_events w
       (ResilientLLMService.generateResponse messages options env w).2) = ["OpenAI"]).
Proof.
  intros Hok Hres Hun.
  unfold ResilientLLMService.generateResponse. rewrite run_bind.
  destruct (initializeProviders_run env w) as (m & p & fs & -> & Hinit).
  destruct (Hinit Hok) as (-> & -> & _). rewrite Hres.
  set (w0 := mkWorld _ _ _ _ _ _ _ _).
  rewrite run_bind.
  destruct (tryPrimary_unavailable messages options env w0 Hun) as (w1 & Hw1 & ->).
  rewrite run_bind. cbn [gets].
  assert (Hfs : fallbackProviders w1 = [Anthropic; OpenAI])
    by (destruct Hw1; subst w1; reflexivity).
  assert (Hsame : trace w1 = trace w /\
                  (forall n, failures n w1 = failures n w) /\
                  (forall n, lastFailure n w1 = lastFailure n w) /\
                  (forall q, available q w1 = available q w))
    by (destruct Hw1; subst w1; repeat split).
  destruct Hsame as (Htr1 & Hf1 & Hl1 & Hav1).
  rewrite Hfs, run_bind. split.
  - intros Hav Hlt Hchat.
    destruct (tryFallbacks_head_answers Anthropic [OpenAI] messages options env w1)
      as (response & w2 & evs & -> & Hprov & Htr & Hgen);
      [discriminate|rewrite Hf1; exact Hlt|rewrite Hav1; exact Hav|exact Hchat|].
    cbn. exists response. split; [reflexivity|]. split; [exact Hprov|].
    rewrite (new_events_app w w2 evs); [exact Hgen|]. rewrite Htr, Htr1. reflexivity.
  - intros Hav Hge Hhot Hlt Hchat.
    rewrite tryFallbacks_skips
      by (cbn [name]; rewrite ?Hf1, ?Hl1; first [exact Hge|apply Hhot]).
    destruct (tryFallbacks_head_answers OpenAI [] messages options env
                (set_tick (S (tick w1)) w1))
      as (response & w2 & evs & -> & Hprov & Htr & Hgen);
      [discriminate
      |change (failures "OpenAI" w1 < 3); rewrite Hf1; exact Hlt
      |change (available OpenAI w1 = true); rewrite Hav1; exact Hav
      |exact Hchat|].
    cbn. exists response. split; [reflexivity|]. split; [exact Hprov|].
    rewrite (new_events_app w w2 evs); [exact Hgen|]. rewrite Htr. cbn [trace set_tick].
    rewrite Htr1. reflexivity.
Qed.

(** C6. An unavailable provider is not penalised. During a whole
    [generateResponse] a provider whose [isAvailable] is false is not called,
    and its failure count and failure timestamp stay as they were; met as
    primary or as fallback, it is passed over and the dispatch goes on with
    the next candidate in a world that differs at most by the instant. In
    particular, when the local provider is the disabled primary, the call is
    served by the first fallback the dispatch can use, given that its backend
    answers: Anthropic when it is available with a closed circuit, OpenAI
    when Anthropic's circuit is open. *)
Theorem C6_unavailable_is_not_a_failure :
  forall (env : Env) (messages : list AIMessage.t) (options : option LLMOptions.t)
         (w : World) (p : LLMProvider),
    (provider_isAvailable p env w).1 = Returned false ->
    let res := (ResilientLLMService.generateResponse messages options env w).1 in
    let w' := (ResilientLLMService.generateResponse messages options env w).2 in
    (~ In (name p) (generated (new_events w w')) /\
     failureCount w' !! name p = failureCount w !! name p /\
     lastFailureTime w' !! name p = lastFailureTime w !! name p) /\
    (primaryProvider w = p ->
     exists w1, (w1 = w \/ w1 = set_tick (S (tick w)) w) /\
                ResilientLLMService.tryPrimary messages options env w =
                (Returned None, w1)) /\
    (forall rest,
     exists w1, (w1 = w \/ w1 = set_tick (S (tick w)) w) /\
                ResilientLLMService.tryFallbacks (p :: rest) messages options env w =
                ResilientLLMService.tryFallbacks rest messages options env w1) /\
    (p = Local ->
     factory_ok w = true ->
     resolve (featureFlags w) = Local ->
     (provider_isAvailable Anthropic env w).1 = Returned true ->
     failures "Anthropic" w < 3 ->
     (forall t msgs request, exists content usage,
         chat env t Anthropic msgs request = ChatOk content usage) ->
     exists response,
       res = Returned response /\
       LLMResponse.provider response = "Anthropic" /\
       generated (new_events w w') = ["Anthropic"]) /\
    (p = Local ->
     factory_ok w = true ->
     resolve (featureFlags w) = Local ->
     (provider_isAvailable OpenAI env w).1 = Returned true ->
     3 <= failures "Anthropic" w ->
     (forall t, clock env t - lastFailure "Anthropic" w <= 60000) ->
     failures "OpenAI" w < 3 ->
     (forall t msgs request, exists content usage,
         chat env t OpenAI msgs request = ChatOk content usage) ->
     exists response,
       res = Returned response /\
       LLMResponse.provider response = "OpenAI" /\
       generated (new_events w w') = ["OpenAI"]).
Proof.
  intros env messages options w p Hun res w'. apply isAvailable_returns in Hun.
  split; [|split; [|split; [|split]]].
  - subst w'.
    destruct (generateResponse_summary messages options env w)
      as (w0 & r & w' & evs & -> & Hrun & Hev & _ & Hff & Hfc & Hlt & _).
    cbn [snd]. rewrite Hev.
    assert (Hblocked : blocked env p w0).
    { right. unfold available in *. rewrite Hff. exact Hun. }
    destruct (Run_blocked _ _ _ _ _ _ _ Hblocked Hrun) as [Hnin Hc].
    unfold circuit_of in Hc. rewrite Hfc, Hlt in Hc. injection Hc as Hc1 Hc2.
    repeat split; assumption.
  - intros <-. apply tryPrimary_unavailable, Hun.
  - intros rest. apply tryFallbacks_unavailable, Hun.
  - intros -> Hok Hres Hav Hlt Hchat. apply isAvailable_returns in Hav.
    destruct (local_disabled_falls_back messages options env w Hok Hres Hun)
      as [Hfirst _].
    apply Hfirst; assumption.
  - intros -> Hok Hres Hav Hge Hhot Hlt Hchat. apply isAvailable_returns in Hav.
    destruct (local_disabled_falls_back messages options env w Hok Hres Hun)
      as [_ Hsecond].
    apply Hsecond; assumption.
Qed.

Lemma C6_witness :
  (provider_isAvailable Local (healthy 5) started).1 = Returned false /\
  failureCount
    (ResilientLLMService.generateResponse hello None (healthy 5) started).2 !! "Local"
  = failureCount started !! "Local" /\
  (exists response,
     (ResilientLLMService.generateResponse hello None (healthy 5) started).1 =
       Returned response /\
     LLMResponse.provider response = "Anthropic") /\
  (exists response,
     (ResilientLLMService.generateResponse hello None (healthy 2000)
        anthropic_tripped).1 = Returned response /\
     LLMResponse.provider response = "OpenAI").
Proof.
  assert (Hun : (provider_isAvailable Local (healthy 5) started).1 = Returned false)
    by reflexivity.
  split; [exact Hun|].
  destruct (C6_unavailable_is_not_a_failure (healthy 5) hello None started Local Hun)
    as ((_ & Hfc & _) & _ & _ & Hfirst & _).
  split; [exact Hfc|]. split.
  - destruct Hfirst as (response & Hres & Hprov & _); try reflexivity.
    + intros t msgs request. eexists _, _. reflexivity.
    + exists response. split; assumption.
  - assert (Hun' : (provider_isAvailable Local (healthy 2000) anthropic_tripped).1
                   = Returned false) by (vm_compute; reflexivity).
    destruct (C6_unavailable_is_not_a_failure (healthy 2000) hello None
                anthropic_tripped Local Hun')
      as (_ & _ & _ & _ & Hsecond).
    destruct (Hsecond eq_refl) as (response & Hres & Hprov & _).
    + vm_compute. reflexivity.
    + vm_compute. reflexivity.
    + vm_compute. reflexivity.
    + vm_compute. discriminate.
    + intros t. vm_compute. discriminate.
    + vm_compute. reflexivity.
    + intros t msgs request. eexists _, _. reflexivity.
    + exists response. split; assumption.
Defined.

(** ** Auto resolution *)

Lemma getProvider_auto_resolves env w :
  factory_ok w = true ->
  (LLMFactory.getProvider auto env w).1 = Returned (resolve (featureFlags w)) /\
  factory_ok (LLMFactory.getProvider auto env w).2 = true /\
  featureFlags (LLMFactory.getProvider auto env w).2 = featureFlags w.
Proof.
  intros Hok. destruct (getProvider_auto_run env w) as (p & m & -> & H).
  destruct (H Hok) as (-> & Hok'). repeat split. exact Hok'.
Qed.

(** C5. [auto] follows the priority list, first match first: strict local
    mode on gives the local provider whatever the other flags; otherwise the
    local-model flag on gives the local provider; otherwise Anthropic. The
    answer is computed from the flags as they are at the request: after an
    [auto] request, whatever the flags are changed to, the next [auto]
    request follows the new flags. *)
Theorem C5_auto_resolution_priority :
  forall (env : Env) (w : World),
    factory_ok w = true ->
    let strict := FeatureFlagService.isEnabled (featureFlags w) STRICT_LOCAL_MODE in
    let localModel := FeatureFlagService.isEnabled (featureFlags w) LOCAL_LLM in
    (LLMFactory.getProvider auto env w).1 =
      Returned (if strict then Local else if localModel then Local else Anthropic) /\
    (forall flags' : FeatureFlagService.t,
       let w1 := set_featureFlags flags' (LLMFactory.getProvider auto env w).2 in
       (LLMFactory.getProvider auto env w1).1 =
         Returned (if FeatureFlagService.isEnabled flags' STRICT_LOCAL_MODE then Local
                   else if FeatureFlagService.isEnabled flags' LOCAL_LLM then Local
                   else Anthropic)).
Proof.
  intros env w Hok strict localModel.
  destruct (getProvider_auto_resolves env w Hok) as (Hres & Hok' & _).
  split; [exact Hres|].
  intros flags' w1.
  apply (getProvider_auto_resolves env w1). exact Hok'.
Qed.

Lemma C5_witness :
  factory_ok started = true /\
  (LLMFactory.getProvider auto (healthy 0) started).1 = Returned Local /\
  (LLMFactory.getProvider auto (healthy 0)
     (set_featureFlags
        (FeatureFlagService.setFlagOverride STRICT_LOCAL_MODE false (featureFlags started))
        (LLMFactory.getProvider auto (healthy 0) started).2)).1 = Returned Anthropic.
Proof.
  split; [reflexivity|].
  destruct (C5_auto_resolution_priority (healthy 0) started eq_refl) as [Hnow Hnext].
  split; [exact Hnow|].
  apply (Hnext (FeatureFlagService.setFlagOverride STRICT_LOCAL_MODE false
                  (featureFlags started))).
Defined.

(** ** Simulated streaming *)

Lemma string_app_assoc (a b c : string) : (a +:+ b) +:+ c = a +:+ (b +:+ c).
Proof.
  induction a as [|x a IH]; [reflexivity|].
  change (String x ((a +:+ b) +:+ c) = String x (a +:+ (b +:+ c))).
  rewrite IH. reflexivity.
Qed.

Lemma string_length_app (a b : string) :
  String.length (a +:+ b) = (String.length a + String.length b)%nat.
Proof.
  induction a as [|x a IH]; [reflexivity|].
  change (S (String.length (a +:+ b)) = S (String.length a + String.length b)).
  rewrite IH. reflexivity.
Qed.

Lemma tokenLoop_run delay words i accumulated env w :
  tokenLoop delay i accumulated words env w =
  (Returned tt,
   foldl (fun w e => push e w) w (token_events delay (snapshots i accumulated words))).
Proof.
  revert i accumulated w. induction words as [|word rest IH]; intros i accumulated w.
  - reflexivity.
  - cbn [tokenLoop]. unfold_methods. rewrite IH. reflexivity.
Qed.

Lemma callbacks_app evs evs' : callbacks (evs ++ evs') = callbacks evs ++ callbacks evs'.
Proof. apply List.filter_app. Qed.

Lemma callbacks_token_events delay toks :
  callbacks (token_events delay toks) = OnToken <$> toks.
Proof. induction toks as [|tok toks IH]; cbn; [reflexivity|]. rewrite <- IH. reflexivity. Qed.

Lemma snapshots_length i accumulated words :
  length (snapshots i accumulated words) = length words.
Proof.
  revert i accumulated. induction words as [|word rest IH]; intros; cbn; [reflexivity|].
  rewrite IH. reflexivity.
Qed.

Lemma join_snoc (pre : list string) (word : string) :
  pre <> [] ->
  String.concat " " (pre ++ [word]) = String.concat " " pre +:+ " " +:+ word.
Proof.
  induction pre as [|x pre IH]; intros Hne; [congruence|].
  destruct pre as [|y pre].
  - reflexivity.
  - change (String.concat " " ((x :: y :: pre) ++ [word]))
      with (x +:+ " " +:+ String.concat " " ((y :: pre) ++ [word])).
    rewrite IH by discriminate.
    change (String.concat " " (x :: y :: pre))
      with (x +:+ " " +:+ String.concat " " (y :: pre)).
    rewrite !string_app_assoc. reflexivity.
Qed.

(** Each snapshot is the full text so far: the words read so far joined by
    single spaces. *)
Lemma snapshots_lookup words pre k tok :
  snapshots (length pre) (String.concat " " pre) words !! k = Some tok ->
  tok = String.concat " " (pre ++ take (S k) words).
Proof.
  revert pre k. induction words as [|word rest IH]; intros pre k Hk; [discriminate Hk|].
  assert (Hacc : String.concat " " pre
                 +:+ (match length pre with O => "" | S _ => " " end) +:+ word
                 = String.concat " " (pre ++ [word])).
  { destruct pre as [|x pre]; [reflexivity|].
    rewrite join_snoc by discriminate. reflexivity. }
  cbn [snapshots] in Hk. rewrite Hacc in Hk.
  destruct k as [|k].
  - injection Hk as <-. reflexivity.
  - cbn [lookup list_lookup] in Hk.
    replace (S (length pre)) with (length (pre ++ [word])) in Hk
      by (rewrite length_app; cbn; lia).
    apply IH in Hk. rewrite Hk, <- app_assoc. reflexivity.
Qed.

Lemma snapshots_longer words i accumulated tok :
  In tok (snapshots (S i) accumulated words) ->
  (String.length accumulated < String.length tok)%nat.
Proof.
  revert i accumulated. induction words as [|word rest IH]; intros i accumulated Hin;
    [destruct Hin|].
  cbn [snapshots] in Hin.
  assert (Hlen : (String.length accumulated
                  < String.length (accumulated +:+ " " +:+ word))%nat)
    by (rewrite !string_length_app; cbn; lia).
  destruct Hin as [<-|Hin]; [exact Hlen|].
  apply IH in Hin. lia.
Qed.

(** The text only grows. *)
Lemma snapshots_increasing words i accumulated j k a b :
  (j < k)%nat ->
  snapshots i accumulated words !! j = Some a ->
  snapshots i accumulated words !! k = Some b ->
  (String.length a < String.length b)%nat.
Proof.
  revert i accumulated j k. induction words as [|word rest IH];
    intros i accumulated j k Hjk Ha Hb; [discriminate Ha|].
  cbn [snapshots] in Ha, Hb.
  destruct k as [|k]; [lia|]. cbn [lookup list_lookup] in Hb.
  destruct j as [|j].
  - injection Ha as <-. apply (snapshots_longer rest i).
    apply list_elem_of_In, list_elem_of_lookup. exists k. exact Hb.
  - cbn [lookup list_lookup] in Ha. eapply IH; [|exact Ha|exact Hb]. lia.
Qed.

Lemma split_nonempty sep s : Js.split sep s <> [].
Proof.
  destruct s as [|c s]; cbn; [discriminate|].
  destruct (Ascii.eqb c sep); [discriminate|].
  destruct (Js.split sep s); discriminate.
Qed.

(** Joining the words of a text gives the text back. *)
Lemma join_split s : String.concat " " (Js.split " " s) = s.
Proof.
  induction s as [|c s IH]; [reflexivity|].
  cbn [Js.split]. destruct (Ascii.eqb_spec c " ") as [->|Hc].
  - pose proof (split_nonempty " " s) as Hne.
    destruct (Js.split " " s) as [|w ws]; [congruence|].
    change (String.concat " " ("" :: w :: ws))
      with ("" +:+ " " +:+ String.concat " " (w :: ws)).
    rewrite IH. reflexivity.
  - pose proof (split_nonempty " " s) as Hne.
    destruct (Js.split " " s) as [|w ws]; [congruence|].
    destruct ws as [|w' ws].
    + cbn in IH |- *. rewrite IH. reflexivity.
    + change (String.concat " " (String c w :: w' :: ws))
        with (String c (w +:+ " " +:+ String.concat " " (w' :: ws))).
      change (String.concat " " (w :: w' :: ws))
        with (w +:+ " " +:+ String.concat " " (w' :: ws)) in IH.
      rewrite IH. reflexivity.
Qed.

Lemma snapshots_last words :
  words <> [] ->
  last (snapshots 0 "" words) = Some (String.concat " " words).
Proof.
  intros Hne. rewrite last_lookup, snapshots_length.
  destruct (snapshots 0 "" words !! Init.Nat.pred (length words)) as [tok|] eqn:Hk.
  - apply (snapshots_lookup words [] _ tok) in Hk. rewrite Hk. cbn [app].
    f_equal. f_equal. apply firstn_all2.
    destruct words; [congruence|]. cbn. lia.
  - apply lookup_ge_None in Hk. rewrite snapshots_length in Hk.
    destruct words; [congruence|]. cbn in Hk. lia.
Qed.

(** With callbacks that return, a provider's [streamResponse] returns. Its
    callbacks are the snapshots of the answer's words followed by
    [onComplete], or [onError] alone when its [generateResponse] throws. *)
Lemma simulateStream_post p generate delay fallbackMessage messages options env w :
  (forall w0, exists evs,
      generate_post p w0 (generate messages (Some options) env w0).1
                    (generate messages (Some options) env w0).2 evs) ->
  exists w' evs toks terminal,
    simulateStream generate delay fallbackMessage messages options env w
      = (Returned tt, w') /\
    trace w' = trace w ++ evs /\ frame w w' /\ circuit_same w w' /\
    generated evs = [name p] /\
    callbacks evs = (OnToken <$> toks) ++ [terminal] /\
    match (generate messages (Some options) env (set_tick (S (tick w)) w)).1 with
    | Returned response =>
        toks = snapshots 0 "" (Js.split " " (LLMResponse.content response)) /\
        exists ms, terminal = OnComplete (LLMResponse.with_processingTime response ms)
    | Thrown error =>
        toks = [] /\ terminal = OnError (Js.as_error error fallbackMessage)
    end.
Proof.
  intros Hgen. unfold simulateStream.
  rewrite run_bind. unfold Date_now at 1. cbn [read].
  rewrite run_try_catch, run_bind.
  set (w1 := set_tick (S (tick w)) w).
  destruct (Hgen w1) as (evs & Hpost).
  destruct (generate messages (Some options) env w1) as [[response|error] w2];
    cbn [fst snd] in Hpost |- *;
    destruct Hpost as [Htr Hg Hcb (Hf1&Hf2&Hf3&Hf4) (Hc1&Hc2) _ _ _];
    subst w1; world_fields.
  - rewrite run_bind, tokenLoop_run. unfold_methods.
    set (toks := snapshots 0 "" (Js.split " " (LLMResponse.content response))).
    eexists _, (evs ++ token_events delay toks ++ [_]), toks, _.
    split; [reflexivity|].
    pose proof (trace_pushes (token_events delay toks) w2) as Htr2.
    pose proof (frame_pushes (token_events delay toks) w2) as (Hf5&Hf6&Hf7&Hf8).
    pose proof (circuit_pushes (token_events delay toks) w2) as (Hc3&Hc4).
    split; [|split; [|split; [|split; [|split]]]].
    + world_fields. rewrite Htr2, Htr. world_fields. rewrite <- !app_assoc. reflexivity.
    + unfold frame. world_fields. repeat split; congruence.
    + unfold circuit_same. world_fields. split; congruence.
    + rewrite generated_app, Hg.
      assert (Hnone : forall l, generated (token_events delay l) = [])
        by (induction l; cbn; auto).
      rewrite generated_app, Hnone. reflexivity.
    + rewrite !callbacks_app, Hcb, callbacks_token_events. reflexivity.
    + split; [reflexivity|]. eexists. reflexivity.
  - unfold_methods.
    eexists _, (evs ++ [_]), [], _. split; [reflexivity|].
    split; [|split; [|split; [|split; [|split]]]].
    + world_fields. rewrite Htr. world_fields. rewrite <- app_assoc. reflexivity.
    + unfold frame. world_fields. repeat split; congruence.
    + unfold circuit_same. world_fields. split; congruence.
    + rewrite generated_app, Hg. reflexivity.
    + rewrite callbacks_app, Hcb. reflexivity.
    + split; reflexivity.
Qed.

Lemma provider_streamResponse_post p messages options env w :
  exists w' evs toks terminal,
    provider_streamResponse p messages options env w = (Returned tt, w') /\
    trace w' = trace w ++ evs /\ frame w w' /\ circuit_same w w' /\
    generated evs = [name p] /\
    callbacks evs = (OnToken <$> toks) ++ [terminal] /\
    match (provider_generateResponse p messages (Some options) env
             (set_tick (S (tick w)) w)).1 with
    | Returned response =>
        toks = snapshots 0 "" (Js.split " " (LLMResponse.content response)) /\
        exists ms, terminal = OnComplete (LLMResponse.with_processingTime response ms)
    | Thrown error =>
        toks = [] /\
        terminal = OnError (Js.as_error error
                              (match p with Local => "Local LLM error"
                                          | _ => "Unknown error" end))
    end.
Proof.
  destruct p; cbn [provider_streamResponse provider_generateResponse].
  - apply (simulateStream_post OpenAI). intros w0. apply remoteGenerate_post.
  - apply (simulateStream_post Anthropic). intros w0. apply remoteGenerate_post.
  - apply (simulateStream_post Local). intros w0. apply localGenerate_post.
Qed.

(** With callbacks that return, one call to a provider's [streamResponse]
    returns, and the callbacks it fires are the tokens followed by exactly
    one terminal callback. *)
Lemma provider_stream_order p env messages options w :
  let w' := (provider_streamResponse p messages options env w).2 in
  (provider_streamResponse p messages options env w).1 = Returned tt /\
  exists (toks : list string) (terminal : Event),
    callbacks (new_events w w') = (OnToken <$> toks) ++ [terminal] /\
    (forall j k a b, (j < k)%nat -> toks !! j = Some a -> toks !! k = Some b ->
                     (String.length a < String.length b)%nat) /\
    match terminal with
    | OnComplete response =>
        let words := Js.split " " (LLMResponse.content response) in
        length toks = length words /\
        (forall k tok, toks !! k = Some tok ->
                       tok = String.concat " " (take (S k) words)) /\
        last toks = Some (LLMResponse.content response)
    | OnError _ => toks = []
    | _ => False
    end.
Proof.
  intros w'. subst w'.
  destruct (provider_streamResponse_post p messages options env w)
    as (w' & evs & toks & terminal & -> & Htr & _ & _ & _ & Hcb & Hcase).
  cbn [fst snd]. split; [reflexivity|]. exists toks, terminal.
  rewrite (new_events_app _ _ _ Htr). split; [exact Hcb|].
  destruct (provider_generateResponse p messages (Some options) env _).1
    as [response|error].
  - destruct Hcase as (-> & ms & ->). split.
    + intros j k a b. apply snapshots_increasing.
    + cbn. repeat split.
      * apply snapshots_length.
      * intros k tok Hk. apply (snapshots_lookup _ [] k tok Hk).
      * rewrite snapshots_last by apply split_nonempty.
        rewrite join_split. reflexivity.
  - destruct Hcase as (-> & ->). split; [|reflexivity].
    intros j k a b _ Ha. discriminate Ha.
Qed.

(** ** The caller's callbacks *)

Lemma call_run e reaction env w :
  Streaming.call e reaction env w =
  (match reaction (trace w) with
   | Some thrown => Thrown thrown
   | None => Returned tt
   end, push e w).
Proof.
  unfold Streaming.call. unfold_methods. cbn.
  destruct (reaction (trace w)); reflexivity.
Qed.

(** On callbacks that return, the methods of [Streaming] are the methods
    outside it. *)
Lemma tokenLoop_returning caller delay words i accumulated env w :
  returns_normally caller ->
  Streaming.tokenLoop caller delay i accumulated words env w =
  tokenLoop delay i accumulated words env w.
Proof.
  intros (Htok & _). revert i accumulated w.
  induction words as [|word rest IH]; intros i accumulated w; [reflexivity|].
  cbn [Streaming.tokenLoop tokenLoop]. rewrite !run_bind.
  unfold Streaming.onToken. rewrite call_run, Htok. cbn [emit modify].
  apply IH.
Qed.

Lemma simulateStream_returning generate delay fallbackMessage messages options caller env w :
  returns_normally caller ->
  Streaming.simulateStream generate delay fallbackMessage messages options caller env w =
  simulateStream generate delay fallbackMessage messages options env w.
Proof.
  intros Hret. pose proof Hret as (_ & Hcomplete & Herror).
  unfold Streaming.simulateStream, simulateStream.
  rewrite !run_bind. unfold Date_now at 1 3. cbn [read].
  rewrite !run_try_catch, !run_bind.
  destruct (generate messages (Some options) env _) as [[response|error] w2].
  - rewrite !run_bind, tokenLoop_returning by exact Hret.
    destruct (tokenLoop _ _ _ _ env w2) as [[[]|thrown] w3].
    + rewrite !run_bind. unfold Date_now. cbn [read].
      unfold Streaming.onComplete. rewrite call_run, Hcomplete. reflexivity.
    + unfold Streaming.onError. rewrite call_run, Herror. reflexivity.
  - unfold Streaming.onError. rewrite call_run, Herror. reflexivity.
Qed.

Lemma provider_streamResponse_returning p messages options caller env w :
  returns_normally caller ->
  Streaming.provider_streamResponse p messages options caller env w =
  provider_streamResponse p messages options env w.
Proof.
  intros Hret. destruct p; apply simulateStream_returning; exact Hret.
Qed.

Lemma streamResponse_returning messages options caller env w :
  returns_normally caller ->
  Streaming.streamResponse messages options caller env w =
  ResilientLLMService.streamResponse messages options env w.
Proof.
  intros Hret. pose proof Hret as (_ & Hcomplete & Herror).
  unfold Streaming.streamResponse, ResilientLLMService.streamResponse.
  rewrite !run_bind.
  destruct (ResilientLLMService.initializeProviders env w) as [[[]|thrown] w0];
    [|reflexivity].
  rewrite !run_bind, !run_try_catch, !run_bind. cbn [gets].
  rewrite !run_bind, !provider_isAvailable_run.
  assert (Hfallback :
    forall w1,
      try_catch
        (response <- ResilientLLMService.generateResponse messages (Some options) ;;
         Streaming.onComplete caller response)
        (fun error => Streaming.onError caller (Js.as_error error "All providers failed"))
        env w1 =
      try_catch
        (response <- ResilientLLMService.generateResponse messages (Some options) ;;
         emit (OnComplete response))
        (fun error => emit (OnError (Js.as_error error "All providers failed")))
        env w1).
  { intros w1. rewrite !run_try_catch, !run_bind.
    destruct (ResilientLLMService.generateResponse messages (Some options) env w1)
      as [[response|error] w2].
    - unfold Streaming.onComplete. rewrite call_run, Hcomplete. reflexivity.
    - unfold Streaming.onError. rewrite call_run, Herror. reflexivity. }
  destruct (available (primaryProvider w0) w0); cbn [andb supportsStreaming].
  - rewrite !run_bind, provider_streamResponse_returning by exact Hret.
    destruct (provider_streamResponse (primaryProvider w0) messages options env w0)
      as [[[]|thrown] w1].
    + reflexivity.
    + rewrite !run_bind. unfold console_warn at 1 2. cbn [emit modify].
      rewrite !run_bind. unfold Streaming.onError at 1. rewrite call_run, Herror.
      cbn [ret]. apply Hfallback.
  - cbn [ret]. apply Hfallback.
Qed.

(** With the caller's callbacks, the word loop fires the tokens in order
    up to the first that throws; it returns when none does. *)
Lemma Streaming_tokenLoop_shape caller delay words i accumulated env w :
  exists evs k,
    trace (Streaming.tokenLoop caller delay i accumulated words env w).2 = trace w ++ evs /\
    callbacks evs = OnToken <$> take k (snapshots i accumulated words) /\
    ((Streaming.tokenLoop caller delay i accumulated words env w).1 = Returned tt ->
     take k (snapshots i accumulated words) = snapshots i accumulated words).
Proof.
  revert i accumulated w.
  induction words as [|word rest IH]; intros i accumulated w.
  - exists [], 0%nat. cbn. rewrite app_nil_r. repeat split.
  - cbn [Streaming.tokenLoop snapshots]. rewrite !run_bind.
    unfold Streaming.onToken. rewrite call_run.
    set (accumulated' :=
           accumulated +:+ (match i with O => "" | S _ => " " end) +:+ word).
    destruct (StreamingCallback.onToken caller (trace w) accumulated') as [thrown|].
    + exists [OnToken accumulated'], 1%nat. cbn. repeat split. discriminate.
    + rewrite run_bind. cbn [emit modify].
      destruct (IH (S i) accumulated' (push (Delay delay) (push (OnToken accumulated') w)))
        as (evs & k & Htr & Hcb & Hall).
      exists (OnToken accumulated' :: Delay delay :: evs), (S k).
      split; [rewrite Htr; cbn; rewrite <- !app_assoc; reflexivity|].
      split; [cbn; rewrite <- Hcb; reflexivity|].
      intros Hret. cbn [take]. rewrite (Hall Hret). reflexivity.
Qed.

(** The callbacks of one call to a provider's [streamResponse], whatever
    the caller's callbacks do: the tokens fired, then [onComplete] when
    every token callback returned, then [onError] when the provider or a
    callback threw. The call returns unless [onError] throws. *)
Lemma Streaming_simulateStream_shape p generate delay fallbackMessage
    messages options caller env w :
  (forall w0, exists evs,
      generate_post p w0 (generate messages (Some options) env w0).1
                    (generate messages (Some options) env w0).2 evs) ->
  exists res w' evs k words tail,
    Streaming.simulateStream generate delay fallbackMessage
      messages options caller env w = (res, w') /\
    trace w' = trace w ++ evs /\
    callbacks evs = (OnToken <$> take k (snapshots 0 "" words)) ++ tail /\
    ((exists response,
        words = Js.split " " (LLMResponse.content response) /\
        take k (snapshots 0 "" words) = snapshots 0 "" words /\
        (tail = [OnComplete response] /\ res = Returned tt \/
         exists error, tail = [OnComplete response; OnError error])) \/
     (exists error, tail = [OnError error])) /\
    ((forall fired error, StreamingCallback.onError caller fired error = None) ->
     res = Returned tt).
Proof.
  intros Hgen. unfold Streaming.simulateStream.
  rewrite run_bind. unfold Date_now at 1. cbn [read].
  rewrite run_try_catch, run_bind.
  set (w1 := set_tick (S (tick w)) w).
  destruct (Hgen w1) as (gevs & Hpost).
  destruct (generate messages (Some options) env w1) as [[response|error] w2];
    cbn [fst snd] in Hpost; destruct Hpost as [Htr _ Hcb _ _ _ _ _].
  - rewrite run_bind.
    set (words := Js.split " " (LLMResponse.content response)).
    destruct (Streaming_tokenLoop_shape caller delay words 0 "" env w2)
      as (tevs & k & Htr3 & Hcb3 & Hall).
    destruct (Streaming.tokenLoop caller delay 0 "" words env w2)
      as [[[]|thrown] w3]; cbn [fst snd] in Htr3, Hall.
    + rewrite run_bind. unfold Date_now. cbn [read]. unfold Streaming.onComplete.
      rewrite call_run. cbn [trace set_tick].
      set (done := LLMResponse.with_processingTime response _).
      destruct (StreamingCallback.onComplete caller (trace w3) done) as [thrown|].
      * unfold Streaming.onError. rewrite call_run.
        eexists _, _,
          (gevs ++ tevs ++ [OnComplete done; OnError (Js.as_error thrown fallbackMessage)]),
          k, (Js.split " " (LLMResponse.content done)),
          [OnComplete done; OnError (Js.as_error thrown fallbackMessage)].
        split; [reflexivity|].
        split; [cbn; rewrite Htr3, Htr; subst w1; cbn; rewrite <- !app_assoc; reflexivity|].
        split; [rewrite !callbacks_app, Hcb, Hcb3; reflexivity|].
        split.
        -- left. exists done. split; [reflexivity|]. split; [apply Hall; reflexivity|].
           right. eexists. reflexivity.
        -- intros Herror. rewrite Herror. reflexivity.
      * eexists _, _, (gevs ++ tevs ++ [OnComplete done]), k,
          (Js.split " " (LLMResponse.content done)), [OnComplete done].
        split; [reflexivity|].
        split; [cbn; rewrite Htr3, Htr; subst w1; cbn; rewrite <- !app_assoc; reflexivity|].
        split; [rewrite !callbacks_app, Hcb, Hcb3; reflexivity|].
        split.
        -- left. exists done. split; [reflexivity|]. split; [apply Hall; reflexivity|].
           left. split; reflexivity.
        -- intros _. reflexivity.
    + unfold Streaming.onError. rewrite call_run.
      eexists _, _, (gevs ++ tevs ++ [OnError (Js.as_error thrown fallbackMessage)]),
        k, words, [OnError (Js.as_error thrown fallbackMessage)].
      split; [reflexivity|].
      split; [cbn; rewrite Htr3, Htr; subst w1; cbn; rewrite <- !app_assoc; reflexivity|].
      split; [rewrite !callbacks_app, Hcb, Hcb3; reflexivity|].
      split.
      * right. eexists. reflexivity.
      * intros Herror. rewrite Herror. reflexivity.
  - unfold Streaming.onError. rewrite call_run.
    eexists _, _, (gevs ++ [OnError (Js.as_error error fallbackMessage)]), 0%nat, [],
      [OnError (Js.as_error error fallbackMessage)].
    split; [reflexivity|].
    split; [cbn; rewrite Htr; subst w1; cbn; rewrite <- !app_assoc; reflexivity|].
    split; [rewrite callbacks_app, Hcb; reflexivity|].
    split.
    + right. eexists. reflexivity.
    + intros Herror. rewrite Herror. reflexivity.
Qed.

Lemma Streaming_provider_streamResponse_shape p messages options caller env w :
  exists res w' evs k words tail,
    Streaming.provider_streamResponse p messages options caller env w = (res, w') /\
    trace w' = trace w ++ evs /\
    callbacks evs = (OnToken <$> take k (snapshots 0 "" words)) ++ tail /\
    ((exists response,
        words = Js.split " " (LLMResponse.content response) /\
        take k (snapshots 0 "" words) = snapshots 0 "" words /\
        (tail = [OnComplete response] /\ res = Returned tt \/
         exists error, tail = [OnComplete response; OnError error])) \/
     (exists error, tail = [OnError error])) /\
    ((forall fired error, StreamingCallback.onError caller fired error = None) ->
     res = Returned tt).
Proof.
  destruct p; cbn [Streaming.provider_streamResponse].
  - apply (Streaming_simulateStream_shape OpenAI). intros w0. apply remoteGenerate_post.
  - apply (Streaming_simulateStream_shape Anthropic). intros w0. apply remoteGenerate_post.
  - apply (Streaming_simulateStream_shape Local). intros w0. apply localGenerate_post.
Qed.

(** C7, as stated, fails: a call that runs to completion can fire both
    terminal callbacks. The calls to [onToken] and [onComplete] are inside
    the method's [try] block, so when the caller's [onComplete] throws, the
    [catch] block calls [onError] as well, and the method returns. *)
Lemma C7_counterexample :
  ~ (forall (p : LLMProvider) (caller : StreamingCallback.t) (env : Env)
            (messages : list AIMessage.t) (options : LLMOptions.t) (w : World),
       let run := Streaming.provider_streamResponse p messages options caller env w in
       run.1 = Returned tt ->
       exists (toks : list string) (terminal : Event) (words : list string),
         callbacks (new_events w run.2) = (OnToken <$> toks) ++ [terminal] /\
         ((exists response, terminal = OnComplete response) \/
          (exists error, terminal = OnError error)) /\
         (forall k tok, toks !! k = Some tok ->
                        tok = String.concat " " (take (S k) words)) /\
         (forall j k a b, (j < k)%nat -> toks !! j = Some a -> toks !! k = Some b ->
                          (String.length a <= String.length b)%nat)).
Proof.
  intros H.
  specialize (H OpenAI throwing_onComplete (healthy 0) hello
                (LLMOptions.mk None None None None None) started).
  destruct H as (toks & terminal & words & H & _); [vm_compute; reflexivity|].
  vm_compute in H.
  do 7 (destruct toks as [|? toks]; [discriminate H|]; injection H as _ H).
  destruct toks as [|? toks]; discriminate H.
Qed.

(** C7, amended. The callbacks one call to a provider's [streamResponse]
    fires are token callbacks, then [onComplete] at most once, then
    [onError] at most once. Each token is the full text so far (the first
    words of the answer joined by spaces) and the tokens grow strictly in
    length; [onComplete] comes after the token that is the whole answer.
    The call returns unless [onError] itself throws. When the caller's
    callbacks return, the call returns and exactly one terminal callback
    fires, after the last token: [onComplete], or [onError] with no token
    before it. A callback that throws is caught by the method, which calls
    [onError] on top of the callbacks already made: so [onError] can follow
    tokens, or [onComplete]. *)
Theorem C7_stream_callback_order :
  forall (p : LLMProvider) (caller : StreamingCallback.t) (env : Env)
         (messages : list AIMessage.t) (options : LLMOptions.t) (w : World),
    let run := Streaming.provider_streamResponse p messages options caller env w in
    exists (toks : list string) (tail : list Event) (words : list string),
      callbacks (new_events w run.2) = (OnToken <$> toks) ++ tail /\
      (forall k tok, toks !! k = Some tok ->
                     tok = String.concat " " (take (S k) words)) /\
      (forall j k a b, (j < k)%nat -> toks !! j = Some a -> toks !! k = Some b ->
                       (String.length a < String.length b)%nat) /\
      ((exists response,
          words = Js.split " " (LLMResponse.content response) /\
          length toks = length words /\
          last toks = Some (LLMResponse.content response) /\
          (tail = [OnComplete response] /\ run.1 = Returned tt \/
           exists error, tail = [OnComplete response; OnError error])) \/
       (exists error, tail = [OnError error])) /\
      ((forall fired error, StreamingCallback.onError caller fired error = None) ->
       run.1 = Returned tt) /\
      (returns_normally caller ->
       run.1 = Returned tt /\
       ((exists response, tail = [OnComplete response]) \/
        (exists error, tail = [OnError error] /\ toks = []))).
Proof.
  intros p caller env messages options w run. subst run.
  destruct (Streaming_provider_streamResponse_shape p messages options caller env w)
    as (res & w' & evs & k & words & tail & Hrun & Htr & Hcb & Hshape & Hreturns).
  rewrite Hrun. cbn [fst snd].
  exists (take k (snapshots 0 "" words)), tail, words.
  rewrite (new_events_app _ _ _ Htr).
  split; [exact Hcb|].
  split.
  { intros j tok Hj. apply lookup_take_Some in Hj. destruct Hj as [Hj _].
    apply (snapshots_lookup words [] j tok Hj). }
  split.
  { intros i j a b Hij Ha Hb.
    apply lookup_take_Some in Ha. apply lookup_take_Some in Hb.
    destruct Ha as [Ha _], Hb as [Hb _].
    apply (snapshots_increasing words 0 "" i j a b Hij Ha Hb). }
  split.
  { destruct Hshape as [(response & Hwords & Hall & Htail)|Herr]; [left|right; exact Herr].
    exists response. split; [exact Hwords|]. rewrite Hall.
    split; [apply snapshots_length|].
    split; [|exact Htail].
    rewrite Hwords, snapshots_last by apply split_nonempty.
    rewrite join_split. reflexivity. }
  split; [exact Hreturns|].
  intros Hret.
  rewrite provider_streamResponse_returning in Hrun by exact Hret.
  destruct (provider_stream_order p env messages options w)
    as (Hres & toks & terminal & Hcb' & _ & Hcase).
  rewrite Hrun in Hres, Hcb'. cbn [fst snd] in Hres, Hcb'.
  split; [exact Hres|].
  rewrite (new_events_app _ _ _ Htr), Hcb in Hcb'.
  destruct Hshape as [(response & _ & _ & [(-> & _)|(error & ->)])|(error & ->)].
  - left. eexists. reflexivity.
  - exfalso.
    change [OnComplete response; OnError error]
      with ([OnComplete response] ++ [OnError error]) in Hcb'.
    rewrite app_assoc in Hcb'. apply app_inj_tail in Hcb'. destruct Hcb' as [Hcb' _].
    assert (Hin : In (OnComplete response) (OnToken <$> toks)).
    { rewrite <- Hcb'. apply in_or_app. right. left. reflexivity. }
    apply in_map_iff in Hin. destruct Hin as (tok & Htok & _). discriminate Htok.
  - right. exists error. split; [reflexivity|].
    apply app_inj_tail in Hcb'. destruct Hcb' as [Hcb' <-].
    rewrite Hcase in Hcb'. destruct (take k (snapshots 0 "" words)); [reflexivity|].
    discriminate Hcb'.
Qed.

Lemma C7_witness :
  returns_normally StreamingCallback.returning /\
  (Streaming.provider_streamResponse OpenAI hello
     (LLMOptions.mk None None None None None) StreamingCallback.returning
     (healthy 0) started).1 = Returned tt.
Proof.
  assert (Hret : returns_normally StreamingCallback.returning) by (repeat split).
  split; [exact Hret|].
  destruct (C7_stream_callback_order OpenAI StreamingCallback.returning (healthy 0)
              hello (LLMOptions.mk None None None None None) started)
    as (toks & tail & words & _ & _ & _ & _ & _ & Hreturning).
  destruct (Hreturning Hret) as [Hrun _]. exact Hrun.
Defined.

(** ** Switching the provider *)

Lemma switchProvider_run type env w :
  type <> auto ->
  factory_ok w = true ->
  exists w1,
    ResilientLLMService.switchProvider type env w = (Returned tt, w1) /\
    primaryProvider w1 = class_of type /\
    factory_ok w1 = true /\
    featureFlags w1 = featureFlags w.
Proof.
  intros Hty Hok. unfold ResilientLLMService.switchProvider.
  rewrite run_bind, getProvider_concrete_run by exact Hty.
  destruct (cachedOrNew_run type env w Hty) as (p & m & -> & H).
  destruct (H Hok) as (-> & Hok1).
  eexists. split; [reflexivity|]. repeat split. exact Hok1.
Qed.

Lemma generateResponse_primary messages options env w :
  factory_ok w = true ->
  primaryProvider (ResilientLLMService.generateResponse messages options env w).2
  = resolve (featureFlags w).
Proof.
  intros Hok.
  destruct (generateResponse_summary messages options env w)
    as (w0 & r & w' & evs & -> & _ & _ & _ & _ & _ & _ & Hp & _ & Hinit).
  cbn [snd]. destruct (Hinit Hok) as [Hp0 _]. congruence.
Qed.

(** Streaming through the service re-derives the primary as well. *)
Lemma streamResponse_primary messages options env w :
  factory_ok w = true ->
  primaryProvider (ResilientLLMService.streamResponse messages options env w).2
  = resolve (featureFlags w).
Proof.
  intros Hok. unfold ResilientLLMService.streamResponse. rewrite run_bind.
  destruct (initializeProviders_run env w) as (m & p & fs & -> & Hinit).
  destruct (Hinit Hok) as (-> & -> & Hok0).
  set (w0 := mkWorld _ _ _ _ _ _ _ _).
  rewrite run_bind, run_try_catch, run_bind. cbn [gets].
  rewrite run_bind, provider_isAvailable_run.
  change (primaryProvider w0) with (resolve (featureFlags w)).
  destruct (available (resolve (featureFlags w)) w0); cbn [andb supportsStreaming].
  - rewrite run_bind.
    destruct (provider_streamResponse_post (resolve (featureFlags w)) messages options env w0)
      as (w' & evs & toks & terminal & -> & _ & (_ & _ & Hp & _) & _).
    cbn. exact Hp.
  - cbn [ret]. rewrite run_try_catch, run_bind.
    pose proof (generateResponse_primary messages (Some options) env w0 Hok0) as Hp.
    destruct (ResilientLLMService.generateResponse messages (Some options) env w0)
      as [[response|error] w'] eqn:Hrun; cbn in Hp |- *; exact Hp.
Qed.

(** C8, as stated, fails: the pin does not outlive the next request. After
    switching to OpenAI under the default flags, one [generateResponse] puts
    the primary back to the local provider, and OpenAI is not even called. *)
Lemma C8_counterexample :
  ~ (forall env w type messages options,
       type <> auto -> factory_ok w = true ->
       let w1 := (ResilientLLMService.switchProvider type env w).2 in
       let w2 := (ResilientLLMService.generateResponse messages options env w1).2 in
       (ResilientLLMService.getCurrentProvider env w2).1 = Returned (class_of type)).
Proof.
  intros H.
  specialize (H (healthy 0) started openai hello None ltac:(discriminate) eq_refl).
  vm_compute in H. discriminate H.
Qed.

(** C8, amended. After [switchProvider] with a concrete type the primary is
    the provider of that type, whatever the flags, and [getCurrentProvider]
    returns it. The accessor is reinitialised at the start of the next
    [generateResponse] or [streamResponse], which sets the primary back to
    what [auto] resolves to. *)
Theorem C8_switch_until_next_request :
  forall (env : Env) (w : World) (type : ProviderType),
    type <> auto ->
    factory_ok w = true ->
    let w1 := (ResilientLLMService.switchProvider type env w).2 in
    (ResilientLLMService.switchProvider type env w).1 = Returned tt /\
    primaryProvider w1 = class_of type /\
    (ResilientLLMService.getCurrentProvider env w1).1 = Returned (class_of type) /\
    (forall messages options,
       primaryProvider (ResilientLLMService.generateResponse messages options env w1).2
       = resolve (featureFlags w)) /\
    (forall messages options,
       primaryProvider (ResilientLLMService.streamResponse messages options env w1).2
       = resolve (featureFlags w)).
Proof.
  intros env w type Hty Hok w1. subst w1.
  destruct (switchProvider_run type env w Hty Hok) as (w1 & -> & Hp & Hok1 & Hff).
  cbn [fst snd]. split; [reflexivity|]. split; [exact Hp|].
  split; [cbn; rewrite Hp; reflexivity|]. split.
  - intros messages options. rewrite <- Hff. apply generateResponse_primary, Hok1.
  - intros messages options. rewrite <- Hff. apply streamResponse_primary, Hok1.
Qed.

Lemma C8_witness :
  openai <> auto /\ factory_ok started = true /\
  primaryProvider (ResilientLLMService.switchProvider openai (healthy 0) started).2
    = OpenAI /\
  primaryProvider
    (ResilientLLMService.generateResponse hello None (healthy 0)
       (ResilientLLMService.switchProvider openai (healthy 0) started).2).2
    = Local.
Proof.
  assert (Hty : openai <> auto) by discriminate.
  split; [exact Hty|]. split; [reflexivity|].
  destruct (C8_switch_until_next_request (healthy 0) started openai Hty eq_refl)
    as (_ & Hp & _ & Hgen & _).
  split; [exact Hp|]. apply (Hgen hello None).
Defined.

(** ** Streaming through the service *)

(** With the primary available, the service streams from it and returns:
    whatever the primary's stream did, no other provider is called. *)
Lemma streamResponse_primary_only messages options env w :
  factory_ok w = true ->
  (provider_isAvailable (resolve (featureFlags w)) env w).1 = Returned true ->
  exists w' terminal toks,
    ResilientLLMService.streamResponse messages options env w = (Returned tt, w') /\
    generated (new_events w w') = [name (resolve (featureFlags w))] /\
    callbacks (new_events w w') = (OnToken <$> toks) ++ [terminal] /\
    (toks = [] -> exists error, terminal = OnError error).
Proof.
  intros Hok Hav. apply isAvailable_returns in Hav.
  unfold ResilientLLMService.streamResponse. rewrite run_bind.
  destruct (initializeProviders_run env w) as (m & p & fs & -> & Hinit).
  destruct (Hinit Hok) as (-> & -> & Hok0).
  set (w0 := mkWorld _ _ _ _ _ _ _ _).
  rewrite run_bind, run_try_catch, run_bind. cbn [gets].
  rewrite run_bind, provider_isAvailable_run.
  change (primaryProvider w0) with (resolve (featureFlags w)).
  change (available (resolve (featureFlags w)) w0)
    with (available (resolve (featureFlags w)) w).
  rewrite Hav. cbn [andb supportsStreaming]. rewrite run_bind.
  destruct (provider_streamResponse_post (resolve (featureFlags w)) messages options env w0)
    as (w' & evs & toks & terminal & -> & Htr & _ & _ & Hgen & Hcb & Hcase).
  exists w', terminal, toks. split; [reflexivity|].
  assert (Hev : new_events w w' = evs) by (apply new_events_app; exact Htr).
  rewrite Hev. repeat split; try assumption.
  intros ->.
  destruct (provider_generateResponse _ _ _ _ _).1 as [response|error].
  - destruct Hcase as (Htoks & _). symmetry in Htoks.
    apply (f_equal (@length string)) in Htoks. rewrite snapshots_length in Htoks.
    pose proof (split_nonempty " " (LLMResponse.content response)) as Hne.
    destruct (Js.split " " (LLMResponse.content response)); [congruence|discriminate].
  - destruct Hcase as (_ & ->). eexists. reflexivity.
Qed.

(** C3 on the code. Whenever the primary is available, the service's
    [streamResponse] calls the primary and no other provider, and returns.
    So with Anthropic as primary and its backend down, it fires [onError] and
    stops there: the fallback dispatch is not run, OpenAI is not called and
    [onComplete] never fires, although a [generateResponse] in the same state
    returns OpenAI's answer. *)
Theorem C3_stream_failure_does_not_fall_back :
  (forall (env : Env) (messages : list AIMessage.t) (options : LLMOptions.t)
          (w : World),
     factory_ok w = true ->
     (provider_isAvailable (resolve (featureFlags w)) env w).1 = Returned true ->
     (ResilientLLMService.streamResponse messages options env w).1 = Returned tt /\
     generated (new_events w (ResilientLLMService.streamResponse messages options env w).2)
       = [name (resolve (featureFlags w))]) /\
  let options := LLMOptions.mk (Some 1024) (Some 0.7%float) None None None in
  let w' := (ResilientLLMService.streamResponse hello options
               (anthropic_down 1000) remote_mode).2 in
  callbacks (new_events remote_mode w')
    = [OnError (Js.Error "Network request failed")] /\
  generated (new_events remote_mode w') = ["Anthropic"] /\
  exists response,
    (ResilientLLMService.generateResponse hello (Some options)
       (anthropic_down 1000) remote_mode).1 = Returned response /\
    LLMResponse.provider response = "OpenAI".
Proof.
  split.
  - intros env messages options w Hok Hav.
    destruct (streamResponse_primary_only messages options env w Hok Hav)
      as (w' & terminal & toks & -> & Hgen & _). split; [reflexivity|exact Hgen].
  - cbn zeta. split; [vm_compute; reflexivity|]. split; [vm_compute; reflexivity|].
    eexists. split; [vm_compute; reflexivity|]. reflexivity.
Qed.

(** ** Defaults of the generation options *)

(** C9 on the code: the defaults are applied with [||], so an explicit
    temperature of 0 is replaced by 0.7 in the request sent to the backend
    (and an explicit [maxTokens] of 0 by 1024). *)
Theorem C9_zero_temperature_is_overridden :
  let options := LLMOptions.mk (Some 256) (Some 0%float) None None None in
  chatOptions "gpt-4o" (Some options) = ChatOptions.mk "gpt-4o" 0.7%float 256 /\
  generated (new_events remote_mode
    (OpenAIProvider.generateResponse hello (Some options) (healthy 0) remote_mode).2)
    = ["OpenAI"] /\
  In (ChatRequest "OpenAI" hello (ChatOptions.mk "gpt-4o" 0.7%float 256))
     (new_events remote_mode
        (OpenAIProvider.generateResponse hello (Some options) (healthy 0) remote_mode).2) /\
  In (ChatRequest "Anthropic" hello
        (ChatOptions.mk "claude-3-5-sonnet-20240620" 0.7%float 256))
     (new_events remote_mode
        (AnthropicProvider.generateResponse hello (Some options) (healthy 0)
           remote_mode).2).
Proof.
  cbn zeta. split; [vm_compute; reflexivity|]. split; [vm_compute; reflexivity|].
  split; vm_compute; right; left; reflexivity.
Qed.

(** Where C9 holds: an absent field takes the default, and a supplied value
    that is truthy is passed through. *)
Lemma chatOptions_defaults defaultModel options :
  (field LLMOptions.temperature options = None ->
   ChatOptions.temperature (chatOptions defaultModel options) = 0.7%float) /\
  (field LLMOptions.maxTokens options = None ->
   ChatOptions.maxTokens (chatOptions defaultModel options) = 1024) /\
  (forall t, field LLMOptions.temperature options = Some t -> Js.float_truthy t = true ->
             ChatOptions.temperature (chatOptions defaultModel options) = t) /\
  (forall n, field LLMOptions.maxTokens options = Some n -> n <> 0 ->
             ChatOptions.maxTokens (chatOptions defaultModel options) = n).
Proof.
  unfold chatOptions. cbn. repeat split.
  - intros ->. reflexivity.
  - intros ->. reflexivity.
  - intros t -> Ht. cbn. rewrite Ht. reflexivity.
  - intros n -> Hn. cbn. destruct (Z.eqb_spec n 0); congruence.
Qed.

(** * Further properties of the services *)

(** ** The factory's cache *)

Lemma factory_ok_providers w w' :
  providers w' = providers w -> factory_ok w' = factory_ok w.
Proof. intros H. unfold factory_ok. rewrite H. reflexivity. Qed.

Lemma ProviderType_eq_auto (type : ProviderType) : type = auto \/ type <> auto.
Proof. destruct type; [right|right|right|left]; congruence. Qed.

(** ** One object per type *)

Lemma construct_ok class type s :
  objects_ok s ->
  LLMFactoryObjects.providers s !! type_key type = None ->
  objects_ok (LLMFactoryObjects.construct class type s).2.
Proof.
  intros (Hmade & Hone) Hnone. unfold LLMFactoryObjects.construct, objects_ok.
  cbn [LLMFactoryObjects.providers LLMFactoryObjects.created snd]. split.
  - intros k i. destruct (decide (k = type_key type)) as [->|Hk].
    + rewrite lookup_insert_eq. intros [= <-]. cbn. lia.
    + rewrite lookup_insert_ne by congruence. intros Hi. apply Hmade in Hi. lia.
  - intros k k' i i'.
    destruct (decide (k = type_key type)) as [->|Hk];
      destruct (decide (k' = type_key type)) as [->|Hk'];
      rewrite ?lookup_insert_eq, ?lookup_insert_ne by congruence.
    + reflexivity.
    + intros [= <-] Hi' Heq. apply Hmade in Hi'. cbn in Heq. lia.
    + intros Hi [= <-] Heq. apply Hmade in Hi. cbn in Heq. lia.
    + apply Hone.
Qed.

Lemma cachedOrNew_objects type s :
  type <> auto ->
  objects_ok s ->
  exists i s',
    LLMFactoryObjects.cachedOrNew type s = (Returned i, s') /\
    objects_ok s' /\
    LLMFactoryObjects.providers s' !! type_key type = Some i /\
    Instance.class i = match LLMFactoryObjects.providers s !! type_key type with
                       | Some cached => Instance.class cached
                       | None => class_of type
                       end /\
    (forall cached, LLMFactoryObjects.providers s !! type_key type = Some cached ->
                    i = cached /\ s' = s) /\
    (LLMFactoryObjects.providers s !! type_key type = None ->
     Instance.object i = LLMFactoryObjects.created s /\
     LLMFactoryObjects.created s' = S (LLMFactoryObjects.created s)) /\
    (forall k, k <> type_key type ->
               LLMFactoryObjects.providers s' !! k = LLMFactoryObjects.providers s !! k) /\
    classes s' = match LLMFactoryObjects.providers s !! type_key type with
                 | Some _ => classes s
                 | None => <[type_key type := class_of type]> (classes s)
                 end.
Proof.
  intros Hty Hok. unfold LLMFactoryObjects.cachedOrNew.
  destruct (LLMFactoryObjects.providers s !! type_key type) as [cached|] eqn:Hc.
  - exists cached, s. split; [reflexivity|]. split; [exact Hok|].
    split; [exact Hc|]. split; [reflexivity|].
    split; [intros c [= <-]; split; reflexivity|].
    split; [discriminate|]. split; reflexivity.
  - assert (Hnew : forall class,
               objects_ok (LLMFactoryObjects.construct class type s).2)
      by (intros class; apply construct_ok; assumption).
    destruct type; [| | |congruence];
      (eexists _, _; split; [reflexivity|]; split; [apply Hnew|]; cbn;
       split; [apply lookup_insert_eq|]; split; [reflexivity|];
       split; [discriminate|]; split; [intros _; split; reflexivity|];
       split; [intros k Hk; apply lookup_insert_ne; congruence|];
       unfold classes; cbn; apply fmap_insert).
Qed.

(** X1. The factory hands out one object per type. [getProvider] never
    throws. The first request for a concrete type creates an object of the
    type's class and caches it under the type's key; every later request
    for that type returns that very object and creates nothing; requests
    for two different types return two different objects. ['auto'] returns
    the object of the type the flags select. Forgetting which object an
    instance is gives the factory of the main embedding: same class
    returned, same classes cached. *)
Theorem X1_one_object_per_type :
  forall (flags : FeatureFlagService.t) (type : ProviderType) (s : LLMFactoryObjects.t),
    objects_ok s ->
    exists (i : Instance.t) (s' : LLMFactoryObjects.t),
      LLMFactoryObjects.getProvider flags type s = (Returned i, s') /\
      objects_ok s' /\
      LLMFactoryObjects.getProvider flags type s' = (Returned i, s') /\
      (forall cached, type <> auto ->
         LLMFactoryObjects.providers s !! type_key type = Some cached ->
         i = cached /\ s' = s) /\
      (type <> auto ->
       LLMFactoryObjects.providers s !! type_key type = None ->
       Instance.class i = class_of type /\
       Instance.object i = LLMFactoryObjects.created s /\
       LLMFactoryObjects.created s' = S (LLMFactoryObjects.created s) /\
       LLMFactoryObjects.providers s' = <[type_key type := i]> (LLMFactoryObjects.providers s)) /\
      (forall type' i' s'',
         type <> auto -> type' <> auto -> type' <> type ->
         LLMFactoryObjects.getProvider flags type' s' = (Returned i', s'') ->
         Instance.object i' <> Instance.object i) /\
      (type = auto ->
       LLMFactoryObjects.getProvider flags
         (match resolve flags with Local => local | _ => anthropic end) s
       = (Returned i, s')) /\
      (forall env w,
         providers w = classes s -> featureFlags w = flags ->
         exists w',
           LLMFactory.getProvider type env w = (Returned (Instance.class i), w') /\
           providers w' = classes s').
Proof.
  intros flags type s Hok.
  assert (Hconcrete : forall t s0, t <> auto ->
            LLMFactoryObjects.getProvider flags t s0 = LLMFactoryObjects.cachedOrNew t s0)
    by (intros [] s0 Ht; try reflexivity; congruence).
  assert (Hauto : forall s0,
            LLMFactoryObjects.getProvider flags auto s0
            = LLMFactoryObjects.cachedOrNew
                (match resolve flags with Local => local | _ => anthropic end) s0).
  { intros s0. cbn. unfold LLMFactoryObjects.getOptimalProvider, resolve.
    destruct (FeatureFlagService.isEnabled flags STRICT_LOCAL_MODE); [reflexivity|].
    destruct (FeatureFlagService.isEnabled flags LOCAL_LLM); reflexivity. }
  set (chosen := match type with
                 | auto => match resolve flags with Local => local | _ => anthropic end
                 | _ => type
                 end).
  assert (Hchosen : chosen <> auto)
    by (subst chosen; destruct type; try discriminate; destruct (resolve flags); discriminate).
  assert (Hrun : forall s0, LLMFactoryObjects.getProvider flags type s0
                            = LLMFactoryObjects.cachedOrNew chosen s0).
  { intros s0. subst chosen. destruct type; try (apply Hconcrete; discriminate).
    apply Hauto. }
  assert (Hsame : type <> auto -> chosen = type)
    by (subst chosen; destruct type; congruence).
  destruct (cachedOrNew_objects chosen s Hchosen Hok)
    as (i & s' & Hcall & Hok' & Hstored & Hclass & Hhit & Hmiss & Hothers & Hclasses).
  exists i, s'. rewrite !Hrun.
  split; [exact Hcall|]. split; [exact Hok'|]. split.
  { destruct (cachedOrNew_objects chosen s' Hchosen Hok')
      as (i2 & s2 & Hcall2 & _ & _ & _ & Hhit2 & _).
    destruct (Hhit2 i Hstored) as (-> & ->). exact Hcall2. }
  split.
  { intros cached Hty Hc. rewrite (Hsame Hty) in Hhit. apply Hhit, Hc. }
  split.
  { intros Hty Hnone. rewrite (Hsame Hty) in Hclass, Hmiss, Hothers, Hstored.
    rewrite Hnone in Hclass. destruct (Hmiss Hnone) as (Hobj & Hcreated).
    split; [exact Hclass|]. split; [exact Hobj|]. split; [exact Hcreated|].
    apply map_eq. intros k. destruct (decide (k = type_key type)) as [->|Hk].
    - rewrite lookup_insert_eq. exact Hstored.
    - rewrite lookup_insert_ne by congruence. apply Hothers, Hk. }
  split.
  { intros type' i' s'' Hty Hty' Hne Hcall'.
    rewrite (Hconcrete type' s' Hty') in Hcall'.
    destruct (cachedOrNew_objects type' s' Hty' Hok')
      as (j & s3 & Hcall3 & (_ & Hone) & Hstored3 & _ & _ & _ & Hothers3 & _).
    rewrite Hcall3 in Hcall'. injection Hcall' as <- <-.
    intros Heq. rewrite (Hsame Hty) in Hstored.
    assert (Hkeys : type_key type <> type_key type')
      by (intros Hk; apply type_key_inj in Hk; congruence).
    rewrite <- (Hothers3 (type_key type) Hkeys) in Hstored.
    apply Hkeys. symmetry. exact (Hone _ _ _ _ Hstored3 Hstored Heq). }
  split.
  { intros ->. rewrite <- Hcall. apply Hconcrete.
    destruct (resolve flags); discriminate. }
  intros env w Hw Hflags.
  assert (Hmain : exists w',
            LLMFactory.cachedOrNew chosen env w = (Returned (Instance.class i), w') /\
            providers w' = classes s').
  { unfold LLMFactory.cachedOrNew. unfold_methods. cbn. rewrite Hw. unfold classes at 1.
    rewrite lookup_fmap.
    destruct (LLMFactoryObjects.providers s !! type_key chosen) as [cached|] eqn:Hc; cbn.
    - destruct (Hhit cached eq_refl) as (-> & ->).
      eexists. split; [reflexivity|exact Hw].
    - rewrite Hclass, Hclasses.
      destruct chosen; [| | |congruence]; cbn; eexists; (split; [reflexivity|]);
        cbn; rewrite Hw; reflexivity. }
  destruct Hmain as (w' & Hmain & Hw').
  exists w'. split; [|exact Hw'].
  rewrite <- Hmain. subst chosen. destruct type; try reflexivity.
  cbn [LLMFactory.getProvider]. unfold LLMFactory.getOptimalProvider. rewrite run_bind.
  unfold isEnabled at 1. cbn [gets]. rewrite Hflags. unfold resolve.
  destruct (FeatureFlagService.isEnabled flags STRICT_LOCAL_MODE); [reflexivity|].
  rewrite run_bind. unfold isEnabled at 1. cbn [gets]. rewrite Hflags.
  destruct (FeatureFlagService.isEnabled flags LOCAL_LLM); reflexivity.
Qed.

Lemma X1_witness :
  objects_ok no_objects /\
  exists i s',
    LLMFactoryObjects.getProvider (FeatureFlagService.new false) openai no_objects
      = (Returned i, s') /\
    LLMFactoryObjects.getProvider (FeatureFlagService.new false) openai s'
      = (Returned i, s').
Proof.
  assert (Hok : objects_ok no_objects).
  { split; intros k; intros; exfalso;
      match goal with H : LLMFactoryObjects.providers no_objects !! _ = Some _ |- _ =>
        cbn in H; rewrite lookup_empty in H; discriminate H end. }
  split; [exact Hok|].
  destruct (X1_one_object_per_type (FeatureFlagService.new false) openai no_objects Hok)
    as (i & s' & Hfirst & _ & Hagain & _).
  exists i, s'. split; assumption.
Defined.

(** ** The factory's invariant along the service's methods *)

Lemma generateResponse_providers messages options env w :
  factory_ok w = true ->
  factory_ok (ResilientLLMService.generateResponse messages options env w).2 = true.
Proof.
  intros Hok.
  destruct (generateResponse_run messages options env w)
    as (w0 & r & w' & evs & Hinit & Hrun & ->).
  destruct (initializeProviders_run env w) as (m & p & fs & Hinit' & H).
  rewrite Hinit' in Hinit. injection Hinit as <-.
  destruct (H Hok) as (_ & _ & Hok0).
  apply Run_frame in Hrun. destruct Hrun as ((_ & Hp & _) & _).
  cbn [snd]. rewrite <- Hok0. apply factory_ok_providers. rewrite Hp. reflexivity.
Qed.

(** The service's [streamResponse], branch by branch: after the
    reinitialisation either the primary is available and the call is the
    primary's [streamResponse], or it is the non-streaming dispatch with its
    outcome handed to [onComplete] or [onError]. *)
Lemma streamResponse_run messages options env w :
  exists w0,
    ResilientLLMService.initializeProviders env w = (Returned tt, w0) /\
    ResilientLLMService.streamResponse messages options env w =
    if available (primaryProvider w0) w0
    then provider_streamResponse (primaryProvider w0) messages options env w0
    else match ResilientLLMService.generateResponse messages (Some options) env w0 with
         | (Returned response, w') => (Returned tt, push (OnComplete response) w')
         | (Thrown error, w') =>
             (Returned tt, push (OnError (Js.as_error error "All providers failed")) w')
         end.
Proof.
  unfold ResilientLLMService.streamResponse. rewrite run_bind.
  destruct (initializeProviders_run env w) as (m & p & fs & -> & _).
  set (w0 := mkWorld _ _ _ _ _ _ _ _). exists w0. split; [reflexivity|].
  rewrite run_bind, run_try_catch, run_bind. cbn [gets].
  rewrite run_bind, provider_isAvailable_run.
  destruct (available (primaryProvider w0) w0); cbn [andb supportsStreaming].
  - rewrite run_bind.
    destruct (provider_streamResponse_post (primaryProvider w0) messages options env w0)
      as (w' & evs & toks & terminal & -> & _). reflexivity.
  - cbn [ret]. rewrite run_try_catch, run_bind.
    destruct (ResilientLLMService.generateResponse messages (Some options) env w0)
      as [[response|error] w']; reflexivity.
Qed.

Lemma streamResponse_providers messages options env w :
  factory_ok w = true ->
  factory_ok (ResilientLLMService.streamResponse messages options env w).2 = true.
Proof.
  intros Hok.
  destruct (streamResponse_run messages options env w) as (w0 & Hinit & ->).
  destruct (initializeProviders_run env w) as (m & p & fs & Hinit' & H).
  rewrite Hinit' in Hinit. injection Hinit as <-.
  destruct (H Hok) as (_ & _ & Hok0).
  set (w0 := mkWorld _ _ _ _ _ _ _ _) in *.
  assert (Hok1 : factory_ok w0 = true) by exact Hok0.
  destruct (available (primaryProvider w0) w0).
  - destruct (provider_streamResponse_post (primaryProvider w0) messages options env w0)
      as (w' & evs & toks & terminal & -> & _ & (_ & Hp & _) & _).
    cbn [snd]. rewrite <- Hok1. apply factory_ok_providers. exact Hp.
  - pose proof (generateResponse_providers messages (Some options) env w0 Hok1) as Hg.
    destruct (ResilientLLMService.generateResponse messages (Some options) env w0)
      as [[response|error] w']; exact Hg.
Qed.

(** X2. The factory's cache never holds an instance of the wrong class under
    a key: this holds when the process starts, and [getProvider],
    [switchProvider], [generateResponse] and [streamResponse] keep it. *)
Theorem X2_factory_cache_invariant :
  (forall dev env, factory_ok (boot dev env) = true) /\
  forall (env : Env) (w : World),
    factory_ok w = true ->
    (forall type, factory_ok (LLMFactory.getProvider type env w).2 = true) /\
    (forall type, factory_ok (ResilientLLMService.switchProvider type env w).2 = true) /\
    (forall messages options,
       factory_ok (ResilientLLMService.generateResponse messages options env w).2 = true) /\
    (forall messages options,
       factory_ok (ResilientLLMService.streamResponse messages options env w).2 = true).
Proof.
  split; [intros [|] env; reflexivity|].
  intros env w Hok.
  assert (Hget : forall type, factory_ok (LLMFactory.getProvider type env w).2 = true).
  { intros type. destruct (ProviderType_eq_auto type) as [->|Hty].
    - destruct (getProvider_auto_run env w) as (p & m & -> & H). apply (H Hok).
    - rewrite getProvider_concrete_run by exact Hty.
      destruct (cachedOrNew_run type env w Hty) as (p & m & -> & H). apply (H Hok). }
  split; [exact Hget|]. split; [|split].
  - intros type. specialize (Hget type).
    unfold ResilientLLMService.switchProvider. rewrite run_bind.
    destruct (LLMFactory.getProvider type env w) as [[p|e] w1]; exact Hget.
  - intros messages options. apply generateResponse_providers. exact Hok.
  - intros messages options. apply streamResponse_providers. exact Hok.
Qed.

Lemma X2_witness :
  factory_ok started = true /\
  factory_ok (ResilientLLMService.generateResponse hello None (healthy 0) started).2 = true.
Proof.
  split; [reflexivity|].
  destruct (proj2 X2_factory_cache_invariant (healthy 0) started eq_refl)
    as (_ & _ & Hgen & _).
  exact (Hgen hello None).
Defined.

(** ** The first answer ends the dispatch *)

Lemma Attempt_hit_others env p w response w' evs n :
  Attempt env p w (Some response) w' evs ->
  n <> name p -> failures n w' = failures n w.
Proof.
  intros H Hn. inversion H as [|w1 r w2 evs' _ Hw1 Hbody]; subst.
  inversion Hbody as [|r w2 evs' _ _ _ _ _ _ Hfc _|]; subst.
  unfold failures. rewrite Hfc, lookup_insert_ne by congruence.
  destruct Hw1 as [->| ->]; reflexivity.
Qed.

Lemma Run_first_answer env ps w response w' evs :
  Run env ps w (Some response) w' evs ->
  exists pre,
    generated evs = pre ++ [LLMResponse.provider response] /\
    forall n, n <> LLMResponse.provider response ->
              failures n w' = failures n w + Z.of_nat (count n pre).
Proof.
  intros H. remember (Some response) as r eqn:Hr.
  induction H as [w|p ps w r w' evs Hatt|p ps w w1 evs1 r w' evs Hatt Hrun IH].
  - discriminate Hr.
  - injection Hr as ->.
    destruct (Attempt_hit _ _ _ _ _ _ Hatt) as (Hprov & _ & Hgen & _).
    exists []. rewrite Hgen, Hprov. split; [reflexivity|].
    intros n Hn.
    rewrite (Attempt_hit_others _ _ _ _ _ _ n Hatt Hn). cbn. lia.
  - destruct (IH Hr) as (pre & Hgen & Hcount).
    exists (generated evs1 ++ pre). rewrite generated_app, Hgen, app_assoc.
    split; [reflexivity|].
    intros n Hn. rewrite (Hcount n Hn), (Attempt_miss_failures _ _ _ _ _ n Hatt).
    rewrite count_app. lia.
Qed.

(** X3. When [generateResponse] returns a response, the provider named in
    it is the last one that was called: nothing is called after the first
    answer. Every call before it failed and was counted against the provider
    called, and the answering provider's own count is back to 0. *)
Theorem X3_first_answer_ends_the_dispatch :
  forall (env : Env) (messages : list AIMessage.t) (options : option LLMOptions.t)
         (w : World) (response : LLMResponse.t),
    (ResilientLLMService.generateResponse messages options env w).1 = Returned response ->
    let w' := (ResilientLLMService.generateResponse messages options env w).2 in
    exists failed,
      generated (new_events w w') = failed ++ [LLMResponse.provider response] /\
      (forall n, n <> LLMResponse.provider response ->
                 failures n w' = failures n w + Z.of_nat (count n failed)) /\
      failures (LLMResponse.provider response) w' = 0.
Proof.
  intros env messages options w response Hres.
  destruct (generateResponse_summary messages options env w)
    as (w0 & r & w' & evs & Hrun & HRun & Hev & _ & _ & Hfc & _).
  rewrite Hrun in Hres |- *. cbn [fst snd] in Hres |- *. rewrite Hev.
  destruct r as [r|]; [|discriminate Hres]. injection Hres as ->.
  destruct (Run_first_answer _ _ _ _ _ _ HRun) as (pre & Hgen & Hcount).
  exists pre. split; [exact Hgen|]. split.
  - intros n Hn. rewrite (Hcount n Hn). unfold failures. rewrite Hfc. reflexivity.
  - destruct (Run_hit_provider _ _ _ _ _ _ HRun) as (p & _ & -> & _ & _ & Hz & _).
    unfold failures. rewrite Hz. reflexivity.
Qed.

Lemma X3_witness :
  exists response failed,
    (ResilientLLMService.generateResponse hello None (anthropic_down 1000) remote_mode).1
      = Returned response /\
    generated (new_events remote_mode
      (ResilientLLMService.generateResponse hello None (anthropic_down 1000) remote_mode).2)
      = failed ++ [LLMResponse.provider response].
Proof.
  eexists.
  destruct (X3_first_answer_ends_the_dispatch (anthropic_down 1000) hello None remote_mode
              _ ltac:(vm_compute; reflexivity)) as (failed & H & _).
  exists failed. split; [vm_compute; reflexivity|exact H].
Defined.

(** ** Where an answer comes from *)

Lemma tick_pushes evs w : tick (foldl (fun w e => push e w) w evs) = tick w.
Proof.
  revert w. induction evs as [|e evs IH]; intros w; [reflexivity|].
  cbn [foldl]. rewrite IH. reflexivity.
Qed.

Lemma answered_by_among env p messages options evs1 evs evs2 lo lo' hi hi' r :
  (lo' <= lo)%nat -> (hi <= hi')%nat ->
  answered_by env p messages options evs lo hi r ->
  answered_by env p messages options (evs1 ++ evs ++ evs2) lo' hi' r.
Proof.
  intros Hlo Hhi (Hprov & Hgen & Hremote).
  assert (Hin : forall e, In e evs -> In e (evs1 ++ evs ++ evs2)).
  { intros e He. apply in_or_app. right. apply in_or_app. left. exact He. }
  split; [exact Hprov|]. split; [apply Hin, Hgen|].
  intros Hnet. destruct (Hremote Hnet) as (Hreq & t & Ht & Hchat).
  split; [apply Hin, Hreq|]. exists t. split; [lia|exact Hchat].
Qed.

Lemma remoteGenerate_source p messages options env w r w' :
  requiresNetwork p = true ->
  remoteGenerate p (defaultModel p) messages options env w = (Returned r, w') ->
  exists evs, trace w' = trace w ++ evs /\
              answered_by env p messages options evs (tick w) (tick w') r.
Proof.
  intros Hnet. unfold remoteGenerate, chatService. unfold_methods. cbn.
  destruct (chat env (tick w) p messages (chatOptions (defaultModel p) options))
    as [content usage|thrown] eqn:Hchat; cbn; intros [= <- <-].
  eexists. split; [cbn; rewrite <- !app_assoc; reflexivity|].
  split; [reflexivity|]. split; [left; reflexivity|].
  intros _. split; [right; left; reflexivity|].
  exists (tick w). split; [cbn; lia|exact Hchat].
Qed.

Lemma provider_generateResponse_source p messages options env w r w' :
  provider_generateResponse p messages options env w = (Returned r, w') ->
  exists evs, trace w' = trace w ++ evs /\
              answered_by env p messages options evs (tick w) (tick w') r.
Proof.
  destruct p; cbn [provider_generateResponse].
  - apply (remoteGenerate_source OpenAI). reflexivity.
  - apply (remoteGenerate_source Anthropic). reflexivity.
  - intros Hrun.
    destruct (localGenerate_post messages options env w) as (evs & Hpost).
    rewrite Hrun in Hpost. cbn [fst snd] in Hpost.
    destruct Hpost as [Htr Hgen _ _ _ _ Hprov _].
    exists evs. split; [exact Htr|]. split; [apply Hprov; reflexivity|].
    split; [|discriminate].
    assert (Hin : In "Local" (generated evs)) by (rewrite Hgen; left; reflexivity).
    unfold generated in Hin. apply list_elem_of_In, list_elem_of_omap in Hin.
    destruct Hin as (e & He & Hn). destruct e; try discriminate Hn.
    injection Hn as ->. apply list_elem_of_In. exact He.
Qed.

(** The instant never goes back during the [try] block of a candidate. *)
Lemma attemptBody_tick p before after messages options env w :
  (tick w <= tick (attemptBody p before after messages options env w).2)%nat.
Proof.
  unfold attemptBody. rewrite run_try_catch, run_bind, provider_isAvailable_run.
  destruct (available p w); [|cbn; lia].
  rewrite run_bind. unfold emits at 1. unfold modify.
  set (w1 := foldl (fun w e => push e w) w before).
  assert (Hw1 : tick w1 = tick w) by apply tick_pushes.
  rewrite run_bind.
  destruct (provider_generateResponse_post p messages options env w1) as (evs & Hpost).
  destruct (provider_generateResponse p messages options env w1) as [[response|error] w2];
    cbn [fst snd] in Hpost; destruct Hpost as [_ _ _ _ _ Htick _ _].
  - rewrite run_bind, recordSuccess_run. cbn. lia.
  - rewrite run_bind, recordFailure_run, run_bind. unfold emits, modify. cbn [ret snd].
    rewrite tick_pushes. cbn. lia.
Qed.

Lemma attemptBody_source p before after messages options env w r w' :
  attemptBody p before after messages options env w = (Returned (Some r), w') ->
  exists evs, trace w' = trace w ++ evs /\
              answered_by env p messages options evs (tick w) (tick w') r.
Proof.
  unfold attemptBody. rewrite run_try_catch, run_bind, provider_isAvailable_run.
  destruct (available p w); [|intros [=]].
  rewrite run_bind. unfold emits at 1. unfold modify.
  set (w1 := foldl (fun w e => push e w) w before).
  assert (Hw1 : tick w1 = tick w) by apply tick_pushes.
  rewrite run_bind.
  destruct (provider_generateResponse p messages options env w1)
    as [[response|error] w2] eqn:Hcall.
  - rewrite run_bind, recordSuccess_run. cbn [ret]. intros [= -> <-].
    destruct (provider_generateResponse_source _ _ _ _ _ _ _ Hcall) as (evs & Htr & Hans).
    exists (before ++ evs ++ []). split.
    + cbn. rewrite Htr. subst w1. rewrite trace_pushes, app_nil_r, app_assoc. reflexivity.
    + refine (answered_by_among _ _ _ _ _ _ _ _ _ _ _ _ _ _ Hans); cbn; lia.
  - rewrite run_bind, recordFailure_run, run_bind. unfold emits, modify. cbn [ret].
    intros [=].
Qed.

Lemma tryPrimary_source messages options env w r w' :
  ResilientLLMService.tryPrimary messages options env w = (Returned (Some r), w') ->
  exists evs, trace w' = trace w ++ evs /\
              answered_by env (primaryProvider w) messages options evs
                          (tick w) (tick w') r.
Proof.
  rewrite tryPrimary_unfold, run_bind. cbn [gets]. rewrite run_bind.
  destruct (gate_cases (name (primaryProvider w)) env w)
    as [(_&->)|[(_&_&->)|(_&_&->)]].
  - apply attemptBody_source.
  - intros Hrun. apply attemptBody_source in Hrun. destruct Hrun as (evs & Htr & Hans).
    exists (evs ++ []). split; [rewrite app_nil_r; exact Htr|].
    refine (answered_by_among _ _ _ _ [] _ _ _ _ _ _ _ _ _ Hans); cbn; lia.
  - intros [=].
Qed.

Lemma tryFallbacks_source fallbacks messages options env w r w' :
  ResilientLLMService.tryFallbacks fallbacks messages options env w
    = (Returned (Some r), w') ->
  exists p evs, In p fallbacks /\ trace w' = trace w ++ evs /\
                answered_by env p messages options evs (tick w) (tick w') r.
Proof.
  revert w. induction fallbacks as [|p rest IH]; intros w; [intros [=]|].
  assert (Hbody : forall w0,
    match attemptBody p
            [Audit "settings_change" ("Falling back to " +:+ name p)]
            [Warn ("Fallback provider " +:+ name p +:+ " failed:")]
            messages options env w0 with
    | (Returned (Some response), w1) =>
        exists evs, trace w1 = trace w0 ++ evs /\
                    answered_by env p messages options evs (tick w0) (tick w1) response
    | (Returned None, w1) =>
        (tick w0 <= tick w1)%nat /\ exists evs, trace w1 = trace w0 ++ evs
    | (Thrown _, _) => False
    end).
  { intros w0.
    pose proof (attemptBody_tick p
                  [Audit "settings_change" ("Falling back to " +:+ name p)]
                  [Warn ("Fallback provider " +:+ name p +:+ " failed:")]
                  messages options env w0) as Htick.
    destruct (attemptBody_run p
                [Audit "settings_change" ("Falling back to " +:+ name p)]
                [Warn ("Fallback provider " +:+ name p +:+ " failed:")]
                messages options env w0)
      as (r0 & w1 & evs1 & Hrun & Hbody & _); try reflexivity.
    rewrite Hrun in Htick |- *. destruct r0 as [response|].
    - apply attemptBody_source in Hrun. exact Hrun.
    - apply Body_frame in Hbody. destruct Hbody as [_ Htr].
      split; [exact Htick|]. exists evs1. exact Htr. }
  assert (Hstep : forall w0,
    trace w0 = trace w -> (tick w <= tick w0)%nat ->
    (returned <-
       attemptBody p
         [Audit "settings_change" ("Falling back to " +:+ name p)]
         [Warn ("Fallback provider " +:+ name p +:+ " failed:")]
         messages options ;;
     match returned with
     | Some response => ret (Some response)
     | None => ResilientLLMService.tryFallbacks rest messages options
     end) env w0 = (Returned (Some r), w') ->
    exists q evs, In q (p :: rest) /\ trace w' = trace w ++ evs /\
                  answered_by env q messages options evs (tick w) (tick w') r).
  { intros w0 Hw0 Ht0. rewrite run_bind. specialize (Hbody w0).
    destruct (attemptBody p _ _ messages options env w0) as [[[response|]|thrown] w1];
      [| |destruct Hbody].
    - cbn [ret]. intros [= -> <-]. destruct Hbody as (evs & Htr & Hans).
      exists p, (evs ++ []). split; [left; reflexivity|].
      split; [rewrite app_nil_r, <- Hw0; exact Htr|].
      refine (answered_by_among _ _ _ _ [] _ _ _ _ _ _ _ _ _ Hans); lia.
    - intros Hrest. destruct Hbody as (Ht1 & evs1 & Htr1).
      destruct (IH w1 Hrest) as (q & evs & Hin & Htr & Hans).
      exists q, (evs1 ++ evs ++ []). split; [right; exact Hin|].
      split; [rewrite Htr, Htr1, Hw0, app_nil_r, app_assoc; reflexivity|].
      refine (answered_by_among _ _ _ _ _ _ _ _ _ _ _ _ _ _ Hans); lia. }
  rewrite tryFallbacks_unfold, run_bind.
  destruct (gate_cases (name p) env w) as [(_&->)|[(_&_&->)|(_&_&->)]]; cbn [negb].
  - apply Hstep; [reflexivity|lia].
  - apply Hstep; [reflexivity|cbn; lia].
  - intros Hrest. destruct (IH _ Hrest) as (q & evs & Hin & Htr & Hans).
    exists q, (evs ++ []). split; [right; exact Hin|].
    split; [rewrite app_nil_r; exact Htr|].
    refine (answered_by_among _ _ _ _ [] _ _ _ _ _ _ _ _ _ Hans); cbn; lia.
Qed.

(** An answer of [generateResponse] is the answer of one of its
    candidates, called during this very call. *)
Lemma generateResponse_source messages options env w r w' :
  ResilientLLMService.generateResponse messages options env w = (Returned r, w') ->
  exists w0 p,
    ResilientLLMService.initializeProviders env w = (Returned tt, w0) /\
    In p (primaryProvider w0 :: fallbackProviders w0) /\
    answered_by env p messages options (new_events w w') (tick w) (tick w') r.
Proof.
  unfold ResilientLLMService.generateResponse. rewrite run_bind.
  destruct (initializeProviders_run env w) as (m & p & fs & Hinit & _).
  rewrite Hinit.
  set (w1 := mkWorld _ _ _ _ _ _ _ _).
  rewrite run_bind.
  destruct (tryPrimary_attempt messages options env w1) as (r1 & w2 & evs1 & Hprim & Hatt).
  rewrite Hprim. destruct r1 as [response|].
  - cbn [ret]. intros [= -> <-].
    destruct (tryPrimary_source _ _ _ _ _ _ Hprim) as (evs & Htr & Hans).
    exists w1, (primaryProvider w1). split; [reflexivity|]. split; [left; reflexivity|].
    rewrite (new_events_app w w2 evs) by exact Htr. exact Hans.
  - rewrite run_bind. cbn [gets]. rewrite run_bind.
    assert (Ht1 : (tick w1 <= tick w2)%nat).
    { revert Hprim. rewrite tryPrimary_unfold, run_bind. cbn [gets]. rewrite run_bind.
      destruct (gate_cases (name (primaryProvider w1)) env w1)
        as [(_&->)|[(_&_&->)|(_&_&->)]].
      - intros Hrun.
        pose proof (attemptBody_tick (primaryProvider w1) []
                      [Warn "Primary LLM provider failed:";
                       Audit "auth_failed" "Primary LLM failed"]
                      messages options env w1) as Ht.
        rewrite Hrun in Ht. exact Ht.
      - intros Hrun.
        pose proof (attemptBody_tick (primaryProvider w1) []
                      [Warn "Primary LLM provider failed:";
                       Audit "auth_failed" "Primary LLM failed"]
                      messages options env (set_tick (S (tick w1)) w1)) as Ht.
        rewrite Hrun in Ht. cbn in Ht |- *. lia.
      - intros [= <-]. cbn. lia. }
    apply Attempt_frame in Hatt. destruct Hatt as ((_&_&_&Hfs) & Htr1).
    destruct (ResilientLLMService.tryFallbacks (fallbackProviders w2) messages options env w2)
      as [[[response|]|thrown] w3] eqn:Hfall; cbn [ret throw]; intros [= -> <-].
    destruct (tryFallbacks_source _ _ _ _ _ _ _ Hfall) as (q & evs & Hin & Htr & Hans).
    exists w1, q. split; [reflexivity|]. split; [right; rewrite <- Hfs; exact Hin|].
    rewrite (new_events_app w w3 (evs1 ++ evs ++ []))
      by (rewrite Htr, Htr1, app_nil_r, app_assoc; reflexivity).
    refine (answered_by_among _ _ _ _ _ _ _ _ _ _ _ _ _ _ Hans); [exact Ht1|lia].
Qed.

(** ** Strict local mode without the local model *)

(** C10. With strict local mode on and the local model off, [auto] picks the
    local provider, whose [isAvailable] is false and whose [generateResponse]
    throws on entry, before any inference. A [generateResponse] of the
    service in that state never calls the local provider and runs no
    inference. An answer it returns is served by a remote fallback:
    Anthropic or OpenAI, a fallback and not the primary, is the last
    provider called in this call, its request went to its backend with the
    caller's messages, and the content and usage of the answer are what the
    backend returned at an instant of this call. And the call is served that way whenever a fallback
    can be used: by Anthropic when it is available, its circuit is closed
    and its backend answers; by OpenAI when Anthropic's circuit is open and
    OpenAI is available with a closed circuit and an answering backend. *)
Theorem C10_strict_mode_served_remotely :
  forall (env : Env) (messages : list AIMessage.t) (options : option LLMOptions.t)
         (w : World),
    factory_ok w = true ->
    FeatureFlagService.isEnabled (featureFlags w) STRICT_LOCAL_MODE = true ->
    FeatureFlagService.isEnabled (featureFlags w) LOCAL_LLM = false ->
    let res := (ResilientLLMService.generateResponse messages options env w).1 in
    let w' := (ResilientLLMService.generateResponse messages options env w).2 in
    (LLMFactory.getProvider auto env w).1 = Returned Local /\
    (LocalLLMProvider.isAvailable env w).1 = Returned false /\
    LocalLLMProvider.generateResponse messages options env w =
      (Thrown (Js.Error "Local LLM is not enabled"), push (Generate "Local") w) /\
    primaryProvider w' = Local /\
    fallbackProviders w' = [Anthropic; OpenAI] /\
    ~ In "Local" (generated (new_events w w')) /\
    (forall e, In e (new_events w w') -> is_inference e = false) /\
    (forall response, res = Returned response ->
       exists p,
         (p = Anthropic \/ p = OpenAI) /\
         In p (fallbackProviders w') /\ p <> primaryProvider w' /\
         LLMResponse.provider response = name p /\
         (exists failed, generated (new_events w w') = failed ++ [name p]) /\
         In (ChatRequest (name p) messages (chatOptions (defaultModel p) options))
            (new_events w w') /\
         exists t, (tick w <= t < tick w')%nat /\
                   chat env t p messages (chatOptions (defaultModel p) options)
                   = ChatOk (LLMResponse.content response) (LLMResponse.usage response)) /\
    (available Anthropic w = true ->
     failures "Anthropic" w < 3 ->
     (forall t msgs request, exists content usage,
         chat env t Anthropic msgs request = ChatOk content usage) ->
     exists response,
       res = Returned response /\
       LLMResponse.provider response = "Anthropic" /\
       generated (new_events w w') = ["Anthropic"]) /\
    (available OpenAI w = true ->
     3 <= failures "Anthropic" w ->
     (forall t, clock env t - lastFailure "Anthropic" w <= 60000) ->
     failures "OpenAI" w < 3 ->
     (forall t msgs request, exists content usage,
         chat env t OpenAI msgs request = ChatOk content usage) ->
     exists response,
       res = Returned response /\
       LLMResponse.provider response = "OpenAI" /\
       generated (new_events w w') = ["OpenAI"]).
Proof.
  intros env messages options w Hok Hstrict Hlocal res w'. subst res w'.
  assert (Hres : resolve (featureFlags w) = Local)
    by (unfold resolve; rewrite Hstrict; reflexivity).
  assert (Hun : available Local w = false) by exact Hlocal.
  pose proof (local_disabled_falls_back messages options env w Hok Hres Hun)
    as [Hfirst Hsecond].
  split; [|split; [|split]].
  - destruct (getProvider_auto_resolves env w Hok) as (-> & _). rewrite Hres. reflexivity.
  - cbn. rewrite Hlocal. reflexivity.
  - apply localGenerate_disabled, Hlocal.
  - destruct (generateResponse_summary messages options env w)
      as (w0 & r & w' & evs & Hgen & Hrun & Hev & _ & Hff & _ & _ & Hp & Hfs & Hinit).
    rewrite Hgen in Hfirst, Hsecond |- *.
    cbn [fst snd] in Hfirst, Hsecond |- *. rewrite Hev in Hfirst, Hsecond |- *.
    destruct (Hinit Hok) as [Hp0 Hfs0].
    assert (Hblocked : blocked env Local w0)
      by (right; unfold available; rewrite Hff; exact Hlocal).
    destruct (Run_blocked _ _ _ _ _ _ _ Hblocked Hrun) as [Hnin _].
    split; [congruence|]. split; [congruence|]. split; [exact Hnin|]. split.
    { intros e Hin. destruct (is_inference e) eqn:Hi; [|reflexivity].
      exfalso. apply Hnin. eapply Run_inference; eassumption. }
    split; [|split; assumption].
    intros response Hret. destruct r as [response'|]; [|discriminate Hret].
    injection Hret as ->.
    destruct (generateResponse_source _ _ _ _ _ _ Hgen) as (w1 & p & Hinit1 & Hin & Hans).
    rewrite Hev in Hans. destruct Hans as (Hprov & Hcalled & Hremote).
    destruct (initializeProviders_run env w) as (m & p1 & fs1 & Hinit2 & Hinit3).
    rewrite Hinit2 in Hinit1. injection Hinit1 as <-.
    destruct (Hinit3 Hok) as (-> & -> & _). cbn [primaryProvider fallbackProviders] in Hin.
    assert (Hp' : p <> Local).
    { intros ->. apply Hnin. unfold generated.
      apply list_elem_of_In, list_elem_of_omap. exists (Generate "Local").
      split; [apply list_elem_of_In; exact Hcalled|reflexivity]. }
    destruct (Run_first_answer _ _ _ _ _ _ Hrun) as (pre & Hlast & _).
    rewrite Hprov in Hlast.
    rewrite Hp, Hfs, Hp0, Hfs0, Hres. rewrite Hres in Hin.
    exists p.
    split; [destruct p; [right|left|congruence]; reflexivity|].
    split; [destruct Hin as [<-|Hin]; [congruence|exact Hin]|].
    split; [exact Hp'|]. split; [exact Hprov|]. split; [exists pre; exact Hlast|].
    apply Hremote. destruct p; [reflexivity|reflexivity|congruence].
Qed.

Lemma C10_witness :
  factory_ok started = true /\
  FeatureFlagService.isEnabled (featureFlags started) STRICT_LOCAL_MODE = true /\
  FeatureFlagService.isEnabled (featureFlags started) LOCAL_LLM = false /\
  (LLMFactory.getProvider auto (healthy 7) started).1 = Returned Local /\
  exists response,
    (ResilientLLMService.generateResponse hello None (healthy 7) started).1 =
      Returned response /\
    LLMResponse.provider response = "Anthropic" /\
    generated (new_events started
      (ResilientLLMService.generateResponse hello None (healthy 7) started).2)
    = ["Anthropic"].
Proof.
  do 3 (split; [reflexivity|]).
  destruct (C10_strict_mode_served_remotely (healthy 7) hello None started
              eq_refl eq_refl eq_refl)
    as (Hauto & _ & _ & _ & _ & _ & _ & _ & Hfirst & _).
  split; [exact Hauto|].
  apply Hfirst.
  - vm_compute. reflexivity.
  - vm_compute. reflexivity.
  - intros t msgs request. eexists _, _. reflexivity.
Defined.

(** ** The circuit breaker's invariant *)

Lemma circuit_wf_same w w' :
  failureCount w' = failureCount w -> lastFailureTime w' = lastFailureTime w ->
  circuit_wf w -> circuit_wf w'.
Proof. intros Hf Hl H n. unfold failures. rewrite Hf, Hl. apply H. Qed.

Lemma circuit_wf_success n w w' :
  failureCount w' = <[n := 0]> (failureCount w) ->
  lastFailureTime w' = delete n (lastFailureTime w) ->
  circuit_wf w -> circuit_wf w'.
Proof.
  intros Hfc Hlf Hwf k. unfold failures. rewrite Hfc, Hlf.
  destruct (decide (k = n)) as [->|Hk].
  - rewrite lookup_insert_eq, lookup_delete_eq. cbn. split; [lia|]. split; reflexivity.
  - rewrite lookup_insert_ne, lookup_delete_ne by congruence. apply Hwf.
Qed.

Lemma circuit_wf_failure n t w w' :
  failureCount w' = <[n := failures n w + 1]> (failureCount w) ->
  lastFailureTime w' = <[n := t]> (lastFailureTime w) ->
  circuit_wf w -> circuit_wf w'.
Proof.
  intros Hfc Hlf Hwf k. destruct (Hwf n) as (Hpos & _).
  destruct (decide (k = n)) as [->|Hk].
  - assert (Hc : failures n w' = failures n w + 1).
    { unfold failures at 1. rewrite Hfc, lookup_insert_eq. apply or0_Some. }
    rewrite Hc, Hlf, lookup_insert_eq. split; [lia|]. split; [lia|discriminate].
  - assert (Hc : failures k w' = failures k w).
    { unfold failures. rewrite Hfc, lookup_insert_ne by congruence. reflexivity. }
    rewrite Hc, Hlf, lookup_insert_ne by congruence. apply Hwf.
Qed.

Lemma Body_circuit_wf p w r w' evs : Body p w r w' evs -> circuit_wf w -> circuit_wf w'.
Proof.
  intros H Hwf.
  inversion H as [|r' w2 evs' _ _ _ _ _ _ Hfc Hlf|w2 evs' t _ _ _ _ _ Hfc Hlf]; subst.
  - exact Hwf.
  - apply (circuit_wf_success _ _ _ Hfc Hlf Hwf).
  - apply (circuit_wf_failure _ _ _ _ Hfc Hlf Hwf).
Qed.

Lemma Attempt_circuit_wf env p w r w' evs :
  Attempt env p w r w' evs -> circuit_wf w -> circuit_wf w'.
Proof.
  intros H Hwf. inversion H as [|w1 r' w2 evs' _ Hw1 Hbody]; subst.
  - exact Hwf.
  - apply (Body_circuit_wf _ _ _ _ _ Hbody). destruct Hw1 as [->| ->]; exact Hwf.
Qed.

Lemma Run_circuit_wf env ps w r w' evs :
  Run env ps w r w' evs -> circuit_wf w -> circuit_wf w'.
Proof.
  induction 1 as [w|p ps w r w' evs Hatt|p ps w w1 evs1 r w' evs Hatt Hrun IH];
    intros Hwf.
  - exact Hwf.
  - apply (Attempt_circuit_wf _ _ _ _ _ _ Hatt Hwf).
  - apply IH. apply (Attempt_circuit_wf _ _ _ _ _ _ Hatt Hwf).
Qed.

Lemma generateResponse_circuit_wf messages options env w :
  circuit_wf w ->
  circuit_wf (ResilientLLMService.generateResponse messages options env w).2.
Proof.
  intros Hwf.
  destruct (generateResponse_summary messages options env w)
    as (w0 & r & w' & evs & -> & HRun & _ & _ & _ & Hfc & Hlf & _).
  cbn [snd]. apply (Run_circuit_wf _ _ _ _ _ _ HRun).
  apply (circuit_wf_same w w0 Hfc Hlf Hwf).
Qed.

(** X4. The circuit breaker's two maps stay consistent: failure counts are
    never negative, and a provider has a recorded last failure instant
    exactly when its count is not zero. This holds when the process starts
    and is kept by [recordSuccess], [recordFailure], [generateResponse],
    [streamResponse] and [switchProvider]; so an open circuit always has the
    instant its timeout is measured from. *)
Theorem X4_circuit_maps_agree :
  (forall dev env, circuit_wf (boot dev env)) /\
  forall (env : Env) (w : World),
    circuit_wf w ->
    (forall n, circuit_wf (ResilientLLMService.recordSuccess n env w).2) /\
    (forall n, circuit_wf (ResilientLLMService.recordFailure n env w).2) /\
    (forall messages options,
       circuit_wf (ResilientLLMService.generateResponse messages options env w).2) /\
    (forall messages options,
       circuit_wf (ResilientLLMService.streamResponse messages options env w).2) /\
    (forall type, circuit_wf (ResilientLLMService.switchProvider type env w).2) /\
    (forall n, 3 <= failures n w -> exists t, lastFailureTime w !! n = Some t).
Proof.
  split.
  { intros dev env n.
    assert (Hf : failureCount (boot dev env) = ∅) by (destruct dev; reflexivity).
    assert (Hl : lastFailureTime (boot dev env) = ∅) by (destruct dev; reflexivity).
    unfold failures. rewrite Hf, Hl, !lookup_empty. cbn. split; [lia|]. split; reflexivity. }
  intros env w Hwf. split; [|split; [|split; [|split; [|split]]]].
  - intros n. rewrite recordSuccess_run. cbn [snd].
    apply (circuit_wf_success n w); [reflexivity..|exact Hwf].
  - intros n. rewrite recordFailure_run. cbn [snd].
    apply (circuit_wf_failure n (clock env (tick w)) w); [reflexivity..|exact Hwf].
  - intros messages options. apply generateResponse_circuit_wf. exact Hwf.
  - intros messages options.
    destruct (streamResponse_run messages options env w) as (w0 & Hinit & ->).
    destruct (initializeProviders_run env w) as (m & p & fs & Hinit' & _).
    rewrite Hinit' in Hinit. injection Hinit as <-.
    set (w0 := mkWorld _ _ _ _ _ _ _ _).
    assert (Hwf0 : circuit_wf w0) by (apply (circuit_wf_same w w0); [reflexivity..|exact Hwf]).
    destruct (available (primaryProvider w0) w0).
    + destruct (provider_streamResponse_post (primaryProvider w0) messages options env w0)
        as (w' & evs & toks & terminal & -> & _ & _ & (Hfc & Hlf) & _).
      cbn [snd]. apply (circuit_wf_same w0 w' Hfc Hlf Hwf0).
    + pose proof (generateResponse_circuit_wf messages (Some options) env w0 Hwf0) as Hg.
      destruct (ResilientLLMService.generateResponse messages (Some options) env w0)
        as [[response|error] w']; cbn [snd] in Hg |- *;
        apply (circuit_wf_same w' _ eq_refl eq_refl Hg).
  - intros type. unfold ResilientLLMService.switchProvider. rewrite run_bind.
    assert (Hrun : exists p m, LLMFactory.getProvider type env w
                               = (Returned p, set_providers m w)).
    { destruct (ProviderType_eq_auto type) as [->|Hty].
      - destruct (getProvider_auto_run env w) as (p & m & H & _). eauto.
      - rewrite getProvider_concrete_run by exact Hty.
        destruct (cachedOrNew_run type env w Hty) as (p & m & H & _). eauto. }
    destruct Hrun as (p & m & ->). cbn [snd].
    apply (circuit_wf_same w _ eq_refl eq_refl Hwf).
  - intros n Hn. destruct (Hwf n) as (_ & Hiff).
    destruct (lastFailureTime w !! n) as [t|]; [exists t; reflexivity|].
    destruct Hiff as (_ & H0). specialize (H0 eq_refl). lia.
Qed.

Lemma X4_witness :
  circuit_wf started /\
  circuit_wf (ResilientLLMService.generateResponse hello None (outage 1000) started).2.
Proof.
  pose proof (proj1 X4_circuit_maps_agree false (healthy 0)) as H0.
  split; [exact H0|].
  destruct (proj2 X4_circuit_maps_agree (outage 1000) started H0)
    as (_ & _ & Hgen & _).
  exact (Hgen hello None).
Defined.

(** ** Methods that fire no callback *)

Lemma quiet_ret {A} (a : A) : quiet (ret a).
Proof. intros env w. exists []. rewrite app_nil_r. split; reflexivity. Qed.

Lemma quiet_throw {A} e : quiet (@throw A e).
Proof. intros env w. exists []. rewrite app_nil_r. split; reflexivity. Qed.

Lemma quiet_gets {A} (f : World -> A) : quiet (gets f).
Proof. intros env w. exists []. rewrite app_nil_r. split; reflexivity. Qed.

Lemma quiet_read {A} (oracle : Env -> nat -> A) : quiet (read oracle).
Proof. intros env w. exists []. cbn. rewrite app_nil_r. split; reflexivity. Qed.

Lemma quiet_modify f : (forall w, trace (f w) = trace w) -> quiet (modify f).
Proof. intros H env w. exists []. cbn. rewrite app_nil_r, H. split; reflexivity. Qed.

Lemma quiet_emit e : is_callback e = false -> quiet (emit e).
Proof.
  intros H env w. exists [e]. split; [reflexivity|].
  unfold callbacks. cbn. rewrite H. reflexivity.
Qed.

Lemma quiet_emits evs : callbacks evs = [] -> quiet (emits evs).
Proof. intros H env w. exists evs. split; [apply trace_pushes|exact H]. Qed.

Lemma quiet_bind {A B} (m : M A) (f : A -> M B) :
  quiet m -> (forall a, quiet (f a)) -> quiet (bind m f).
Proof.
  intros Hm Hf env w. rewrite run_bind.
  destruct (Hm env w) as (evs1 & Htr1 & Hcb1).
  destruct (m env w) as [[a|e] w1]; cbn [snd] in Htr1.
  - destruct (Hf a env w1) as (evs2 & Htr2 & Hcb2).
    exists (evs1 ++ evs2). rewrite Htr2, Htr1, app_assoc, callbacks_app, Hcb1, Hcb2.
    split; reflexivity.
  - exists evs1. split; assumption.
Qed.

Lemma quiet_try_catch {A} (m : M A) (h : Js.value -> M A) :
  quiet m -> (forall e, quiet (h e)) -> quiet (try_catch m h).
Proof.
  intros Hm Hh env w. rewrite run_try_catch.
  destruct (Hm env w) as (evs1 & Htr1 & Hcb1).
  destruct (m env w) as [[a|e] w1]; cbn [snd] in Htr1.
  - exists evs1. split; assumption.
  - destruct (Hh e env w1) as (evs2 & Htr2 & Hcb2).
    exists (evs1 ++ evs2). rewrite Htr2, Htr1, app_assoc, callbacks_app, Hcb1, Hcb2.
    split; reflexivity.
Qed.

Lemma quiet_provider_generateResponse p messages options :
  quiet (provider_generateResponse p messages options).
Proof.
  intros env w.
  destruct (provider_generateResponse_post p messages options env w) as (evs & H).
  exists evs. split; [apply (gen_trace _ _ _ _ _ H)|apply (gen_callbacks _ _ _ _ _ H)].
Qed.

Lemma quiet_provider_isAvailable p : quiet (provider_isAvailable p).
Proof. destruct p; apply quiet_gets. Qed.

Lemma quiet_shouldAttemptProvider n : quiet (ResilientLLMService.shouldAttemptProvider n).
Proof.
  unfold ResilientLLMService.shouldAttemptProvider.
  apply quiet_bind; [apply quiet_gets|]. intros failures.
  apply quiet_bind; [apply quiet_gets|]. intros lastFailure.
  destruct (failures <? _); [apply quiet_ret|].
  apply quiet_bind; [apply quiet_read|]. intros now. apply quiet_ret.
Qed.

Lemma quiet_recordSuccess n : quiet (ResilientLLMService.recordSuccess n).
Proof.
  unfold ResilientLLMService.recordSuccess.
  apply quiet_bind; [|intros _]; apply quiet_modify; reflexivity.
Qed.

Lemma quiet_recordFailure n : quiet (ResilientLLMService.recordFailure n).
Proof.
  unfold ResilientLLMService.recordFailure.
  apply quiet_bind; [apply quiet_gets|]. intros c.
  apply quiet_bind; [apply quiet_modify; reflexivity|]. intros _.
  apply quiet_bind; [apply quiet_read|]. intros now.
  apply quiet_modify; reflexivity.
Qed.

Lemma quiet_attemptBody p before after messages options :
  callbacks before = [] -> callbacks after = [] ->
  quiet (attemptBody p before after messages options).
Proof.
  intros Hb Ha. unfold attemptBody. apply quiet_try_catch.
  - apply quiet_bind; [apply quiet_provider_isAvailable|]. intros [|]; [|apply quiet_ret].
    apply quiet_bind; [apply quiet_emits; exact Hb|]. intros _.
    apply quiet_bind; [apply quiet_provider_generateResponse|]. intros response.
    apply quiet_bind; [apply quiet_recordSuccess|]. intros _. apply quiet_ret.
  - intros error.
    apply quiet_bind; [apply quiet_recordFailure|]. intros _.
    apply quiet_bind; [apply quiet_emits; exact Ha|]. intros _. apply quiet_ret.
Qed.

Lemma quiet_tryPrimary messages options :
  quiet (ResilientLLMService.tryPrimary messages options).
Proof.
  rewrite tryPrimary_unfold.
  apply quiet_bind; [apply quiet_gets|]. intros primary.
  apply quiet_bind; [apply quiet_shouldAttemptProvider|]. intros [|]; [|apply quiet_ret].
  apply quiet_attemptBody; reflexivity.
Qed.

Lemma quiet_tryFallbacks fallbacks messages options :
  quiet (ResilientLLMService.tryFallbacks fallbacks messages options).
Proof.
  induction fallbacks as [|fallback rest IH]; [apply quiet_ret|].
  rewrite tryFallbacks_unfold.
  apply quiet_bind; [apply quiet_shouldAttemptProvider|]. intros [|]; cbn [negb];
    [|exact IH].
  apply quiet_bind; [apply quiet_attemptBody; reflexivity|].
  intros [response|]; [apply quiet_ret|exact IH].
Qed.

Lemma quiet_getProvider type : quiet (LLMFactory.getProvider type).
Proof.
  assert (H : forall t, quiet (LLMFactory.cachedOrNew t)).
  { intros t. unfold LLMFactory.cachedOrNew.
    apply quiet_bind; [apply quiet_gets|]. intros [p|]; [apply quiet_ret|].
    destruct t; try apply quiet_throw;
      (apply quiet_bind; [apply quiet_modify; reflexivity|intros _; apply quiet_ret]). }
  destruct type; cbn [LLMFactory.getProvider]; try apply H.
  unfold LLMFactory.getOptimalProvider.
  apply quiet_bind; [apply quiet_gets|]. intros [|]; [apply H|].
  apply quiet_bind; [apply quiet_gets|]. intros [|]; apply H.
Qed.

Lemma quiet_initializeProviders : quiet ResilientLLMService.initializeProviders.
Proof.
  unfold ResilientLLMService.initializeProviders.
  apply quiet_bind; [apply quiet_getProvider|]. intros primary.
  apply quiet_bind; [apply quiet_modify; reflexivity|]. intros _.
  apply quiet_bind; [apply quiet_getProvider|]. intros first.
  apply quiet_bind; [apply quiet_getProvider|]. intros second.
  apply quiet_modify; reflexivity.
Qed.

Lemma quiet_generateResponse messages options :
  quiet (ResilientLLMService.generateResponse messages options).
Proof.
  unfold ResilientLLMService.generateResponse.
  apply quiet_bind; [apply quiet_initializeProviders|]. intros _.
  apply quiet_bind; [apply quiet_tryPrimary|]. intros [response|]; [apply quiet_ret|].
  apply quiet_bind; [apply quiet_gets|]. intros fallbacks.
  apply quiet_bind; [apply quiet_tryFallbacks|].
  intros [response|]; [apply quiet_ret|apply quiet_throw].
Qed.

(** ** Reinitialising twice *)

Lemma cachedOrNew_hit type env w p :
  providers w !! type_key type = Some p ->
  LLMFactory.cachedOrNew type env w = (Returned p, w).
Proof. intros H. unfold LLMFactory.cachedOrNew. unfold_methods. rewrite H. reflexivity. Qed.

Lemma cachedOrNew_grows type env w :
  type <> auto ->
  exists p m,
    LLMFactory.cachedOrNew type env w = (Returned p, set_providers m w) /\
    m !! type_key type = Some p /\
    forall k q, providers w !! k = Some q -> m !! k = Some q.
Proof.
  intros Hty. unfold LLMFactory.cachedOrNew. unfold_methods. cbn.
  destruct (providers w !! type_key type) as [q|] eqn:Hq.
  - exists q, (providers w). rewrite set_providers_id. auto.
  - destruct type; try congruence; eexists _, _; (split; [reflexivity|]);
      (split; [apply lookup_insert_eq|]); intros k q Hk;
      (rewrite lookup_insert_ne; [exact Hk|]); intros Heq; subst k;
      rewrite Hk in Hq; discriminate Hq.
Qed.

(** The concrete type [getOptimalProvider] asks for depends on the flags
    only. *)
Lemma getProvider_auto_type env w :
  exists type, type <> auto /\
    forall w', featureFlags w' = featureFlags w ->
               LLMFactory.getProvider auto env w' = LLMFactory.cachedOrNew type env w'.
Proof.
  cbn [LLMFactory.getProvider]. unfold LLMFactory.getOptimalProvider.
  destruct (FeatureFlagService.isEnabled (featureFlags w) STRICT_LOCAL_MODE) eqn:Hs.
  - exists local. split; [discriminate|]. intros w' Hw'.
    rewrite run_bind. unfold isEnabled. cbn [gets]. rewrite Hw', Hs. reflexivity.
  - destruct (FeatureFlagService.isEnabled (featureFlags w) LOCAL_LLM) eqn:Hl.
    + exists local. split; [discriminate|]. intros w' Hw'.
      rewrite run_bind. unfold isEnabled at 1. cbn [gets]. rewrite Hw', Hs.
      rewrite run_bind. unfold isEnabled at 1. cbn [gets]. rewrite Hw', Hl. reflexivity.
    + exists anthropic. split; [discriminate|]. intros w' Hw'.
      rewrite run_bind. unfold isEnabled at 1. cbn [gets]. rewrite Hw', Hs.
      rewrite run_bind. unfold isEnabled at 1. cbn [gets]. rewrite Hw', Hl. reflexivity.
Qed.

Lemma initializeProviders_again env w w0 :
  ResilientLLMService.initializeProviders env w = (Returned tt, w0) ->
  ResilientLLMService.initializeProviders env w0 = (Returned tt, w0).
Proof.
  unfold ResilientLLMService.initializeProviders.
  destruct (getProvider_auto_type env w) as (type & Hty & Hauto).
  rewrite run_bind, (Hauto w eq_refl).
  destruct (cachedOrNew_grows type env w Hty) as (p1 & m1 & -> & Hp1 & Hm1).
  rewrite run_bind. cbn [modify]. rewrite run_bind.
  rewrite getProvider_concrete_run by discriminate.
  destruct (cachedOrNew_grows anthropic env (set_primaryProvider p1 (set_providers m1 w)))
    as (a & m2 & -> & Ha & Hm2); [discriminate|].
  rewrite run_bind, getProvider_concrete_run by discriminate.
  destruct (cachedOrNew_grows openai env
              (set_providers m2 (set_primaryProvider p1 (set_providers m1 w))))
    as (o & m3 & -> & Ho & Hm3); [discriminate|].
  cbn [modify]. intros [= <-].
  rewrite run_bind, Hauto by reflexivity.
  rewrite (cachedOrNew_hit type env _ p1) by (apply Hm3, Hm2, Hp1).
  rewrite run_bind. cbn [modify]. rewrite run_bind.
  rewrite getProvider_concrete_run by discriminate.
  rewrite (cachedOrNew_hit anthropic env _ a) by (apply Hm3, Ha).
  rewrite run_bind, getProvider_concrete_run by discriminate.
  rewrite (cachedOrNew_hit openai env _ o) by exact Ho.
  reflexivity.
Qed.

Lemma generateResponse_after_init messages options env w w0 :
  ResilientLLMService.initializeProviders env w = (Returned tt, w0) ->
  ResilientLLMService.generateResponse messages options env w0 =
  ResilientLLMService.generateResponse messages options env w.
Proof.
  intros H. unfold ResilientLLMService.generateResponse.
  rewrite !run_bind with (m := ResilientLLMService.initializeProviders).
  rewrite (initializeProviders_again _ _ _ H), H. reflexivity.
Qed.

(** ** Streaming through the service, branch by branch *)

Lemma initializeProviders_state env w w0 :
  ResilientLLMService.initializeProviders env w = (Returned tt, w0) ->
  trace w0 = trace w /\ tick w0 = tick w /\ featureFlags w0 = featureFlags w /\
  failureCount w0 = failureCount w /\ lastFailureTime w0 = lastFailureTime w /\
  (factory_ok w = true -> primaryProvider w0 = resolve (featureFlags w)).
Proof.
  destruct (initializeProviders_run env w) as (m & p & fs & -> & H).
  intros [= <-]. cbn. repeat split; try reflexivity.
  intros Hok. destruct (H Hok) as (-> & _). reflexivity.
Qed.

Lemma new_events_same_trace w w0 w' :
  trace w0 = trace w -> new_events w w' = new_events w0 w'.
Proof. intros H. unfold new_events. rewrite H. reflexivity. Qed.



(** X6. When the caller's callbacks return, the service's [streamResponse]
    returns, and the callbacks it fires are token callbacks followed by
    exactly one terminal callback, [onComplete] or [onError], on every
    path: the primary's own stream, the non-streaming dispatch, and
    exhaustion. Whatever the callbacks do, the call returns unless
    [onError] throws. *)
Theorem X6_service_stream_ends_once :
  forall (caller : StreamingCallback.t) (env : Env) (messages : list AIMessage.t)
         (options : LLMOptions.t) (w : World),
    ((forall fired error, StreamingCallback.onError caller fired error = None) ->
     (Streaming.streamResponse messages options caller env w).1 = Returned tt) /\
    (returns_normally caller ->
     (Streaming.streamResponse messages options caller env w).1 = Returned tt /\
     exists (toks : list string) (terminal : Event),
       callbacks (new_events w (Streaming.streamResponse messages options caller env w).2)
         = (OnToken <$> toks) ++ [terminal] /\
       ((exists response, terminal = OnComplete response) \/
        (exists error, terminal = OnError error))).
Proof.
  intros caller env messages options w. split.
  - intros Herror. unfold Streaming.streamResponse. rewrite run_bind.
    destruct (initializeProviders_run env w) as (m & p & fs & -> & _).
    set (w0 := mkWorld _ _ _ _ _ _ _ _).
    rewrite run_bind, run_try_catch, run_bind. cbn [gets].
    rewrite run_bind, provider_isAvailable_run.
    destruct (available (primaryProvider w0) w0); cbn [andb supportsStreaming].
    + rewrite run_bind.
      destruct (Streaming_provider_streamResponse_shape (primaryProvider w0)
                  messages options caller env w0)
        as (res & w1 & evs & k & words & tail & -> & _ & _ & _ & Hreturns).
      rewrite (Hreturns Herror). reflexivity.
    + cbn [ret]. rewrite run_try_catch, run_bind.
      destruct (ResilientLLMService.generateResponse messages (Some options) env w0)
        as [[response|error] w1].
      * unfold Streaming.onComplete. rewrite call_run.
        destruct (StreamingCallback.onComplete caller (trace w1) response);
          [unfold Streaming.onError; rewrite call_run, Herror|]; reflexivity.
      * unfold Streaming.onError. rewrite call_run, Herror. reflexivity.
  - intros Hret. rewrite streamResponse_returning by exact Hret.
    destruct (streamResponse_run messages options env w) as (w0 & Hinit & ->).
    destruct (initializeProviders_state env w w0 Hinit) as (Htr & _).
    destruct (available (primaryProvider w0) w0).
    + destruct (provider_streamResponse_post (primaryProvider w0) messages options env w0)
        as (w' & evs & toks & terminal & -> & Htr' & _ & _ & _ & Hcb & Hcase).
      cbn [fst snd]. split; [reflexivity|]. exists toks, terminal.
      rewrite (new_events_same_trace w w0 w' Htr), (new_events_app _ _ _ Htr').
      split; [exact Hcb|].
      destruct (provider_generateResponse _ _ _ _ _).1 as [response|error].
      * destruct Hcase as (_ & ms & ->). left. eexists. reflexivity.
      * destruct Hcase as (_ & ->). right. eexists. reflexivity.
    + destruct (quiet_generateResponse messages (Some options) env w0)
        as (evs & Htr' & Hcb).
      destruct (ResilientLLMService.generateResponse messages (Some options) env w0)
        as [[response|error] w'] eqn:Hrun; cbn [fst snd] in Htr' |- *;
        (split; [reflexivity|]); exists []; eexists;
        rewrite (new_events_same_trace w w0 _ Htr);
        (rewrite (new_events_app _ _ (evs ++ [_]))
           by (cbn; rewrite Htr', <- app_assoc; reflexivity));
        rewrite callbacks_app, Hcb; (split; [reflexivity|]).
      * left. eexists. reflexivity.
      * right. eexists. reflexivity.
Qed.

Lemma X6_witness :
  returns_normally StreamingCallback.returning /\
  (Streaming.streamResponse hello (LLMOptions.mk None None None None None)
     StreamingCallback.returning (outage 1000) started).1 = Returned tt.
Proof.
  assert (Hret : returns_normally StreamingCallback.returning) by (repeat split).
  split; [exact Hret|].
  destruct (X6_service_stream_ends_once StreamingCallback.returning (outage 1000) hello
              (LLMOptions.mk None None None None None) started) as (_ & Hreturning).
  destruct (Hreturning Hret) as (Hrun & _). exact Hrun.
Defined.


(** X7. When the primary is not available, the service's [streamResponse]
    is its [generateResponse] with the outcome handed to the callbacks.
    [generateResponse] itself fires no callback. An answer goes to
    [onComplete], with no token callback; when [onComplete] returns, the
    state is the one [generateResponse] leaves. When [onComplete] throws,
    what it threw goes to [onError] as well, under the default text of the
    [catch] block when it is not an [Error]. Exhaustion goes to [onError]
    with the error of [generateResponse] itself. The call rejects with what
    [onError] throws, and only then. *)
Theorem X7_stream_falls_back_to_the_dispatch :
  forall (caller : StreamingCallback.t) (env : Env) (messages : list AIMessage.t)
         (options : LLMOptions.t) (w : World),
    factory_ok w = true ->
    available (resolve (featureFlags w)) w = false ->
    let res := (ResilientLLMService.generateResponse messages (Some options) env w).1 in
    let w1 := (ResilientLLMService.generateResponse messages (Some options) env w).2 in
    callbacks (new_events w w1) = [] /\
    Streaming.streamResponse messages options caller env w =
      match res with
      | Returned response =>
          let w2 := push (OnComplete response) w1 in
          match StreamingCallback.onComplete caller (trace w1) response with
          | None => (Returned tt, w2)
          | Some thrown =>
              let error := Js.as_error thrown "All providers failed" in
              (outcome_of (StreamingCallback.onError caller (trace w2) error),
               push (OnError error) w2)
          end
      | Thrown _ =>
          let error := Js.Error "All LLM providers are currently unavailable" in
          (outcome_of (StreamingCallback.onError caller (trace w1) error),
           push (OnError error) w1)
      end.
Proof.
  intros caller env messages options w Hok Hav. cbv zeta.
  destruct (quiet_generateResponse messages (Some options) env w) as (evs & Htr & Hcb).
  split; [rewrite (new_events_app _ _ _ Htr); exact Hcb|]. clear evs Htr Hcb.
  unfold Streaming.streamResponse. rewrite run_bind.
  destruct (initializeProviders_run env w) as (m & p & fs & Hinit & Hres).
  rewrite Hinit. destruct (Hres Hok) as (Hp & _ & _).
  set (w0 := mkWorld _ _ _ _ _ _ _ _) in *.
  rewrite run_bind, run_try_catch, run_bind. cbn [gets].
  rewrite run_bind, provider_isAvailable_run.
  assert (Hav0 : available (primaryProvider w0) w0 = false).
  { rewrite <- Hav. cbn [primaryProvider w0]. rewrite Hp. reflexivity. }
  rewrite Hav0. cbn [andb ret]. rewrite run_try_catch, run_bind.
  rewrite (generateResponse_after_init _ _ _ _ _ Hinit).
  destruct (generateResponse_run messages (Some options) env w)
    as (w0' & r & w1 & evs' & _ & _ & Hrun).
  rewrite Hrun. cbn [fst snd].
  destruct r as [response|].
  - unfold Streaming.onComplete. rewrite call_run.
    destruct (StreamingCallback.onComplete caller (trace w1) response);
      [unfold Streaming.onError; rewrite call_run|]; reflexivity.
  - unfold Streaming.onError. rewrite call_run. reflexivity.
Qed.

Lemma X7_witness :
  factory_ok started = true /\
  available (resolve (featureFlags started)) started = false /\
  callbacks (new_events started
    (Streaming.streamResponse hello (LLMOptions.mk None None None None None)
       throwing_onComplete (healthy 1000) started).2)
  = [OnComplete (LLMResponse.mk "Bonjour ! Comment puis-je vous aider ?" None
                   "claude-3-5-sonnet-20240620" "Anthropic" 12 None);
     OnError (Js.Error "onComplete failed")].
Proof.
  split; [reflexivity|]. split; [vm_compute; reflexivity|].
  destruct (X7_stream_falls_back_to_the_dispatch throwing_onComplete (healthy 1000) hello
              (LLMOptions.mk None None None None None) started)
    as (_ & Hrun); [vm_compute; reflexivity..|].
  rewrite Hrun. vm_compute. reflexivity.
Defined.

(** ** The simulated stream, event by event *)

Lemma simulateStream_trace generate delay fallbackMessage messages options env w res w2 :
  generate messages (Some options) env (set_tick (S (tick w)) w) = (res, w2) ->
  exists w',
    simulateStream generate delay fallbackMessage messages options env w
      = (Returned tt, w') /\
    trace w' = trace w2 ++
      match res with
      | Returned response =>
          token_events delay (snapshots 0 "" (Js.split " " (LLMResponse.content response)))
          ++ [OnComplete (LLMResponse.with_processingTime response
                            (clock env (tick w2) - clock env (tick w)))]
      | Thrown error => [OnError (Js.as_error error fallbackMessage)]
      end.
Proof.
  intros Hgen. unfold simulateStream.
  rewrite run_bind. unfold Date_now at 1. cbn [read].
  rewrite run_try_catch, run_bind, Hgen.
  destruct res as [response|error].
  - rewrite run_bind, tokenLoop_run. unfold_methods.
    eexists. split; [reflexivity|]. cbn.
    rewrite trace_pushes, tick_pushes, <- app_assoc. reflexivity.
  - unfold_methods. eexists. split; reflexivity.
Qed.

Lemma provider_streamResponse_trace p messages options env w res w2 :
  provider_generateResponse p messages (Some options) env (set_tick (S (tick w)) w)
    = (res, w2) ->
  exists w',
    provider_streamResponse p messages options env w = (Returned tt, w') /\
    trace w' = trace w2 ++
      match res with
      | Returned response =>
          token_events (delay_of p)
            (snapshots 0 "" (Js.split " " (LLMResponse.content response)))
          ++ [OnComplete (LLMResponse.with_processingTime response
                            (clock env (tick w2) - clock env (tick w)))]
      | Thrown error =>
          [OnError (Js.as_error error (match p with Local => "Local LLM error"
                                                  | _ => "Unknown error" end))]
      end.
Proof.
  destruct p; cbn [provider_streamResponse provider_generateResponse delay_of];
    apply simulateStream_trace.
Qed.

Lemma delays_app evs evs' : delays (evs ++ evs') = delays evs ++ delays evs'.
Proof. apply omap_app. Qed.

Lemma chat_requests_app evs evs' :
  chat_requests (evs ++ evs') = chat_requests evs ++ chat_requests evs'.
Proof. apply omap_app. Qed.

Lemma delays_token_events delay toks :
  delays (token_events delay toks) = repeat delay (length toks).
Proof. induction toks as [|tok toks IH]; cbn; [reflexivity|]. rewrite <- IH. reflexivity. Qed.

Lemma chat_requests_token_events delay toks : chat_requests (token_events delay toks) = [].
Proof. induction toks as [|tok toks IH]; cbn; [reflexivity|exact IH]. Qed.

(** Generating a response takes no pause of the simulated stream. *)
Lemma provider_generateResponse_delays p messages options env w :
  exists evs,
    trace (provider_generateResponse p messages options env w).2 = trace w ++ evs /\
    delays evs = [].
Proof.
  destruct p; cbn [provider_generateResponse].
  - unfold OpenAIProvider.generateResponse, remoteGenerate, chatService. unfold_methods.
    cbn. case_chat; cbn; eexists; (split; [rewrite <- ?app_assoc; reflexivity|reflexivity]).
  - unfold AnthropicProvider.generateResponse, remoteGenerate, chatService. unfold_methods.
    cbn. case_chat; cbn; eexists; (split; [rewrite <- ?app_assoc; reflexivity|reflexivity]).
  - unfold LocalLLMProvider.generateResponse, LocalLLMProvider.generateSimulatedResponse.
    unfold_methods. cbn.
    destruct (FeatureFlagService.isEnabled (featureFlags w) LOCAL_LLM); cbn;
      eexists; (split; [rewrite <- ?app_assoc; reflexivity|reflexivity]).
Qed.

Lemma split_length sep s : length (Js.split sep s) = S (occurrences sep s).
Proof.
  induction s as [|c s IH]; [reflexivity|].
  cbn [Js.split occurrences]. destruct (Ascii.eqb c sep).
  - cbn. rewrite IH. reflexivity.
  - pose proof (split_nonempty sep s) as Hne.
    destruct (Js.split sep s) as [|x xs]; [congruence|]. cbn in IH |- *. exact IH.
Qed.

(** X8. The pace of a provider's simulated stream, when the caller's
    callbacks return. When the provider's [generateResponse] answers, the
    events that follow it are the tokens, each followed by one pause of the
    provider's own delay (50 ms for OpenAI, 40 for Anthropic, 25 for the
    local provider), and then [onComplete]; there are as many tokens as the
    content has spaces, plus one, and as many pauses; the response handed
    to [onComplete] is the generated one with [processingTime] replaced by
    the time from the start of the stream to the end of the word loop. When
    the provider fails, [onError] follows at once: no token and no pause. *)
Theorem X8_stream_pace :
  forall (p : LLMProvider) (caller : StreamingCallback.t) (env : Env)
         (messages : list AIMessage.t) (options : LLMOptions.t) (w : World),
    returns_normally caller ->
    let generated :=
      provider_generateResponse p messages (Some options) env (set_tick (S (tick w)) w) in
    let before := new_events w generated.2 in
    let evs :=
      new_events w (Streaming.provider_streamResponse p messages options caller env w).2 in
    callbacks before = [] /\ delays before = [] /\
    match generated.1 with
    | Returned response =>
        let toks := snapshots 0 "" (Js.split " " (LLMResponse.content response)) in
        let done :=
          LLMResponse.with_processingTime response
            (clock env (tick generated.2) - clock env (tick w)) in
        evs = before ++ token_events (delay_of p) toks ++ [OnComplete done] /\
        length toks = S (occurrences " " (LLMResponse.content response)) /\
        callbacks evs = (OnToken <$> toks) ++ [OnComplete done] /\
        delays evs = repeat (delay_of p) (S (occurrences " " (LLMResponse.content response)))
    | Thrown error =>
        evs = before ++ [OnError (Js.as_error error (match p with
                                                     | Local => "Local LLM error"
                                                     | _ => "Unknown error"
                                                     end))] /\
        delays evs = []
    end.
Proof.
  intros p caller env messages options w Hret. cbv zeta.
  rewrite provider_streamResponse_returning by exact Hret.
  destruct (provider_generateResponse_delays p messages (Some options) env
              (set_tick (S (tick w)) w)) as (gen & Htr & Hnone).
  destruct (provider_generateResponse_post p messages (Some options) env
              (set_tick (S (tick w)) w)) as (gen' & Hpost).
  destruct (provider_generateResponse p messages (Some options) env
              (set_tick (S (tick w)) w)) as [res w2] eqn:Hgen.
  cbn [fst snd] in Htr, Hpost |- *.
  destruct Hpost as [Htr0 _ Hcb _ _ _ _ _].
  rewrite Htr in Htr0. apply app_inv_head in Htr0. subst gen'.
  cbn [trace set_tick] in Htr.
  destruct (provider_streamResponse_trace p messages options env w res w2 Hgen)
    as (w' & -> & Htr').
  cbn [fst snd]. rewrite Htr in Htr'. rewrite <- app_assoc in Htr'.
  rewrite (new_events_app _ _ _ Htr), (new_events_app _ _ _ Htr').
  split; [exact Hcb|]. split; [exact Hnone|].
  destruct res as [response|error].
  - split; [reflexivity|].
    split; [rewrite snapshots_length; apply split_length|].
    split.
    + rewrite !callbacks_app, Hcb, callbacks_token_events. reflexivity.
    + rewrite !delays_app, Hnone, delays_token_events, snapshots_length, split_length.
      cbn. rewrite app_nil_r. reflexivity.
  - split; [reflexivity|]. rewrite delays_app, Hnone. reflexivity.
Qed.

Lemma X8_witness :
  returns_normally StreamingCallback.returning /\
  delays (new_events remote_mode
            (Streaming.provider_streamResponse Anthropic hello
               (LLMOptions.mk None None None None None) StreamingCallback.returning
               (healthy 0) remote_mode).2)
  = repeat 40 7.
Proof.
  assert (Hret : returns_normally StreamingCallback.returning) by (repeat split).
  split; [exact Hret|].
  pose proof (X8_stream_pace Anthropic StreamingCallback.returning (healthy 0) hello
                (LLMOptions.mk None None None None None) remote_mode Hret) as H.
  cbv zeta in H. destruct H as (_ & _ & H).
  assert (Hgen : (provider_generateResponse Anthropic hello
                    (Some (LLMOptions.mk None None None None None)) (healthy 0)
                    (set_tick (S (tick remote_mode)) remote_mode)).1
                 = Returned (LLMResponse.mk "Bonjour ! Comment puis-je vous aider ?" None
                               "claude-3-5-sonnet-20240620" "Anthropic" 12 None))
    by (vm_compute; reflexivity).
  rewrite Hgen in H. destruct H as (_ & _ & _ & H). exact H.
Defined.

(** ** The local provider *)

Lemma localGenerate_enabled messages options env w :
  FeatureFlagService.isEnabled (featureFlags w) LOCAL_LLM = true ->
  exists response w',
    LocalLLMProvider.generateResponse messages options env w = (Returned response, w') /\
    trace w' = trace w ++ local_events /\
    In (LLMResponse.content response) LocalLLMProvider.responses /\
    LLMResponse.provider response = "Local" /\
    LLMResponse.model response = "phi-3-mini" /\
    frame w w' /\ circuit_same w w'.
Proof.
  intros Hon.
  unfold LocalLLMProvider.generateResponse, LocalLLMProvider.generateSimulatedResponse.
  unfold_methods. cbn -[nth LocalLLMProvider.responses Nat.modulo length].
  rewrite Hon. cbn -[nth LocalLLMProvider.responses Nat.modulo length].
  eexists _, _. split; [reflexivity|].
  cbn -[nth LocalLLMProvider.responses Nat.modulo length].
  split; [rewrite <- !app_assoc; reflexivity|].
  split; [|repeat split; reflexivity].
  apply nth_In. apply Nat.mod_upper_bound. discriminate.
Qed.

Lemma resolve_local f :
  FeatureFlagService.isEnabled f LOCAL_LLM = true -> resolve f = Local.
Proof.
  intros H. unfold resolve. rewrite H.
  destruct (FeatureFlagService.isEnabled f STRICT_LOCAL_MODE); reflexivity.
Qed.

(** X9. With the local-model flag enabled the conversation stays on the
    device. [generateResponse] is served by the local provider alone, as
    long as its circuit is closed: the answer is one of the four canned
    texts, attributed to [Local]; the local provider is the only provider
    entered, the simulated inference runs once, and no request is sent to
    a chat backend. The service's [streamResponse], called with callbacks
    that return, streams from the local provider and sends no request
    either. *)
Theorem X9_local_model_stays_on_device :
  forall (env : Env) (messages : list AIMessage.t) (w : World),
    factory_ok w = true ->
    FeatureFlagService.isEnabled (featureFlags w) LOCAL_LLM = true ->
    (forall options,
       failures "Local" w < 3 ->
       exists response,
         (ResilientLLMService.generateResponse messages options env w).1
           = Returned response /\
         LLMResponse.provider response = "Local" /\
         In (LLMResponse.content response) LocalLLMProvider.responses /\
         let evs :=
           new_events w (ResilientLLMService.generateResponse messages options env w).2 in
         generated evs = ["Local"] /\ chat_requests evs = [] /\
         List.filter is_inference evs = [Inference "Local"]) /\
    (forall options caller,
       returns_normally caller ->
       let evs :=
         new_events w (Streaming.streamResponse messages options caller env w).2 in
       generated evs = ["Local"] /\ chat_requests evs = []).
Proof.
  intros env messages w Hok Hon. split.
  - intros options Hlt.
    assert (Hrun : exists response w',
               ResilientLLMService.generateResponse messages options env w
                 = (Returned response, w') /\
               LLMResponse.provider response = "Local" /\
               In (LLMResponse.content response) LocalLLMProvider.responses /\
               trace w' = trace w ++ local_events).
    { unfold ResilientLLMService.generateResponse. rewrite run_bind.
      destruct (initializeProviders_run env w) as (m & p & fs & -> & Hinit).
      destruct (Hinit Hok) as (-> & -> & _). rewrite (resolve_local _ Hon).
      set (w0 := mkWorld _ _ _ _ _ _ _ _).
      rewrite run_bind, tryPrimary_unfold, run_bind. cbn [gets]. rewrite run_bind.
      change (primaryProvider w0) with Local.
      rewrite shouldAttemptProvider_closed by exact Hlt.
      unfold attemptBody. rewrite run_try_catch, run_bind, provider_isAvailable_run.
      change (available Local w0)
        with (FeatureFlagService.isEnabled (featureFlags w) LOCAL_LLM).
      rewrite Hon, run_bind. unfold emits at 1. cbn [modify foldl]. rewrite run_bind.
      destruct (localGenerate_enabled messages options env w0 Hon)
        as (response & w1 & Hrun & Htr & Hin & Hprov & _).
      cbn [provider_generateResponse]. rewrite Hrun.
      rewrite run_bind, recordSuccess_run. cbn [ret].
      eexists response, _. split; [reflexivity|]. split; [exact Hprov|].
      split; [exact Hin|]. cbn. exact Htr. }
    destruct Hrun as (response & w' & -> & Hprov & Hin & Htr). cbn [fst snd].
    exists response. split; [reflexivity|]. split; [exact Hprov|]. split; [exact Hin|].
    cbv zeta. rewrite (new_events_app _ _ _ Htr). repeat split.
  - intros options caller Hret. cbv zeta.
    rewrite streamResponse_returning by exact Hret.
    destruct (streamResponse_run messages options env w) as (w0 & Hinit & ->).
    destruct (initializeProviders_state env w w0 Hinit) as (Htr & _ & Hfl & _ & _ & Hp).
    rewrite (Hp Hok), (resolve_local _ Hon).
    assert (Hon0 : FeatureFlagService.isEnabled (featureFlags w0) LOCAL_LLM = true)
      by (rewrite Hfl; exact Hon).
    cbn [available]. rewrite Hon0.
    destruct (localGenerate_enabled messages (Some options) env (set_tick (S (tick w0)) w0)
                Hon0) as (response & w1 & Hrun & Htr1 & _).
    destruct (provider_streamResponse_trace Local messages options env w0 _ _ Hrun)
      as (w' & -> & Htr').
    cbn [snd]. rewrite (new_events_same_trace w w0 w' Htr).
    rewrite Htr1 in Htr'. cbn [trace set_tick] in Htr'. rewrite <- app_assoc in Htr'.
    rewrite (new_events_app _ _ _ Htr'). split.
    + rewrite !generated_app.
      assert (Hnone : forall l, generated (token_events (delay_of Local) l) = [])
        by (induction l; cbn; auto).
      rewrite Hnone. reflexivity.
    + rewrite !chat_requests_app, chat_requests_token_events. reflexivity.
Qed.

Lemma X9_witness :
  exists response,
    (ResilientLLMService.generateResponse hello None (outage 1000)
       (set_featureFlags
          (FeatureFlagService.setFlagOverride LOCAL_LLM true (featureFlags started))
          started)).1 = Returned response /\
    LLMResponse.provider response = "Local".
Proof.
  destruct (X9_local_model_stays_on_device (outage 1000) hello
              (set_featureFlags
                 (FeatureFlagService.setFlagOverride LOCAL_LLM true (featureFlags started))
                 started))
    as (Hgen & _); [vm_compute; reflexivity..|].
  destruct (Hgen None) as (response & Hrun & Hprov & _); [vm_compute; reflexivity|].
  exists response. split; [exact Hrun|exact Hprov].
Defined.

(** ** The feature flags: rollout *)

Lemma to_int32_range z : - 2 ^ 31 <= Js.to_int32 z < 2 ^ 31.
Proof.
  unfold Js.to_int32.
  pose proof (Z.mod_pos_bound (z + 2 ^ 31) (2 ^ 32) ltac:(lia)). lia.
Qed.

Lemma and32_range a b : - 2 ^ 31 <= Js.and32 a b < 2 ^ 31.
Proof. exact (to_int32_range _). Qed.

Lemma hashLoop_step c rest h :
  FeatureFlagService.hashLoop (String c rest) h
  = FeatureFlagService.hashLoop rest
      (Js.and32 (Js.shl32 h 5 - h + Z.of_N (N_of_ascii c))
                (Js.shl32 h 5 - h + Z.of_N (N_of_ascii c))).
Proof.
  lazy beta iota zeta delta [FeatureFlagService.hashLoop].
  fold FeatureFlagService.hashLoop. reflexivity.
Qed.

Lemma hashLoop_range chars h :
  - 2 ^ 31 <= h < 2 ^ 31 ->
  - 2 ^ 31 <= FeatureFlagService.hashLoop chars h < 2 ^ 31.
Proof.
  revert h. induction chars as [|c chars IH]; intros h Hh; [exact Hh|].
  rewrite hashLoop_step. apply IH. apply and32_range.
Qed.

Lemma hashUserId_range id : 0 <= FeatureFlagService.hashUserId id <= 2 ^ 31.
Proof.
  unfold FeatureFlagService.hashUserId.
  pose proof (hashLoop_range id 0 ltac:(lia)). lia.
Qed.

Lemma percentile_range s : 0 <= percentile s < 100.
Proof.
  unfold percentile. apply Z.rem_bound_pos; [apply hashUserId_range|lia].
Qed.

Lemma isEnabled_initialized s k f :
  FeatureFlagService.flags s !! flag_key k = Some f ->
  FeatureFlagService.initialized s = true ->
  FeatureFlagService.isEnabled s k =
  enabled f && match rolloutPercentage f with
               | Some p => bool_decide (100 <= p \/ percentile s < p)
               | None => true
               end.
Proof.
  intros Hf Hi. unfold FeatureFlagService.isEnabled. rewrite Hi, Hf. cbn [negb].
  destruct (rolloutPercentage f) as [p|]; [|rewrite andb_true_r; reflexivity].
  fold (percentile s). pose proof (percentile_range s) as Hrange.
  destruct (Z.ltb_spec p 100) as [Hp|Hp].
  - f_equal. destruct (Z.ltb_spec (percentile s) p) as [Hq|Hq].
    + symmetry. apply bool_decide_eq_true. right. exact Hq.
    + symmetry. apply bool_decide_eq_false. lia.
  - rewrite bool_decide_eq_true_2 by (left; exact Hp). rewrite andb_true_r. reflexivity.
Qed.

(** X10. The rollout check of [isEnabled]. Every user id has a percentile
    from 0 to 99. Before [initialize] has run, a known flag is its [enabled]
    bit and the rollout percentage is ignored. Afterwards a flag with a
    rollout percentage is on exactly when its bit is set and the percentage
    is at least 100 or above the user's percentile; so a percentage of 0 or
    less switches the flag off for every user. *)
Theorem X10_rollout_check :
  forall (s : FeatureFlagService.t) (k : FeatureFlags) (f : FeatureFlag),
    FeatureFlagService.flags s !! flag_key k = Some f ->
    0 <= percentile s < 100 /\
    (FeatureFlagService.initialized s = false ->
     FeatureFlagService.isEnabled s k = enabled f) /\
    (FeatureFlagService.initialized s = true ->
     FeatureFlagService.isEnabled s k =
     enabled f && match rolloutPercentage f with
                  | Some p => bool_decide (100 <= p \/ percentile s < p)
                  | None => true
                  end) /\
    (FeatureFlagService.initialized s = true ->
     forall p, rolloutPercentage f = Some p -> p <= 0 ->
               FeatureFlagService.isEnabled s k = false).
Proof.
  intros s k f Hf. pose proof (percentile_range s) as Hrange.
  split; [exact Hrange|].
  pose proof (isEnabled_initialized s k f Hf) as Hon.
  split; [|split; [exact Hon|]].
  - intros Hi. unfold FeatureFlagService.isEnabled. rewrite Hi, Hf. reflexivity.
  - intros Hi p Hp Hle. rewrite (Hon Hi), Hp.
    rewrite bool_decide_eq_false_2 by lia. apply andb_false_r.
Qed.

Lemma X10_witness :
  FeatureFlagService.isEnabled (FeatureFlagService.new false) LOCAL_LLM = false.
Proof.
  destruct (X10_rollout_check (FeatureFlagService.new false) LOCAL_LLM
              (FeatureFlagService.flag LOCAL_LLM false "On-device LLM processing" (Some 20)))
    as (_ & Hoff & _); [vm_compute; reflexivity|].
  rewrite Hoff; reflexivity.
Defined.

(** ** The feature flags: what [initialize] reads *)

Lemma flag_key_inj k k' : flag_key k = flag_key k' -> k = k'.
Proof.
  intros H. apply String.eqb_eq in H.
  destruct k, k'; try reflexivity; vm_compute in H; discriminate H.
Qed.

Lemma overridden_empty k f : overridden ∅ k f = f.
Proof. unfold overridden. rewrite lookup_empty. reflexivity. Qed.

Lemma fmap_overridden_empty (v : option FeatureFlag) k : v = overridden ∅ k <$> v.
Proof.
  destruct v as [f|]; [|reflexivity].
  change (Some f = Some (overridden ∅ k f)). rewrite overridden_empty. reflexivity.
Qed.

Lemma applyOverrides_lookup (l : list (string * bool)) m k :
  NoDup l.*1 ->
  foldl FeatureFlagService.applyOverride m l !! k
  = overridden (list_to_map l) k <$> m !! k.
Proof.
  revert m. induction l as [|[k0 b0] l IH]; intros m Hnd.
  - cbn [foldl list_to_map]. apply fmap_overridden_empty.
  - cbn in Hnd. apply NoDup_cons in Hnd. destruct Hnd as (Hnot & Hnd).
    cbn [foldl]. rewrite (IH _ Hnd).
    unfold FeatureFlagService.applyOverride, overridden. cbn [fst snd].
    rewrite list_to_map_cons.
    destruct (decide (k = k0)) as [->|Hne].
    + rewrite lookup_insert_eq, (not_elem_of_list_to_map_1 _ _ Hnot).
      destruct (m !! k0) as [f|] eqn:E.
      * rewrite lookup_insert_eq. reflexivity.
      * rewrite E. reflexivity.
    + rewrite lookup_insert_ne by congruence.
      destruct (m !! k0) as [f|] eqn:E; [rewrite lookup_insert_ne by congruence|];
        reflexivity.
Qed.

Lemma initialize_lookup rejects id x k :
  FeatureFlagService.flags
    (FeatureFlagStore.service (FeatureFlagStore.initialize rejects id x)) !! k
  = overridden (FeatureFlagStore.getStoredOverrides rejects (FeatureFlagStore.storage x)).1 k
      <$> FeatureFlagService.flags (FeatureFlagStore.service x) !! k.
Proof.
  unfold FeatureFlagStore.initialize, FeatureFlagStore.getStoredOverrides,
    AsyncStorage.getItem.
  destruct (rejects _); cbn [fst snd FeatureFlagStore.service FeatureFlagService.flags
                               FeatureFlagService.initialize].
  - apply fmap_overridden_empty.
  - destruct (AsyncStorage.item (FeatureFlagStore.storage x)) as [o|];
      cbn [fst snd FeatureFlagStore.service FeatureFlagService.flags
           FeatureFlagService.initialize].
    + rewrite applyOverrides_lookup by apply NoDup_fst_map_to_list.
      rewrite list_to_map_to_list. reflexivity.
    + apply fmap_overridden_empty.
Qed.

(** X11. [initialize] changes nothing but [enabled] bits. It always ends
    initialized, with the given user id or ['anonymous'] for a missing or
    empty one; a flag is there afterwards exactly when it was before, with
    the stored override as its bit where the stored object has its key and
    otherwise as it was; keys of the stored object that are not flags are
    ignored; a rejected read leaves every flag as it was; and the storage
    is only read. *)
Theorem X11_initialize_only_overrides :
  forall (rejects : nat -> bool) (id : option string) (x : FeatureFlagStore.t),
    let x' := FeatureFlagStore.initialize rejects id x in
    let stored :=
      (FeatureFlagStore.getStoredOverrides rejects (FeatureFlagStore.storage x)).1 in
    FeatureFlagService.initialized (FeatureFlagStore.service x') = true /\
    FeatureFlagService.userId (FeatureFlagStore.service x')
      = Some (Js.string_or id "anonymous") /\
    (forall k : string,
       FeatureFlagService.flags (FeatureFlagStore.service x') !! k
       = overridden stored k <$> FeatureFlagService.flags (FeatureFlagStore.service x) !! k) /\
    (rejects (AsyncStorage.calls (FeatureFlagStore.storage x)) = true ->
     FeatureFlagService.flags (FeatureFlagStore.service x')
     = FeatureFlagService.flags (FeatureFlagStore.service x)) /\
    AsyncStorage.item (FeatureFlagStore.storage x')
      = AsyncStorage.item (FeatureFlagStore.storage x).
Proof.
  intros rejects id x. cbv zeta.
  split; [|split; [|split; [|split]]].
  - unfold FeatureFlagStore.initialize, AsyncStorage.getItem.
    destruct (rejects _); [reflexivity|].
    destruct (AsyncStorage.item _); reflexivity.
  - unfold FeatureFlagStore.initialize, AsyncStorage.getItem.
    destruct (rejects _); [reflexivity|].
    destruct (AsyncStorage.item _); reflexivity.
  - intros k. apply initialize_lookup.
  - intros Hrej. unfold FeatureFlagStore.initialize, AsyncStorage.getItem.
    rewrite Hrej. reflexivity.
  - unfold FeatureFlagStore.initialize, AsyncStorage.getItem.
    destruct (rejects _); reflexivity.
Qed.

(** ** The feature flags: defaults *)

Lemma foldl_set_lookup (l : list FeatureFlag) (m0 : gmap string FeatureFlag) k :
  foldl (fun (m : gmap string FeatureFlag) f => <[key f := f]> m) m0 l !! k
  = match foldl (fun (m : gmap string FeatureFlag) f => <[key f := f]> m) ∅ l !! k with
    | Some f => Some f
    | None => m0 !! k
    end.
Proof.
  induction l as [|f l IH] using rev_ind.
  - cbn. rewrite lookup_empty. reflexivity.
  - rewrite !foldl_app. cbn [foldl].
    destruct (decide (k = key f)) as [->|Hne].
    + rewrite !lookup_insert_eq. reflexivity.
    + rewrite !lookup_insert_ne by congruence. exact IH.
Qed.

Lemma default_flag_some dev k :
  exists f, default_flag dev k = Some f /\ key f = flag_key k /\
            (k <> DEBUG_MODE -> k <> MOCK_AUTHENTICATION ->
             default_flag (negb dev) k = Some f).
Proof.
  destruct dev, k; eexists; (split; [vm_compute; reflexivity|]);
    (split; [reflexivity|]); intros H1 H2; first [reflexivity|congruence].
Qed.

Lemma initializeDefaultFlags_lookup dev s k :
  FeatureFlagService.flags (FeatureFlagService.initializeDefaultFlags dev s) !! flag_key k
  = default_flag dev k.
Proof.
  destruct (default_flag_some dev k) as (f & Hf & _).
  unfold FeatureFlagService.initializeDefaultFlags. cbn [FeatureFlagService.flags].
  rewrite foldl_set_lookup.
  change (foldl (fun (m : gmap string FeatureFlag) f => <[key f := f]> m) ∅
                (FeatureFlagService.defaultFlags dev) !! flag_key k)
    with (default_flag dev k).
  rewrite Hf. reflexivity.
Qed.

(** ** The feature flags: persisted overrides *)

Lemma getStoredOverrides_run rejects st :
  FeatureFlagStore.getStoredOverrides rejects st
  = (if rejects (AsyncStorage.calls st) then ∅ else default ∅ (AsyncStorage.item st),
     AsyncStorage.mk (AsyncStorage.item st) (S (AsyncStorage.calls st))).
Proof.
  unfold FeatureFlagStore.getStoredOverrides, AsyncStorage.getItem.
  destruct (rejects _); [reflexivity|]. destruct (AsyncStorage.item st); reflexivity.
Qed.

Lemma setFlagOverride_run rejects k on x f :
  FeatureFlagStore.getFlag k x = Some f ->
  let st := FeatureFlagStore.storage x in
  let s := FeatureFlagStore.service x in
  FeatureFlagStore.setFlagOverride rejects k on x
  = FeatureFlagStore.mk
      (FeatureFlagService.mk
         (<[flag_key k := FeatureFlagService.with_enabled f on]> (FeatureFlagService.flags s))
         (FeatureFlagService.userId s) (FeatureFlagService.initialized s))
      (AsyncStorage.mk
         (if rejects (S (AsyncStorage.calls st)) then AsyncStorage.item st
          else Some (<[flag_key k := on]>
                       (if rejects (AsyncStorage.calls st) then ∅
                        else default ∅ (AsyncStorage.item st))))
         (S (S (AsyncStorage.calls st)))).
Proof.
  unfold FeatureFlagStore.getFlag. intros Hf. cbv zeta.
  unfold FeatureFlagStore.setFlagOverride, FeatureFlagService.setFlagOverride.
  rewrite Hf, getStoredOverrides_run. unfold AsyncStorage.setItem.
  cbn [AsyncStorage.calls AsyncStorage.item].
  destruct (rejects (S _)); reflexivity.
Qed.

Lemma restart_lookup dev rejects id st k :
  FeatureFlagStore.getFlag k
    (FeatureFlagStore.initialize rejects id (fresh_process dev st))
  = overridden (FeatureFlagStore.getStoredOverrides rejects st).1 (flag_key k)
      <$> default_flag dev k.
Proof. unfold FeatureFlagStore.getFlag. rewrite initialize_lookup. reflexivity. Qed.

(** X12. An override set through [setFlagOverride] survives a restart.
    When the flag exists and the storage takes the read and the write, the
    flag's bit is the new value at once and no other flag changes; the
    stored object is the old one with this key set, so the other persisted
    overrides are kept; and a process that starts afterwards on this
    storage and initializes finds the flag at the overriding value. *)
Theorem X12_override_survives_restart :
  forall (dev : bool) (rejects : nat -> bool) (k : FeatureFlags) (on : bool)
         (x : FeatureFlagStore.t) (f : FeatureFlag),
    FeatureFlagStore.getFlag k x = Some f ->
    rejects (AsyncStorage.calls (FeatureFlagStore.storage x)) = false ->
    rejects (S (AsyncStorage.calls (FeatureFlagStore.storage x))) = false ->
    let x' := FeatureFlagStore.setFlagOverride rejects k on x in
    FeatureFlagStore.getFlag k x' = Some (FeatureFlagService.with_enabled f on) /\
    (forall k', k' <> k ->
                FeatureFlagStore.getFlag k' x' = FeatureFlagStore.getFlag k' x) /\
    AsyncStorage.item (FeatureFlagStore.storage x')
      = Some (<[flag_key k := on]>
                (default ∅ (AsyncStorage.item (FeatureFlagStore.storage x)))) /\
    (forall rejects' id st,
       AsyncStorage.item st = AsyncStorage.item (FeatureFlagStore.storage x') ->
       rejects' (AsyncStorage.calls st) = false ->
       enabled <$> FeatureFlagStore.getFlag k
                     (FeatureFlagStore.initialize rejects' id (fresh_process dev st))
       = Some on).
Proof.
  intros dev rejects k on x f Hf Hread Hwrite. cbv zeta.
  rewrite (setFlagOverride_run rejects k on x f Hf). cbv zeta. rewrite Hread, Hwrite.
  cbn [FeatureFlagStore.storage AsyncStorage.item].
  split; [apply lookup_insert_eq|]. split; [|split; [reflexivity|]].
  - intros k' Hk'. unfold FeatureFlagStore.getFlag.
    cbn [FeatureFlagStore.service FeatureFlagService.flags].
    apply lookup_insert_ne. intros H. apply flag_key_inj in H. congruence.
  - intros rejects' id st Hitem Hok.
    rewrite restart_lookup, getStoredOverrides_run, Hok, Hitem. cbn [fst default].
    destruct (default_flag_some dev k) as (f0 & -> & _).
    unfold overridden, Datatypes.id. rewrite lookup_insert_eq. reflexivity.
Qed.

Lemma X12_witness :
  enabled <$> FeatureFlagStore.getFlag LOCAL_LLM
    (FeatureFlagStore.initialize reliable None
       (fresh_process false
          (FeatureFlagStore.storage
             (FeatureFlagStore.setFlagOverride reliable LOCAL_LLM true
                (fresh_process false (fresh_storage None))))))
  = Some true.
Proof.
  destruct (X12_override_survives_restart false reliable LOCAL_LLM true
              (fresh_process false (fresh_storage None))
              (FeatureFlagService.flag LOCAL_LLM false "On-device LLM processing" (Some 20)))
    as (_ & _ & _ & Hrestart); [vm_compute; reflexivity|reflexivity|reflexivity|].
  apply Hrestart; reflexivity.
Defined.

(** X13. What a failing storage does to an override. When the write is
    rejected, the override is in memory only: the stored object is as it
    was, and with nothing stored before, a process that starts afterwards
    finds the flag at its default. When it is the read that is
    rejected and the write that goes through, the stored object is
    replaced by one holding this override alone: every other persisted
    override is dropped. In both cases the flag changes in memory and
    nothing is reported to the caller. *)
Theorem X13_override_on_failing_storage :
  forall (dev : bool) (rejects : nat -> bool) (k : FeatureFlags) (on : bool)
         (x : FeatureFlagStore.t) (f : FeatureFlag),
    FeatureFlagStore.getFlag k x = Some f ->
    let st := FeatureFlagStore.storage x in
    let x' := FeatureFlagStore.setFlagOverride rejects k on x in
    FeatureFlagStore.getFlag k x' = Some (FeatureFlagService.with_enabled f on) /\
    (rejects (S (AsyncStorage.calls st)) = true ->
     AsyncStorage.item (FeatureFlagStore.storage x') = AsyncStorage.item st /\
     (AsyncStorage.item st = None ->
      forall rejects' id st',
        AsyncStorage.item st' = AsyncStorage.item (FeatureFlagStore.storage x') ->
        FeatureFlagStore.getFlag k
          (FeatureFlagStore.initialize rejects' id (fresh_process dev st'))
        = default_flag dev k)) /\
    (rejects (AsyncStorage.calls st) = true ->
     rejects (S (AsyncStorage.calls st)) = false ->
     AsyncStorage.item (FeatureFlagStore.storage x') = Some {[flag_key k := on]}).
Proof.
  intros dev rejects k on x f Hf. cbv zeta.
  rewrite (setFlagOverride_run rejects k on x f Hf). cbv zeta.
  cbn [FeatureFlagStore.service FeatureFlagStore.storage AsyncStorage.item].
  split; [apply lookup_insert_eq|]. split.
  - intros ->. split; [reflexivity|].
    intros Hnone rejects' id st' Hitem.
    rewrite restart_lookup, getStoredOverrides_run, Hitem, Hnone. cbn [fst default].
    symmetry. destruct (rejects' _); apply fmap_overridden_empty.
  - intros -> ->. rewrite insert_empty. reflexivity.
Qed.

Lemma X13_witness :
  let rejects := fun n : nat => Nat.eqb n 0 in
  let x := fresh_process false
             (fresh_storage (Some {[ "dark_mode" := true ]})) in
  AsyncStorage.item
    (FeatureFlagStore.storage (FeatureFlagStore.setFlagOverride rejects LOCAL_LLM true x))
  = Some {[ "local_llm" := true ]}.
Proof.
  cbv zeta.
  destruct (X13_override_on_failing_storage false (fun n : nat => Nat.eqb n 0)
              LOCAL_LLM true
              (fresh_process false (fresh_storage (Some {[ "dark_mode" := true ]})))
              (FeatureFlagService.flag LOCAL_LLM false "On-device LLM processing" (Some 20)))
    as (_ & _ & Hlost); [vm_compute; reflexivity|].
  apply Hlost; reflexivity.
Defined.

(** X14. [clearFlagOverride] resets more than one flag. When the storage
    takes its three calls, the key is removed from the stored object, the
    flag is back at its default, and every flag is its default with the
    remaining stored overrides applied, so a change that was in memory
    only is lost for every flag. When the write is rejected, nothing
    changes: the flag keeps its overridden value and the stored object
    keeps the key. *)
Theorem X14_clear_resets_to_stored :
  forall (dev : bool) (rejects : nat -> bool) (k : FeatureFlags) (x : FeatureFlagStore.t),
    let st := FeatureFlagStore.storage x in
    let stored := default ∅ (AsyncStorage.item st) in
    let x' := FeatureFlagStore.clearFlagOverride dev rejects k x in
    (rejects (AsyncStorage.calls st) = false ->
     rejects (S (AsyncStorage.calls st)) = false ->
     rejects (S (S (AsyncStorage.calls st))) = false ->
     AsyncStorage.item (FeatureFlagStore.storage x') = Some (delete (flag_key k) stored) /\
     FeatureFlagStore.getFlag k x' = default_flag dev k /\
     (forall k', FeatureFlagStore.getFlag k' x'
                 = overridden (delete (flag_key k) stored) (flag_key k')
                     <$> default_flag dev k') /\
     FeatureFlagService.initialized (FeatureFlagStore.service x') = true) /\
    (rejects (S (AsyncStorage.calls st)) = true ->
     FeatureFlagStore.service x' = FeatureFlagStore.service x /\
     AsyncStorage.item (FeatureFlagStore.storage x') = AsyncStorage.item st).
Proof.
  intros dev rejects k x. cbv zeta.
  unfold FeatureFlagStore.clearFlagOverride.
  rewrite getStoredOverrides_run. unfold AsyncStorage.setItem.
  cbn [AsyncStorage.calls AsyncStorage.item]. split.
  - intros H0 H1 H2. rewrite H0, H1.
    set (st2 := AsyncStorage.mk _ _).
    set (x1 := FeatureFlagStore.mk _ st2).
    assert (Hall : forall k',
               FeatureFlagStore.getFlag k'
                 (FeatureFlagStore.initialize rejects
                    (FeatureFlagService.userId (FeatureFlagStore.service x)) x1)
               = overridden
                   (delete (flag_key k)
                      (default ∅ (AsyncStorage.item (FeatureFlagStore.storage x))))
                   (flag_key k') <$> default_flag dev k').
    { intros k'. unfold FeatureFlagStore.getFlag.
      rewrite initialize_lookup, getStoredOverrides_run.
      subst x1 st2. cbn [FeatureFlagStore.storage FeatureFlagStore.service
                         AsyncStorage.calls AsyncStorage.item fst default].
      rewrite H2, initializeDefaultFlags_lookup. reflexivity. }
    split; [|split; [|split; [exact Hall|]]].
    + unfold FeatureFlagStore.initialize, AsyncStorage.getItem. reflexivity.
    + rewrite Hall. destruct (default_flag dev k) as [f|]; [|reflexivity].
      cbn. unfold overridden. rewrite lookup_delete_eq. reflexivity.
    + unfold FeatureFlagStore.initialize, AsyncStorage.getItem.
      subst x1 st2. cbn [FeatureFlagStore.storage AsyncStorage.calls AsyncStorage.item].
      rewrite H2. reflexivity.
  - intros ->. split; reflexivity.
Qed.

Lemma X14_witness :
  FeatureFlagStore.getFlag DARK_MODE
    (FeatureFlagStore.clearFlagOverride false reliable DARK_MODE
       (FeatureFlagStore.setFlagOverride reliable DARK_MODE true
          (fresh_process false (fresh_storage None))))
  = default_flag false DARK_MODE.
Proof.
  destruct (X14_clear_resets_to_stored false reliable DARK_MODE
              (FeatureFlagStore.setFlagOverride reliable DARK_MODE true
                 (fresh_process false (fresh_storage None))))
    as (Hclear & _).
  destruct Hclear as (_ & Hflag & _); [reflexivity..|]. exact Hflag.
Defined.

(** ** The feature flags: the development helpers *)

(** X15. The development helpers. Outside a development build
    [enableAllFlags] and [resetAllFlags] do nothing at all, the storage
    included. In a development build, when the storage takes the calls,
    [resetAllFlags] removes the stored object and puts every flag back at
    its default, and [enableAllFlags] sets the bit of every flag; but it
    leaves the rollout percentages alone and it initializes the service, so
    afterwards a flag with a rollout percentage is on only for the users
    inside the rollout. A rejected first call rejects the helper and leaves
    the flags as they were. *)
Theorem X15_development_helpers :
  forall (rejects : nat -> bool) (x : FeatureFlagStore.t),
    let st := FeatureFlagStore.storage x in
    (FeatureFlagStore.enableAllFlags false rejects x = (true, x) /\
     FeatureFlagStore.resetAllFlags false rejects x = (true, x)) /\
    (rejects (AsyncStorage.calls st) = false ->
     rejects (S (AsyncStorage.calls st)) = false ->
     (let x' := (FeatureFlagStore.resetAllFlags true rejects x).2 in
      (FeatureFlagStore.resetAllFlags true rejects x).1 = true /\
      AsyncStorage.item (FeatureFlagStore.storage x') = None /\
      forall k, FeatureFlagStore.getFlag k x' = default_flag true k) /\
     (let x' := (FeatureFlagStore.enableAllFlags true rejects x).2 in
      (FeatureFlagStore.enableAllFlags true rejects x).1 = true /\
      forall k f,
        FeatureFlagStore.getFlag k x = Some f ->
        FeatureFlagStore.getFlag k x' = Some (FeatureFlagService.with_enabled f true) /\
        FeatureFlagService.isEnabled (FeatureFlagStore.service x') k
        = match rolloutPercentage f with
          | Some p => bool_decide (100 <= p \/ percentile (FeatureFlagStore.service x') < p)
          | None => true
          end)) /\
    (rejects (AsyncStorage.calls st) = true ->
     FeatureFlagStore.enableAllFlags true rejects x
       = (false, FeatureFlagStore.mk (FeatureFlagStore.service x)
                   (AsyncStorage.mk (AsyncStorage.item st) (S (AsyncStorage.calls st)))) /\
     FeatureFlagStore.resetAllFlags true rejects x
       = (false, FeatureFlagStore.mk (FeatureFlagStore.service x)
                   (AsyncStorage.mk (AsyncStorage.item st) (S (AsyncStorage.calls st))))).
Proof.
  intros rejects x. cbv zeta. split; [split; reflexivity|]. split.
  - intros H0 H1. split.
    + unfold FeatureFlagStore.resetAllFlags, AsyncStorage.removeItem.
      rewrite H0. cbn [negb fst snd].
      set (x1 := FeatureFlagStore.mk _ _).
      split; [reflexivity|]. split.
      * unfold FeatureFlagStore.initialize, AsyncStorage.getItem. reflexivity.
      * intros k. unfold FeatureFlagStore.getFlag.
        rewrite initialize_lookup, getStoredOverrides_run.
        subst x1. cbn [FeatureFlagStore.storage FeatureFlagStore.service
                       AsyncStorage.calls AsyncStorage.item fst default].
        rewrite H1, initializeDefaultFlags_lookup.
        symmetry. apply fmap_overridden_empty.
    + unfold FeatureFlagStore.enableAllFlags, AsyncStorage.setItem.
      rewrite H0. cbn [negb fst snd].
      set (x1 := FeatureFlagStore.mk _ _).
      split; [reflexivity|]. intros k f Hf.
      assert (Hflag : FeatureFlagStore.getFlag k
                        (FeatureFlagStore.initialize rejects
                           (FeatureFlagService.userId (FeatureFlagStore.service x)) x1)
                      = Some (FeatureFlagService.with_enabled f true)).
      { unfold FeatureFlagStore.getFlag in Hf |- *.
        rewrite initialize_lookup, getStoredOverrides_run.
        subst x1. cbn [FeatureFlagStore.storage FeatureFlagStore.service
                       AsyncStorage.calls AsyncStorage.item fst default].
        rewrite H1, Hf. unfold Datatypes.id, overridden.
        rewrite lookup_fmap, Hf. reflexivity. }
      split; [exact Hflag|].
      rewrite (isEnabled_initialized _ k _ Hflag).
      * reflexivity.
      * unfold FeatureFlagStore.initialize, AsyncStorage.getItem.
        subst x1. cbn [FeatureFlagStore.storage AsyncStorage.calls AsyncStorage.item].
        rewrite H1. reflexivity.
  - intros H0.
    unfold FeatureFlagStore.enableAllFlags, FeatureFlagStore.resetAllFlags,
      AsyncStorage.setItem, AsyncStorage.removeItem.
    rewrite H0. split; reflexivity.
Qed.

Lemma X15_witness :
  FeatureFlagService.isEnabled
    (FeatureFlagStore.service
       (FeatureFlagStore.enableAllFlags true reliable
          (fresh_process true (fresh_storage None))).2) LOCAL_LLM = false.
Proof.
  destruct (X15_development_helpers reliable (fresh_process true (fresh_storage None)))
    as (_ & Hdev & _).
  destruct Hdev as (_ & _ & Hall); [reflexivity..|].
  destruct (Hall LOCAL_LLM
              (FeatureFlagService.flag LOCAL_LLM false "On-device LLM processing" (Some 20)))
    as (_ & ->); [vm_compute; reflexivity|].
  vm_compute. reflexivity.
Defined.

(** ** PerformanceMonitor *)

(** X16. The metrics buffer is bounded. With monitoring enabled
    [recordMetric] appends the stamped measurement as the newest entry;
    a buffer of at most 1000 entries stays at most 1000 entries long, and
    the entry that would be the 1001st cuts the buffer down to the newest
    500, the new one included, not to 1000. With monitoring disabled
    nothing is recorded and nothing is logged. *)
Theorem X16_metrics_buffer_is_bounded :
  forall (enabled : bool) (now : Z) (m : PerformanceMonitor.MetricType) (v : Z)
         (s : PerformanceMonitor.t),
    (length (PerformanceMonitor.metrics s) <= 1000)%nat ->
    let s' := (PerformanceMonitor.recordMetric enabled now m v s).1 in
    let entry := PerformanceMonitor.mkMetric m v now (PerformanceMonitor.session s) in
    (length (PerformanceMonitor.metrics s') <= 1000)%nat /\
    (enabled = false -> PerformanceMonitor.recordMetric enabled now m v s = (s, [])) /\
    (enabled = true -> last (PerformanceMonitor.metrics s') = Some entry) /\
    (enabled = true -> (length (PerformanceMonitor.metrics s) < 1000)%nat ->
     PerformanceMonitor.metrics s' = PerformanceMonitor.metrics s ++ [entry]) /\
    (enabled = true -> length (PerformanceMonitor.metrics s) = 1000%nat ->
     PerformanceMonitor.metrics s' = drop 501 (PerformanceMonitor.metrics s) ++ [entry] /\
     length (PerformanceMonitor.metrics s') = 500%nat).
Proof.
  intros enabled now m v s Hlen. cbv zeta.
  unfold PerformanceMonitor.recordMetric.
  destruct enabled; cbn [negb fst PerformanceMonitor.metrics].
  2:{ split; [exact Hlen|]. split; [reflexivity|]. repeat split; discriminate. }
  rewrite length_app. cbn [length].
  destruct (Nat.ltb_spec 1000 (length (PerformanceMonitor.metrics s) + 1)) as [Hfull|Hroom].
  - assert (Hk : length (PerformanceMonitor.metrics s) = 1000%nat) by lia.
    rewrite Hk. change (1000 + 1 - 500)%nat with 501%nat.
    assert (Hdrop : drop 501 (PerformanceMonitor.metrics s ++
                     [PerformanceMonitor.mkMetric m v now (PerformanceMonitor.session s)])
                    = drop 501 (PerformanceMonitor.metrics s) ++
                      [PerformanceMonitor.mkMetric m v now (PerformanceMonitor.session s)]).
    { rewrite drop_app_le by lia. reflexivity. }
    rewrite Hdrop.
    assert (Hl : length (drop 501 (PerformanceMonitor.metrics s) ++
                   [PerformanceMonitor.mkMetric m v now (PerformanceMonitor.session s)])
                 = 500%nat).
    { rewrite length_app, length_drop, Hk. reflexivity. }
    split; [rewrite Hl; lia|]. split; [discriminate|].
    split; [intros _; apply last_snoc|]. split; [intros _ H; lia|].
    intros _ _. split; [reflexivity|exact Hl].
  - split; [rewrite length_app; cbn [length]; lia|]. split; [discriminate|].
    split; [intros _; apply last_snoc|]. split; [reflexivity|].
    intros _ H. lia.
Qed.

Lemma X16_witness :
  let s := PerformanceMonitor.mk [] "session" PerformanceMonitor.DEFAULT_THRESHOLDS ∅ in
  PerformanceMonitor.metrics
    (PerformanceMonitor.recordMetric true 10 PerformanceMonitor.apiResponseTime 7 s).1
  = [PerformanceMonitor.mkMetric PerformanceMonitor.apiResponseTime 7 10 "session"].
Proof.
  cbv zeta.
  destruct (X16_metrics_buffer_is_bounded true 10 PerformanceMonitor.apiResponseTime 7
              (PerformanceMonitor.mk [] "session" PerformanceMonitor.DEFAULT_THRESHOLDS ∅))
    as (_ & _ & _ & Happend & _); [cbn; lia|].
  apply Happend; [reflexivity|cbn; lia].
Defined.

(** X17. A timer measures once. After [startTimer] at a nonzero instant,
    [endTimer] returns the time elapsed since then, whatever the
    monitoring flag, and forgets the timer, so that a second [endTimer]
    for the same operation returns 0, complains about the missing start
    time and records nothing; timers of other operations are not touched.
    A timer started at instant 0 counts as not started. *)
Theorem X17_timer_measures_once :
  forall (enabled dev : bool) (start now later : Z) (operationId : string)
         (m : PerformanceMonitor.MetricType) (s : PerformanceMonitor.t),
    let started := PerformanceMonitor.startTimer start operationId s in
    let ended := PerformanceMonitor.endTimer enabled dev now later operationId m started in
    (start <> 0 ->
     ended.1.1 = now - start /\
     PerformanceMonitor.startTimes ended.1.2
       = delete operationId (PerformanceMonitor.startTimes s) /\
     (forall enabled' dev' now' later' m',
        PerformanceMonitor.endTimer enabled' dev' now' later' operationId m' ended.1.2
        = (0, ended.1.2, [PerformanceMonitor.NoStartTime operationId])) /\
     (enabled = true ->
      last (PerformanceMonitor.metrics ended.1.2)
      = Some (PerformanceMonitor.mkMetric m (now - start) later
                (PerformanceMonitor.session s))) /\
     (enabled = false ->
      PerformanceMonitor.metrics ended.1.2 = PerformanceMonitor.metrics s)) /\
    (start = 0 ->
     ended = (0, started, [PerformanceMonitor.NoStartTime operationId])).
Proof.
  intros enabled dev start now later operationId m s. cbv zeta.
  set (started := PerformanceMonitor.startTimer start operationId s).
  set (s1 := PerformanceMonitor.mk (PerformanceMonitor.metrics s)
               (PerformanceMonitor.session s) (PerformanceMonitor.thresholds s)
               (delete operationId (PerformanceMonitor.startTimes s))).
  set (r := PerformanceMonitor.recordMetric enabled later m (now - start) s1).
  assert (Hend : PerformanceMonitor.endTimer enabled dev now later operationId m started
                 = if start =? 0
                   then (0, started, [PerformanceMonitor.NoStartTime operationId])
                   else (now - start, r.1,
                         r.2 ++ PerformanceMonitor.checkThreshold dev m (now - start) r.1)).
  { unfold PerformanceMonitor.endTimer. subst started.
    unfold PerformanceMonitor.startTimer.
    cbn [PerformanceMonitor.startTimes PerformanceMonitor.metrics
         PerformanceMonitor.session PerformanceMonitor.thresholds].
    rewrite lookup_insert_eq. destruct (start =? 0); [reflexivity|].
    rewrite delete_insert_eq. fold s1. fold r. destruct r; reflexivity. }
  rewrite Hend. clear Hend. split.
  - intros Hstart. destruct (Z.eqb_spec start 0) as [?|_]; [contradiction|].
    cbn [fst snd].
    assert (Htimers : PerformanceMonitor.startTimes r.1
                      = delete operationId (PerformanceMonitor.startTimes s)).
    { subst r. unfold PerformanceMonitor.recordMetric. destruct enabled; reflexivity. }
    split; [reflexivity|]. split; [exact Htimers|]. split; [|split].
    + intros enabled' dev' now' later' m'. unfold PerformanceMonitor.endTimer.
      rewrite Htimers, lookup_delete_eq. reflexivity.
    + intros ->. subst r. unfold PerformanceMonitor.recordMetric.
      cbn [negb fst PerformanceMonitor.metrics]. destruct (_ <? _)%nat.
      * rewrite drop_app_le by (rewrite length_app; cbn; lia). apply last_snoc.
      * apply last_snoc.
    + intros ->. reflexivity.
  - intros ->. reflexivity.
Qed.

Lemma X17_witness :
  (PerformanceMonitor.endTimer true false 1250 1251 "openai_1000"
     PerformanceMonitor.apiResponseTime
     (PerformanceMonitor.startTimer 1000 "openai_1000"
        (PerformanceMonitor.mk [] "session" PerformanceMonitor.DEFAULT_THRESHOLDS ∅))).1.1
  = 250.
Proof.
  destruct (X17_timer_measures_once true false 1000 1250 1251 "openai_1000"
              PerformanceMonitor.apiResponseTime
              (PerformanceMonitor.mk [] "session" PerformanceMonitor.DEFAULT_THRESHOLDS ∅))
    as (Hrun & _).
  destruct Hrun as (Hduration & _); [discriminate|]. exact Hduration.
Defined.

Lemma checkThreshold_pairs dev m v s threshold :
  In (PerformanceMonitor.ThresholdWarning m v threshold)
     (PerformanceMonitor.checkThreshold dev m v s) <->
  In (PerformanceMonitor.ThresholdAudit m v threshold)
     (PerformanceMonitor.checkThreshold dev m v s).
Proof.
  unfold PerformanceMonitor.checkThreshold.
  destruct (PerformanceMonitor.threshold_of _ m) as [t|]; [|reflexivity].
  destruct (t =? 0); [reflexivity|].
  destruct (PerformanceMonitor.isThresholdExceeded m v t); [|reflexivity].
  destruct dev; cbn [In app]; intuition congruence.
Qed.

(** X18. Threshold warnings do not depend on the monitoring flag. When
    [endTimer] finds its timer, it warns and writes the audit record
    exactly when the metric has a nonzero threshold and the duration is
    beyond it: above it, or below it for the frame rate. This holds with
    monitoring disabled too, when no metric is recorded. Metrics without a
    threshold never warn; with the default thresholds an API call warns
    above 5000 ms and an inference above 10000 ms. *)
Theorem X18_threshold_warning :
  forall (enabled dev : bool) (start now later : Z) (operationId : string)
         (m : PerformanceMonitor.MetricType) (s : PerformanceMonitor.t),
    PerformanceMonitor.startTimes s !! operationId = Some start ->
    start <> 0 ->
    let log := (PerformanceMonitor.endTimer enabled dev now later operationId m s).2 in
    let duration := now - start in
    (forall threshold,
       In (PerformanceMonitor.ThresholdWarning m duration threshold) log <->
       In (PerformanceMonitor.ThresholdAudit m duration threshold) log) /\
    (forall threshold,
       In (PerformanceMonitor.ThresholdWarning m duration threshold) log <->
       PerformanceMonitor.threshold_of (PerformanceMonitor.thresholds s) m = Some threshold /\
       threshold <> 0 /\
       match m with
       | PerformanceMonitor.frameRate => duration < threshold
       | _ => threshold < duration
       end) /\
    (PerformanceMonitor.thresholds s = PerformanceMonitor.DEFAULT_THRESHOLDS ->
     (m = PerformanceMonitor.apiResponseTime ->
      (In (PerformanceMonitor.ThresholdWarning m duration 5000) log <-> 5000 < duration)) /\
     (m = PerformanceMonitor.inferenceTime ->
      (In (PerformanceMonitor.ThresholdWarning m duration 10000) log <-> 10000 < duration))).
Proof.
  intros enabled dev start now later operationId m s Hstart Hnz. cbv zeta.
  unfold PerformanceMonitor.endTimer. rewrite Hstart.
  destruct (Z.eqb_spec start 0) as [?|_]; [contradiction|].
  set (duration := now - start).
  assert (Hrec : exists s2 logged,
             PerformanceMonitor.recordMetric enabled later m duration
               (PerformanceMonitor.mk (PerformanceMonitor.metrics s)
                  (PerformanceMonitor.session s) (PerformanceMonitor.thresholds s)
                  (delete operationId (PerformanceMonitor.startTimes s)))
             = (s2, logged) /\
             PerformanceMonitor.thresholds s2 = PerformanceMonitor.thresholds s /\
             forall e, In e logged -> exists x y, e = PerformanceMonitor.MetricAudit x y).
  { unfold PerformanceMonitor.recordMetric. destruct enabled; cbn [negb].
    - eexists _, _. split; [reflexivity|]. split; [reflexivity|].
      intros e He. unfold PerformanceMonitor.logSignificantEvents in He.
      cbn [PerformanceMonitor.metric PerformanceMonitor.value] in He.
      destruct m; try (destruct He; fail);
        destruct (negb _ && _); try (destruct He; fail);
        destruct He as [<-|[]]; eauto.
    - eexists _, _. split; [reflexivity|]. split; [reflexivity|]. intros e []. }
  destruct Hrec as (s2 & logged & -> & Hth & Hlogged). cbn [snd].
  assert (Hcheck : forall threshold,
             In (PerformanceMonitor.ThresholdWarning m duration threshold)
                (logged ++ PerformanceMonitor.checkThreshold dev m duration s2) <->
             PerformanceMonitor.threshold_of (PerformanceMonitor.thresholds s) m
               = Some threshold /\
             threshold <> 0 /\
             match m with
             | PerformanceMonitor.frameRate => duration < threshold
             | _ => threshold < duration
             end).
  { intros threshold. rewrite in_app_iff. unfold PerformanceMonitor.checkThreshold.
    rewrite Hth. split.
    - intros [Hin|Hin]; [apply Hlogged in Hin; destruct Hin as (? & ? & [=])|].
      destruct (PerformanceMonitor.threshold_of _ m) as [th|]; [|destruct Hin].
      destruct (Z.eqb_spec th 0) as [|Hth0]; [destruct Hin|].
      destruct (PerformanceMonitor.isThresholdExceeded m duration th) eqn:Hex;
        [|destruct Hin].
      destruct Hin as [[= <-]|[[=]|Hin]];
        [|destruct dev; [destruct Hin as [[=]|[]]|destruct Hin]].
      split; [reflexivity|]. split; [exact Hth0|].
      unfold PerformanceMonitor.isThresholdExceeded in Hex.
      destruct m; apply Z.ltb_lt; exact Hex.
    - intros (-> & Hth0 & Hcmp). right.
      destruct (Z.eqb_spec threshold 0) as [|_]; [contradiction|].
      assert (Hex : PerformanceMonitor.isThresholdExceeded m duration threshold = true).
      { unfold PerformanceMonitor.isThresholdExceeded.
        destruct m; apply Z.ltb_lt; exact Hcmp. }
      rewrite Hex. left. reflexivity. }
  split; [|split; [exact Hcheck|]].
  - intros threshold. rewrite !in_app_iff.
    pose proof (checkThreshold_pairs dev m duration s2 threshold) as Hpair.
    split; (intros [Hin|Hin]; [apply Hlogged in Hin; destruct Hin as (? & ? & [=])|]);
      right; apply Hpair; exact Hin.
  - intros Hdef. split; intros ->; rewrite Hcheck, Hdef; cbn.
    + split; [intros (_ & _ & H); exact H|intros H; repeat split; [discriminate|exact H]].
    + split; [intros (_ & _ & H); exact H|intros H; repeat split; [discriminate|exact H]].
Qed.

Lemma X18_witness :
  In (PerformanceMonitor.ThresholdWarning PerformanceMonitor.apiResponseTime 6000 5000)
     (PerformanceMonitor.endTimer false false 7000 7001 "openai_1000"
        PerformanceMonitor.apiResponseTime
        (PerformanceMonitor.startTimer 1000 "openai_1000"
           (PerformanceMonitor.mk [] "session" PerformanceMonitor.DEFAULT_THRESHOLDS ∅))).2.
Proof.
  destruct (X18_threshold_warning false false 1000 7000 7001 "openai_1000"
              PerformanceMonitor.apiResponseTime
              (PerformanceMonitor.startTimer 1000 "openai_1000"
                 (PerformanceMonitor.mk [] "session"
                    PerformanceMonitor.DEFAULT_THRESHOLDS ∅)))
    as (_ & _ & Hdef); [vm_compute; reflexivity|discriminate|].
  destruct (Hdef eq_refl) as (Hapi & _).
  apply (Hapi eq_refl). reflexivity.
Defined.

(** ** The local provider and the circuit breaker *)

Lemma local_kept_refl w : local_kept w w.
Proof. left. reflexivity. Qed.

Lemma local_kept_trans w1 w2 w3 : local_kept w1 w2 -> local_kept w2 w3 -> local_kept w1 w3.
Proof. unfold local_kept. intros [H1|H1] [H2|H2]; rewrite ?H2, ?H1; auto. Qed.

Lemma local_kept_same w w' : failureCount w' = failureCount w -> local_kept w w'.
Proof. intros H. left. rewrite H. reflexivity. Qed.

Lemma spares_ret {A} (a : A) : spares_local (ret a).
Proof. intros env w. apply local_kept_refl. Qed.

Lemma spares_throw {A} e : spares_local (@throw A e).
Proof. intros env w. apply local_kept_refl. Qed.

Lemma spares_gets {A} (f : World -> A) : spares_local (gets f).
Proof. intros env w. apply local_kept_refl. Qed.

Lemma spares_bind {A B} (m : M A) (f : A -> M B) :
  spares_local m -> (forall a, spares_local (f a)) -> spares_local (bind m f).
Proof.
  intros Hm Hf env w. rewrite run_bind. specialize (Hm env w).
  destruct (m env w) as [[a|e] w1]; cbn [snd] in Hm; [|exact Hm].
  apply (local_kept_trans _ _ _ Hm). apply Hf.
Qed.

Lemma spares_shouldAttemptProvider n :
  spares_local (ResilientLLMService.shouldAttemptProvider n).
Proof.
  intros env w.
  destruct (gate_cases n env w) as [(_ & ->)|[(_ & _ & ->)|(_ & _ & ->)]];
    apply local_kept_same; reflexivity.
Qed.

(** A candidate's [try] block never counts a failure against the local
    provider: another candidate's failure is counted against that one,
    and the local provider, once it is available, answers. *)
Lemma spares_attemptBody p before after messages options :
  generated before = [] -> generated after = [] ->
  forallb (fun e => negb (is_inference e)) (before ++ after) = true ->
  spares_local (attemptBody p before after messages options).
Proof.
  intros Hb Ha Hinf env w.
  assert (Hother : p <> Local ->
                   local_kept w (attemptBody p before after messages options env w).2).
  { intros Hp.
    destruct (attemptBody_run p before after messages options env w Hb Ha Hinf)
      as (r & w' & evs & -> & Hbody & _). cbn [snd].
    assert (Hname : name p <> "Local") by (destruct p; [discriminate..|congruence]).
    inversion Hbody as [|r' w2 evs' _ _ _ _ _ _ Hfc _|w2 evs' t _ _ _ _ _ Hfc _]; subst.
    - apply local_kept_refl.
    - left. rewrite Hfc. apply lookup_insert_ne. exact Hname.
    - left. rewrite Hfc. apply lookup_insert_ne. exact Hname. }
  destruct p; [apply Hother; discriminate..|]. clear Hother.
  unfold attemptBody. rewrite run_try_catch, run_bind, provider_isAvailable_run.
  destruct (available Local w) eqn:Hav; [|apply local_kept_refl].
  rewrite run_bind. unfold emits at 1. unfold modify.
  set (w1 := foldl (fun w e => push e w) w before).
  pose proof (frame_pushes before w) as (Hfl & _).
  pose proof (circuit_pushes before w) as (Hfc1 & _).
  assert (Hon : FeatureFlagService.isEnabled (featureFlags w1) LOCAL_LLM = true)
    by (subst w1; rewrite Hfl; exact Hav).
  rewrite run_bind. cbn [provider_generateResponse].
  destruct (localGenerate_enabled messages options env w1 Hon)
    as (response & w2 & -> & _).
  rewrite run_bind, recordSuccess_run. cbn [ret snd name].
  right. cbn. apply lookup_insert_eq.
Qed.

Lemma spares_tryPrimary messages options :
  spares_local (ResilientLLMService.tryPrimary messages options).
Proof.
  rewrite tryPrimary_unfold.
  apply spares_bind; [apply spares_gets|]. intros primary.
  apply spares_bind; [apply spares_shouldAttemptProvider|]. intros [|]; [|apply spares_ret].
  apply spares_attemptBody; reflexivity.
Qed.

Lemma spares_tryFallbacks fallbacks messages options :
  spares_local (ResilientLLMService.tryFallbacks fallbacks messages options).
Proof.
  induction fallbacks as [|fallback rest IH]; [apply spares_ret|].
  rewrite tryFallbacks_unfold.
  apply spares_bind; [apply spares_shouldAttemptProvider|]. intros [|]; cbn [negb];
    [|exact IH].
  apply spares_bind; [apply spares_attemptBody; reflexivity|].
  intros [response|]; [apply spares_ret|exact IH].
Qed.

Lemma spares_initializeProviders : spares_local ResilientLLMService.initializeProviders.
Proof.
  intros env w. destruct (initializeProviders_run env w) as (m & p & fs & -> & _).
  apply local_kept_same. reflexivity.
Qed.

Lemma spares_generateResponse messages options :
  spares_local (ResilientLLMService.generateResponse messages options).
Proof.
  unfold ResilientLLMService.generateResponse.
  apply spares_bind; [apply spares_initializeProviders|]. intros _.
  apply spares_bind; [apply spares_tryPrimary|]. intros [response|]; [apply spares_ret|].
  apply spares_bind; [apply spares_gets|]. intros fallbacks.
  apply spares_bind; [apply spares_tryFallbacks|].
  intros [response|]; [apply spares_ret|apply spares_throw].
Qed.

Lemma spares_streamResponse messages options :
  spares_local (ResilientLLMService.streamResponse messages options).
Proof.
  intros env w.
  destruct (streamResponse_run messages options env w) as (w0 & Hinit & ->).
  destruct (initializeProviders_state env w w0 Hinit) as (_ & _ & _ & Hfc & _).
  apply (local_kept_trans w w0); [apply local_kept_same; exact Hfc|].
  destruct (available (primaryProvider w0) w0).
  - destruct (provider_streamResponse_post (primaryProvider w0) messages options env w0)
      as (w' & evs & toks & terminal & -> & _ & _ & (Hfc' & _) & _).
    apply local_kept_same. exact Hfc'.
  - pose proof (spares_generateResponse messages (Some options) env w0) as H.
    destruct (ResilientLLMService.generateResponse messages (Some options) env w0)
      as [[response|error] w']; exact H.
Qed.

(** X19. The circuit breaker never counts a failure against the local
    provider. Whatever the flags, the state of the backends and the
    failures of the other providers, [generateResponse] and
    [streamResponse] leave the local provider's failure count as it was
    or reset it to 0; it is 0 when the process starts, so it stays 0 and
    the local provider's circuit never opens. *)
Theorem X19_local_provider_is_never_penalised :
  (forall dev env, failures "Local" (boot dev env) = 0) /\
  forall (env : Env) (messages : list AIMessage.t) (w : World),
    (forall options,
       local_kept w (ResilientLLMService.generateResponse messages options env w).2) /\
    (forall options,
       local_kept w (ResilientLLMService.streamResponse messages options env w).2) /\
    (failures "Local" w = 0 ->
     (forall options,
        failures "Local" (ResilientLLMService.generateResponse messages options env w).2
        = 0) /\
     (forall options,
        failures "Local" (ResilientLLMService.streamResponse messages options env w).2
        = 0)).
Proof.
  split; [intros [|] env; reflexivity|].
  intros env messages w.
  assert (Hzero : forall w', local_kept w w' -> failures "Local" w = 0 ->
                             failures "Local" w' = 0).
  { intros w' [H|H] H0; unfold failures in *; rewrite H; [exact H0|reflexivity]. }
  split; [intros options; apply spares_generateResponse|].
  split; [intros options; apply spares_streamResponse|].
  intros H0. split; intros options; (apply Hzero; [|exact H0]).
  - apply spares_generateResponse.
  - apply spares_streamResponse.
Qed.

(** ** The assistant *)

Lemma streamResponse_callbacks messages options env w :
  exists w' toks terminal,
    ResilientLLMService.streamResponse messages options env w = (Returned tt, w') /\
    callbacks (new_events w w') = (OnToken <$> toks) ++ [terminal] /\
    featureFlags w' = featureFlags w /\
    ((exists response, terminal = OnComplete response) \/
     (exists error, terminal = OnError error /\ toks = [])).
Proof.
  destruct (streamResponse_run messages options env w) as (w0 & Hinit & ->).
  destruct (initializeProviders_state env w w0 Hinit) as (Htr & _ & Hfl & _).
  destruct (available (primaryProvider w0) w0).
  - destruct (provider_streamResponse_post (primaryProvider w0) messages options env w0)
      as (w' & evs & toks & terminal & -> & Htr' & (Hfl' & _) & _ & _ & Hcb & Hcase).
    exists w', toks, terminal. split; [reflexivity|].
    rewrite (new_events_same_trace w w0 w' Htr), (new_events_app _ _ _ Htr').
    split; [exact Hcb|]. split; [congruence|].
    destruct (provider_generateResponse _ _ _ _ _).1 as [response|error].
    + destruct Hcase as (_ & ms & ->). left. eexists. reflexivity.
    + destruct Hcase as (-> & ->). right. eexists. split; reflexivity.
  - destruct (quiet_generateResponse messages (Some options) env w0) as (evs & Htr' & Hcb).
    destruct (generateResponse_summary messages (Some options) env w0)
      as (w1 & r & w' & evs' & Hrun & HRun & _ & _ & Hfl1 & _).
    apply Run_frame in HRun. destruct HRun as ((Hfl2 & _) & _).
    rewrite Hrun in Htr' |- *. cbn [fst snd] in Htr'.
    destruct r as [response|]; eexists _, [], _; (split; [reflexivity|]);
      rewrite (new_events_same_trace w w0 _ Htr);
      (rewrite (new_events_app _ _ (evs ++ [_]))
         by (cbn; rewrite Htr', <- app_assoc; reflexivity));
      rewrite callbacks_app, Hcb; (split; [reflexivity|]);
      (split; [cbn; congruence|]).
    + left. eexists. reflexivity.
    + right. eexists. split; reflexivity.
Qed.

Lemma saveConversationMemory_run messages response env w :
  AssistantService.saveConversationMemory messages response env w
  = (Returned (saved messages response w), w).
Proof.
  unfold AssistantService.saveConversationMemory, saved,
    ResilientLLMService.getCurrentProvider.
  unfold_methods.
  destruct (FeatureFlagService.isEnabled (featureFlags w) CONTEXT_MEMORY); reflexivity.
Qed.

Lemma runCallbacks_complete messages onComplete response full env w :
  AssistantService.runCallbacks messages onComplete [OnComplete response] full env w
  = (Returned (LLMResponse.content response,
               saved messages (LLMResponse.content response) w
               ++ complete_with onComplete (LLMResponse.content response)), w).
Proof.
  cbn [AssistantService.runCallbacks].
  rewrite run_bind, saveConversationMemory_run. cbn [bind ret fst snd].
  rewrite app_nil_r. reflexivity.
Qed.

Lemma runCallbacks_error messages onComplete error full env w :
  AssistantService.runCallbacks messages onComplete [OnError error] full env w
  = (Returned (full,
               AssistantService.ConsoleError "Streaming failed:"
               :: (AssistantService.handleGenerationError true onComplete).2), w).
Proof.
  cbn [AssistantService.runCallbacks bind ret fst snd]. rewrite app_nil_r. reflexivity.
Qed.

Lemma runCallbacks_tokens messages onComplete toks rest full env w text effects :
  AssistantService.runCallbacks messages onComplete rest (default full (last toks)) env w
    = (Returned (text, effects), w) ->
  AssistantService.runCallbacks messages onComplete ((OnToken <$> toks) ++ rest) full env w
    = (Returned (text, (AssistantService.Token <$> toks) ++ effects), w).
Proof.
  revert full. induction toks as [|tok toks IH]; intros full Hrest; [exact Hrest|].
  cbn [fmap list_fmap app AssistantService.runCallbacks]. rewrite run_bind.
  rewrite (IH tok).
  - reflexivity.
  - rewrite <- Hrest. f_equal. rewrite last_cons.
    destruct (last toks); reflexivity.
Qed.

Lemma aiMessages_run messages recentMemories env w :
  exists res,
    AssistantService.aiMessages messages recentMemories env w = (res, w) /\
    (forall request, res = Returned request ->
       exists prompt,
         request = AIMessage.mk system prompt :: (AssistantService.toAIMessage <$> messages)) /\
    (forall error, res = Thrown error ->
       recentMemories = Thrown error /\
       FeatureFlagService.isEnabled (featureFlags w) CONTEXT_MEMORY = true).
Proof.
  unfold AssistantService.aiMessages. rewrite run_bind. unfold isEnabled. cbn [gets].
  destruct (FeatureFlagService.isEnabled (featureFlags w) CONTEXT_MEMORY).
  - destruct recentMemories as [[|m ms]|error].
    + eexists. split; [reflexivity|]. split; [intros ? [= <-]; eauto|intros ? [=]].
    + eexists. split; [reflexivity|]. split; [intros ? [= <-]; eauto|intros ? [=]].
    + eexists. split; [reflexivity|]. split; [intros ? [=]|intros ? [= <-]; auto].
  - eexists. split; [reflexivity|]. split; [intros ? [= <-]; eauto|intros ? [=]].
Qed.

Lemma runCallbacks_returns messages onComplete fired full env w :
  exists text effects,
    AssistantService.runCallbacks messages onComplete fired full env w
    = (Returned (text, effects), w).
Proof.
  revert full. induction fired as [|e fired IH]; intros full; [eauto|].
  destruct e; cbn [AssistantService.runCallbacks]; try apply IH.
  - rewrite run_bind. destruct (IH token) as (text & effects & ->). eauto.
  - rewrite run_bind, saveConversationMemory_run, run_bind.
    destruct (IH (LLMResponse.content response)) as (text & effects & ->). eauto.
  - rewrite run_bind. destruct (IH full) as (text & effects & ->). eauto.
Qed.

Lemma assistant_unfold messages onToken onComplete recentMemories env w :
  AssistantService.generateResponse messages onToken onComplete recentMemories env w
  = match (AssistantService.aiMessages messages recentMemories env w).1 with
    | Thrown _ => (Returned (AssistantService.errorMessage, apology onToken onComplete), w)
    | Returned request =>
        if FeatureFlagService.isEnabled (featureFlags w) STREAMING_RESPONSES && onToken then
          let w' := (ResilientLLMService.streamResponse request
                       AssistantService.options env w).2 in
          AssistantService.runCallbacks messages onComplete
            (callbacks (new_events w w')) "" env w'
        else
          match ResilientLLMService.generateResponse request
                  (Some AssistantService.options) env w with
          | (Returned response, w') =>
              (Returned (LLMResponse.content response,
                         (if onToken
                          then AssistantService.simulatedTokens
                                 (Js.split " " (LLMResponse.content response))
                          else [])
                         ++ saved messages (LLMResponse.content response) w'
                         ++ complete_with onComplete (LLMResponse.content response)), w')
          | (Thrown _, w') =>
              (Returned (AssistantService.errorMessage, apology onToken onComplete), w')
          end
    end.
Proof.
  destruct (aiMessages_run messages recentMemories env w) as (res & Hai & _).
  unfold AssistantService.generateResponse.
  rewrite run_try_catch, run_bind, Hai. cbn [fst].
  destruct res as [request|error]; [|reflexivity].
  rewrite run_bind. unfold ResilientLLMService.getCurrentProvider at 1. cbn [gets].
  rewrite run_bind. unfold isEnabled at 1. cbn [gets]. cbn [supportsStreaming].
  rewrite andb_true_r.
  destruct (FeatureFlagService.isEnabled (featureFlags w) STREAMING_RESPONSES && onToken).
  - rewrite run_bind. cbn [gets]. rewrite run_bind.
    destruct (streamResponse_callbacks request AssistantService.options env w)
      as (w' & toks & terminal & Hrun & _).
    rewrite Hrun, run_bind. cbn [gets snd].
    change (List.filter _ (drop (length (trace w)) (trace w')))
      with (callbacks (new_events w w')).
    destruct (runCallbacks_returns messages onComplete (callbacks (new_events w w')) ""
                env w') as (text & effects & ->).
    reflexivity.
  - rewrite run_bind.
    destruct (ResilientLLMService.generateResponse request
                (Some AssistantService.options) env w) as [[response|error] w'].
    + rewrite run_bind, saveConversationMemory_run. reflexivity.
    + reflexivity.
Qed.

(** The assistant's [generateResponse], branch by branch. *)
Lemma assistant_cases messages onToken onComplete recentMemories env w :
  match (AssistantService.aiMessages messages recentMemories env w).1 with
  | Thrown _ =>
      AssistantService.generateResponse messages onToken onComplete recentMemories env w
      = (Returned (AssistantService.errorMessage, apology onToken onComplete), w)
  | Returned request =>
      if FeatureFlagService.isEnabled (featureFlags w) STREAMING_RESPONSES && onToken then
        exists w' toks terminal,
          ResilientLLMService.streamResponse request AssistantService.options env w
            = (Returned tt, w') /\
          callbacks (new_events w w') = (OnToken <$> toks) ++ [terminal] /\
          match terminal with
          | OnComplete response =>
              AssistantService.generateResponse messages onToken onComplete
                recentMemories env w
              = (Returned (LLMResponse.content response,
                           (AssistantService.Token <$> toks)
                           ++ saved messages (LLMResponse.content response) w'
                           ++ complete_with onComplete (LLMResponse.content response)), w')
          | OnError _ =>
              toks = [] /\
              AssistantService.generateResponse messages onToken onComplete
                recentMemories env w
              = (Returned ("",
                           AssistantService.ConsoleError "Streaming failed:"
                           :: (AssistantService.handleGenerationError true onComplete).2),
                 w')
          | _ => False
          end
      else
        match ResilientLLMService.generateResponse request
                (Some AssistantService.options) env w with
        | (Returned response, w') =>
            AssistantService.generateResponse messages onToken onComplete
              recentMemories env w
            = (Returned (LLMResponse.content response,
                         (if onToken
                          then AssistantService.simulatedTokens
                                 (Js.split " " (LLMResponse.content response))
                          else [])
                         ++ saved messages (LLMResponse.content response) w'
                         ++ complete_with onComplete (LLMResponse.content response)), w')
        | (Thrown _, w') =>
            AssistantService.generateResponse messages onToken onComplete
              recentMemories env w
            = (Returned (AssistantService.errorMessage, apology onToken onComplete), w')
        end
  end.
Proof.
  rewrite assistant_unfold.
  destruct (AssistantService.aiMessages messages recentMemories env w).1
    as [request|error]; [|reflexivity].
  destruct (FeatureFlagService.isEnabled (featureFlags w) STREAMING_RESPONSES && onToken).
  - destruct (streamResponse_callbacks request AssistantService.options env w)
      as (w' & toks & terminal & Hrun & Hcb & _ & Hterm).
    exists w', toks, terminal. split; [exact Hrun|]. split; [exact Hcb|].
    cbv zeta. rewrite Hrun. cbn [snd]. rewrite Hcb.
    destruct Hterm as [(response & ->)|(error & -> & ->)].
    + apply runCallbacks_tokens. apply runCallbacks_complete.
    + split; [reflexivity|].
      apply (runCallbacks_tokens _ _ [] _ "" env w'). apply runCallbacks_error.
  - destruct (ResilientLLMService.generateResponse request
                (Some AssistantService.options) env w) as [[response|error] w'];
      reflexivity.
Qed.

Lemma shown_app e1 e2 : shown (e1 ++ e2) = shown e1 ++ shown e2.
Proof. apply omap_app. Qed.

Lemma completed_app e1 e2 : completed (e1 ++ e2) = completed e1 ++ completed e2.
Proof. apply omap_app. Qed.


Lemma completed_tokens toks : completed (AssistantService.Token <$> toks) = [].
Proof. induction toks as [|tok toks IH]; cbn; [reflexivity|exact IH]. Qed.

Lemma saved_silent messages response w :
  shown (saved messages response w) = [] /\ completed (saved messages response w) = [].
Proof.
  unfold saved.
  destruct (FeatureFlagService.isEnabled (featureFlags w) CONTEXT_MEMORY); split; reflexivity.
Qed.

Lemma complete_with_seen onComplete text :
  shown (complete_with onComplete text) = [] /\
  completed (complete_with onComplete text) = if onComplete then [text] else [].
Proof. destruct onComplete; split; reflexivity. Qed.

Lemma apology_seen onToken onComplete :
  shown (apology onToken onComplete)
    = (if onToken then [AssistantService.errorMessage] else []) /\
  completed (apology onToken onComplete)
    = (if onComplete then [AssistantService.errorMessage] else []).
Proof. destruct onToken, onComplete; split; reflexivity. Qed.

(** The loop of the non-streaming branch shows the same partial texts as
    the word loop of the providers' streams. *)
Lemma simulatedTokens_seen words :
  shown (AssistantService.simulatedTokens words) = snapshots 0 "" words /\
  completed (AssistantService.simulatedTokens words) = [].
Proof.
  unfold AssistantService.simulatedTokens. split.
  - assert (Hshown : forall l,
               shown (flat_map (fun i => [AssistantService.Token
                                            (String.concat " " (take (S i) words));
                                          AssistantService.Wait 30]) l)
               = (fun i => String.concat " " (take (S i) words)) <$> l).
    { induction l as [|i l IH]; cbn; [reflexivity|]. f_equal. exact IH. }
    rewrite Hshown. apply list_eq. intros k.
    rewrite list_lookup_fmap.
    destruct (snapshots 0 "" words !! k) as [tok|] eqn:Hk.
    + pose proof (lookup_lt_Some _ _ _ Hk) as Hlt. rewrite snapshots_length in Hlt.
      rewrite lookup_seq_lt by exact Hlt. cbn.
      apply (snapshots_lookup words [] k tok) in Hk. rewrite Hk. reflexivity.
    + apply lookup_ge_None in Hk. rewrite snapshots_length in Hk.
      rewrite lookup_seq_ge by exact Hk. reflexivity.
  - induction (seq 0 (length words)) as [|i l IH]; cbn; [reflexivity|exact IH].
Qed.


(** When the callbacks return, [generateResponse] returns a text on every
    path, and [onComplete], when given, is called exactly once, at the
    end. *)
Lemma assistant_completes :
  forall (messages : list AssistantMessage.t) (onToken onComplete : bool)
         (recentMemories : Outcome (list string)) (env : Env) (w : World),
  exists (text : string) (effects : list AssistantService.Effect) (w' : World),
    AssistantService.generateResponse messages onToken onComplete recentMemories env w
      = (Returned (text, effects), w') /\
    (onToken = false -> shown effects = []) /\
    (onComplete = false -> completed effects = []) /\
    (onComplete = true ->
     exists final, completed effects = [final] /\
                   last effects = Some (AssistantService.Complete final)).
Proof.
  intros messages onToken onComplete recentMemories env w.
  pose proof (assistant_cases messages onToken onComplete recentMemories env w) as H.
  assert (Hsorry :
            (onToken = false -> shown (apology onToken onComplete) = []) /\
            (onComplete = false -> completed (apology onToken onComplete) = []) /\
            (onComplete = true ->
             exists final,
               completed (apology onToken onComplete) = [final] /\
               last (apology onToken onComplete)
               = Some (AssistantService.Complete final))).
  { destruct (apology_seen onToken onComplete) as (Hs & Hc). rewrite Hs, Hc.
    split; [intros ->; reflexivity|]. split; [intros ->; reflexivity|].
    intros ->. eexists. split; [reflexivity|]. destruct onToken; reflexivity. }
  destruct (AssistantService.aiMessages messages recentMemories env w).1
    as [request|error];
    [|rewrite H; eexists _, _, _; split; [reflexivity|exact Hsorry]].
  destruct (FeatureFlagService.isEnabled (featureFlags w) STREAMING_RESPONSES && onToken)
    eqn:Hpath.
  - destruct H as (w' & toks & terminal & _ & _ & Hterm).
    apply andb_prop in Hpath. destruct Hpath as (_ & ->).
    destruct terminal; try contradiction.
    + rewrite Hterm. eexists _, _, _. split; [reflexivity|].
      rewrite !completed_app, completed_tokens.
      destruct (saved_silent messages (LLMResponse.content response) w') as (_ & ->).
      destruct (complete_with_seen onComplete (LLMResponse.content response)) as (_ & ->).
      split; [discriminate|]. split; [intros ->; reflexivity|].
      intros ->. eexists. split; [reflexivity|].
      rewrite !app_assoc. apply last_snoc.
    + destruct Hterm as (-> & ->). eexists _, _, _. split; [reflexivity|].
      split; [discriminate|]. destruct onComplete.
      * split; [discriminate|]. intros _. eexists. split; reflexivity.
      * split; [reflexivity|discriminate].
  - destruct (ResilientLLMService.generateResponse request
                (Some AssistantService.options) env w) as [[response|error] w'];
      [|rewrite H; eexists _, _, _; split; [reflexivity|exact Hsorry]].
    rewrite H. eexists _, _, _. split; [reflexivity|].
    rewrite !shown_app, !completed_app.
    destruct (saved_silent messages (LLMResponse.content response) w') as (-> & ->).
    destruct (complete_with_seen onComplete (LLMResponse.content response)) as (-> & ->).
    split; [intros ->; reflexivity|].
    assert (Hnone : completed (if onToken
                               then AssistantService.simulatedTokens
                                      (Js.split " " (LLMResponse.content response))
                               else []) = []).
    { destruct onToken; [apply simulatedTokens_seen|reflexivity]. }
    rewrite Hnone. split; [intros ->; reflexivity|].
    intros ->. eexists. split; [reflexivity|].
    rewrite !app_assoc. apply last_snoc.
Qed.

(** ** The assistant, with the caller's callbacks *)

Lemma invoke_returning (callback : option (string -> option Js.value)) effect text :
  (forall call t, callback = Some call -> call t = None) ->
  Assisting.invoke callback effect text
  = ((if given callback then [effect text] else []), None).
Proof.
  intros Hret. destruct callback as [call|]; cbn; [|reflexivity].
  rewrite (Hret call text eq_refl). reflexivity.
Qed.

Lemma handleGenerationError_returning caller :
  callbacks_return caller ->
  Assisting.handleGenerationError caller
  = ((AssistantService.handleGenerationError
        (given (AssistantCallbacks.onToken caller))
        (given (AssistantCallbacks.onComplete caller))).2,
     Returned AssistantService.errorMessage).
Proof.
  intros (Htok & Hcomplete). unfold Assisting.handleGenerationError.
  rewrite !invoke_returning by assumption. reflexivity.
Qed.

Lemma closures_return caller :
  callbacks_return caller -> returns_normally (Assisting.closures caller).
Proof.
  intros Hret. pose proof Hret as (Htok & Hcomplete). repeat split; intros fired x; cbn.
  - rewrite invoke_returning by assumption. reflexivity.
  - rewrite invoke_returning by assumption. reflexivity.
  - rewrite handleGenerationError_returning by exact Hret. reflexivity.
Qed.

Lemma saves_app e1 e2 : saves (e1 ++ e2) = saves e1 ++ saves e2.
Proof. apply List.filter_app. Qed.

Lemma saves_saved messages response w :
  saves (saved messages response w) = saved messages response w.
Proof.
  unfold saved. destruct (FeatureFlagService.isEnabled (featureFlags w) CONTEXT_MEMORY);
    reflexivity.
Qed.

Lemma saves_tokens toks : saves (AssistantService.Token <$> toks) = [].
Proof. induction toks as [|tok toks IH]; [reflexivity|exact IH]. Qed.

Lemma saves_complete_with onComplete text : saves (complete_with onComplete text) = [].
Proof. destruct onComplete; reflexivity. Qed.

Lemma saves_apology onToken onComplete : saves (apology onToken onComplete) = [].
Proof. destruct onToken, onComplete; reflexivity. Qed.

Lemma saves_simulatedTokens words : saves (AssistantService.simulatedTokens words) = [].
Proof.
  unfold AssistantService.simulatedTokens.
  induction (seq 0 (length words)) as [|i l IH]; [reflexivity|exact IH].
Qed.

Lemma simulateTokens_returning call words indices :
  (forall text, call text = None) ->
  Assisting.simulateTokens call words indices
  = (flat_map (fun i => [AssistantService.Token (String.concat " " (take (S i) words));
                         AssistantService.Wait 30]) indices, None).
Proof.
  intros Hret. induction indices as [|i later IH]; [reflexivity|].
  cbn [Assisting.simulateTokens flat_map]. rewrite Hret, IH. reflexivity.
Qed.

Lemma Assisting_runCallbacks_complete messages caller memory response full env w :
  callbacks_return caller ->
  Assisting.runCallbacks messages caller memory [OnComplete response] full env w
  = (Returned (LLMResponse.content response,
               saved messages (LLMResponse.content response) w
               ++ complete_with (given (AssistantCallbacks.onComplete caller))
                    (LLMResponse.content response)
               ++ Assisting.memorySettled memory
                    (saved messages (LLMResponse.content response) w)), w).
Proof.
  intros (_ & Hcomplete). cbn [Assisting.runCallbacks].
  rewrite run_bind, saveConversationMemory_run.
  rewrite invoke_returning by assumption. cbn [bind ret fst snd].
  rewrite app_nil_r. reflexivity.
Qed.

Lemma Assisting_runCallbacks_error messages caller memory error full env w :
  callbacks_return caller ->
  Assisting.runCallbacks messages caller memory [OnError error] full env w
  = (Returned (full,
               AssistantService.ConsoleError "Streaming failed:"
               :: (AssistantService.handleGenerationError
                     (given (AssistantCallbacks.onToken caller))
                     (given (AssistantCallbacks.onComplete caller))).2), w).
Proof.
  intros Hret. cbn [Assisting.runCallbacks bind ret fst snd].
  rewrite handleGenerationError_returning by exact Hret. cbn [fst].
  rewrite app_nil_r. reflexivity.
Qed.

Lemma Assisting_runCallbacks_tokens messages caller memory toks rest full env w
    text effects :
  callbacks_return caller ->
  given (AssistantCallbacks.onToken caller) = true ->
  Assisting.runCallbacks messages caller memory rest (default full (last toks)) env w
    = (Returned (text, effects), w) ->
  Assisting.runCallbacks messages caller memory ((OnToken <$> toks) ++ rest) full env w
    = (Returned (text, (AssistantService.Token <$> toks) ++ effects), w).
Proof.
  intros (Htok & _) Hgiven. revert full.
  induction toks as [|tok toks IH]; intros full Hrest; [exact Hrest|].
  cbn [fmap list_fmap app Assisting.runCallbacks]. rewrite run_bind.
  rewrite (IH tok).
  - rewrite invoke_returning by assumption. rewrite Hgiven. reflexivity.
  - rewrite <- Hrest. f_equal. rewrite last_cons.
    destruct (last toks); reflexivity.
Qed.

(** When the caller's callbacks return, the assistant with callbacks does
    what the assistant above does, and then what the handlers on the
    promise of [saveMemory] do, if a memory was saved. *)
Lemma Assisting_returning messages caller memory env w :
  callbacks_return caller ->
  exists text effects w',
    AssistantService.generateResponse messages
      (given (AssistantCallbacks.onToken caller))
      (given (AssistantCallbacks.onComplete caller))
      (MemoryService.getMemories memory) env w
    = (Returned (text, effects), w') /\
    Assisting.generateResponse messages caller memory env w
    = (Returned (Returned text,
                 effects ++ Assisting.memorySettled memory (saves effects)), w').
Proof.
  intros Hret. pose proof Hret as (Htok & Hcomplete).
  rewrite assistant_unfold. unfold Assisting.generateResponse.
  rewrite run_bind, run_try_catch, run_bind.
  destruct (aiMessages_run messages (MemoryService.getMemories memory) env w)
    as (res & Hai & _).
  rewrite Hai. cbn [fst].
  assert (Hfailed : forall w0,
            exists text effects w',
              (Returned (AssistantService.errorMessage,
                         apology (given (AssistantCallbacks.onToken caller))
                                 (given (AssistantCallbacks.onComplete caller))), w0)
              = (Returned (text, effects), w') /\
              ret (Assisting.failed caller []) env w0
              = (Returned (Returned text,
                           effects ++ Assisting.memorySettled memory (saves effects)), w')).
  { intros w0. eexists _, _, _. split; [reflexivity|].
    unfold Assisting.failed. rewrite handleGenerationError_returning by exact Hret.
    rewrite saves_apology. cbn [Assisting.memorySettled]. rewrite app_nil_r. reflexivity. }
  destruct res as [request|error]; [|apply Hfailed].
  cbn [ret]. rewrite run_bind. unfold ResilientLLMService.getCurrentProvider at 1.
  cbn [gets]. rewrite run_bind. unfold isEnabled at 1. cbn [gets supportsStreaming].
  rewrite andb_true_r.
  assert (Hnon :
    exists text effects w',
      match ResilientLLMService.generateResponse request
              (Some AssistantService.options) env w with
      | (Returned response, w') =>
          (Returned (LLMResponse.content response,
                     (if given (AssistantCallbacks.onToken caller)
                      then AssistantService.simulatedTokens
                             (Js.split " " (LLMResponse.content response))
                      else [])
                     ++ saved messages (LLMResponse.content response) w'
                     ++ complete_with (given (AssistantCallbacks.onComplete caller))
                          (LLMResponse.content response)), w')
      | (Thrown _, w') =>
          (Returned (AssistantService.errorMessage,
                     apology (given (AssistantCallbacks.onToken caller))
                             (given (AssistantCallbacks.onComplete caller))), w')
      end = (Returned (text, effects), w') /\
      Assisting.nonStreaming messages caller memory request env w
      = (Returned (Returned text,
                   effects ++ Assisting.memorySettled memory (saves effects)), w')).
  { unfold Assisting.nonStreaming. rewrite run_bind, run_try_catch, run_bind.
    destruct (ResilientLLMService.generateResponse request
                (Some AssistantService.options) env w) as [[response|error] w'];
      [|apply Hfailed].
    cbn [ret].
    assert (Hshown :
      match AssistantCallbacks.onToken caller with
      | Some call =>
          Assisting.simulateTokens call (Js.split " " (LLMResponse.content response))
            (seq 0 (length (Js.split " " (LLMResponse.content response))))
      | None => ([], None)
      end
      = ((if given (AssistantCallbacks.onToken caller)
          then AssistantService.simulatedTokens
                 (Js.split " " (LLMResponse.content response))
          else []), None)).
    { destruct (AssistantCallbacks.onToken caller) as [call|] eqn:Hcall;
        [|reflexivity].
      apply simulateTokens_returning. intros text. apply (Htok call text eq_refl). }
    cbv zeta. rewrite Hshown. cbn [fst snd].
    rewrite run_bind, saveConversationMemory_run.
    rewrite invoke_returning by assumption. cbn [fst snd ret].
    eexists _, _, _. split; [reflexivity|].
    rewrite !saves_app, saves_saved, saves_complete_with, app_nil_r.
    assert (Hnone : saves (if given (AssistantCallbacks.onToken caller)
                           then AssistantService.simulatedTokens
                                  (Js.split " " (LLMResponse.content response))
                           else []) = [])
      by (destruct (given _); [apply saves_simulatedTokens|reflexivity]).
    rewrite Hnone. cbn [app]. rewrite <- !app_assoc. reflexivity. }
  destruct (AssistantCallbacks.onToken caller) as [call|] eqn:Hcall;
    cbn [given] in *; [|rewrite andb_false_r; exact Hnon].
  rewrite andb_true_r.
  destruct (FeatureFlagService.isEnabled (featureFlags w) STREAMING_RESPONSES);
    [|exact Hnon].
  clear Hnon. rewrite run_bind. cbn [gets]. rewrite run_bind, run_try_catch, run_bind.
  rewrite streamResponse_returning by (apply closures_return; exact Hret).
  destruct (streamResponse_callbacks request AssistantService.options env w)
    as (w' & toks & terminal & Hrun & Hcb & _ & Hterm).
  rewrite Hrun. cbn [ret]. rewrite run_bind. cbn [gets snd]. rewrite run_bind.
  change (List.filter _ (drop (length (trace w)) (trace w')))
    with (callbacks (new_events w w')).
  rewrite Hcb.
  destruct Hterm as [(response & ->)|(error & -> & ->)].
  - rewrite (runCallbacks_tokens _ _ _ _ _ _ _ _ _
               (runCallbacks_complete messages _ response _ env w')).
    rewrite (Assisting_runCallbacks_tokens _ _ _ _ _ _ _ _ _ _ Hret
               ltac:(rewrite Hcall; reflexivity)
               (Assisting_runCallbacks_complete messages caller memory response _
                  env w' Hret)).
    cbn [ret fst snd]. eexists _, _, _. split; [reflexivity|].
    rewrite !saves_app, saves_tokens, saves_saved, saves_complete_with, app_nil_r.
    cbn [app]. rewrite <- !app_assoc. reflexivity.
  - rewrite (runCallbacks_tokens _ _ [] _ "" env w' _ _
               (runCallbacks_error messages _ error "" env w')).
    rewrite (Assisting_runCallbacks_tokens _ _ _ [] _ "" env w' _ _ Hret
               ltac:(rewrite Hcall; reflexivity)
               (Assisting_runCallbacks_error messages caller memory error ""
                  env w' Hret)).
    cbn [ret fst snd fmap list_fmap app]. rewrite Hcall. cbn [given].
    eexists _, _, _. split; [reflexivity|].
    assert (Hnone : saves (AssistantService.ConsoleError "Streaming failed:"
                           :: (AssistantService.handleGenerationError true
                                 (given (AssistantCallbacks.onComplete caller))).2)
                    = [])
      by (destruct (given _); reflexivity).
    rewrite Hnone. cbn [Assisting.memorySettled]. rewrite app_nil_r. reflexivity.
Qed.

(** X20. When the callbacks the caller gave return, the assistant
    completes, once. [generateResponse] does not reject: it resolves to a
    text on every path, a rejected memory read, a failed stream and the
    exhaustion of the providers included. What it does is what
    [AssistantService.generateResponse] above does, followed, when a memory
    was saved and the promise of [saveMemory] has settled, by the audit
    record or the console error of the handlers on that promise. Before
    those, [onComplete], when given, is called exactly once, and it is the
    last thing the assistant does; a callback that was not given shows or
    completes nothing. *)
Theorem X20_assistant_completes_once :
  forall (messages : list AssistantMessage.t) (caller : AssistantCallbacks.t)
         (memory : MemoryService.t) (env : Env) (w : World),
    callbacks_return caller ->
    exists (text : string) (effects : list AssistantService.Effect) (w' : World),
      Assisting.generateResponse messages caller memory env w
      = (Returned (Returned text,
                   effects ++ Assisting.memorySettled memory (saves effects)), w') /\
      AssistantService.generateResponse messages
        (given (AssistantCallbacks.onToken caller))
        (given (AssistantCallbacks.onComplete caller))
        (MemoryService.getMemories memory) env w
      = (Returned (text, effects), w') /\
      (AssistantCallbacks.onToken caller = None -> shown effects = []) /\
      (AssistantCallbacks.onComplete caller = None -> completed effects = []) /\
      (AssistantCallbacks.onComplete caller <> None ->
       exists final, completed effects = [final] /\
                     last effects = Some (AssistantService.Complete final)) /\
      shown (Assisting.memorySettled memory (saves effects)) = [] /\
      completed (Assisting.memorySettled memory (saves effects)) = [].
Proof.
  intros messages caller memory env w Hret.
  destruct (Assisting_returning messages caller memory env w Hret)
    as (text & effects & w' & Hold & Hnew).
  exists text, effects, w'. split; [exact Hnew|]. split; [exact Hold|].
  destruct (assistant_completes messages
              (given (AssistantCallbacks.onToken caller))
              (given (AssistantCallbacks.onComplete caller))
              (MemoryService.getMemories memory) env w)
    as (text0 & effects0 & w0 & Hrun & Hshown & Hnone & Honce).
  rewrite Hold in Hrun. injection Hrun as <- <- <-.
  split; [intros Hno; apply Hshown; rewrite Hno; reflexivity|].
  split; [intros Hno; apply Hnone; rewrite Hno; reflexivity|].
  split.
  { intros Hgiven. apply Honce.
    destruct (AssistantCallbacks.onComplete caller); [reflexivity|congruence]. }
  unfold Assisting.memorySettled.
  destruct (saves effects); [split; reflexivity|].
  destruct (MemoryService.saveMemory memory) as [[[]|error]|]; split; reflexivity.
Qed.

Lemma X20_witness :
  callbacks_return (AssistantCallbacks.mk (Some (fun _ => None)) (Some (fun _ => None))) /\
  exists text effects w',
    Assisting.generateResponse question
      (AssistantCallbacks.mk (Some (fun _ => None)) (Some (fun _ => None)))
      (MemoryService.mk (Returned []) (Some (Returned tt))) (healthy 1000) started
    = (Returned (Returned text,
                 effects
                 ++ Assisting.memorySettled
                      (MemoryService.mk (Returned []) (Some (Returned tt)))
                      (saves effects)), w').
Proof.
  assert (Hret : callbacks_return
                   (AssistantCallbacks.mk (Some (fun _ => None)) (Some (fun _ => None)))).
  { split; intros call text [= <-]; reflexivity. }
  split; [exact Hret|].
  destruct (X20_assistant_completes_once question
              (AssistantCallbacks.mk (Some (fun _ => None)) (Some (fun _ => None)))
              (MemoryService.mk (Returned []) (Some (Returned tt))) (healthy 1000)
              started Hret)
    as (text & effects & w' & Hrun & _).
  exists text, effects, w'. exact Hrun.
Defined.





(** ** What is sent to the chat backends *)

Section Only.

Variable P : Event -> Prop.
Variable messages : list AIMessage.t.
Variable options : LLMOptions.t.

Hypothesis P_chat :
  forall p, p <> Local ->
            P (ChatRequest (name p) messages (chatOptions (defaultModel p) (Some options))).
Hypothesis P_other :
  forall e, (forall n msgs opts, e <> ChatRequest n msgs opts) -> P e.

Lemma only_ret {A} (a : A) : only P (ret a).
Proof. intros env w. exists []. rewrite app_nil_r. split; [reflexivity|constructor]. Qed.

Lemma only_throw {A} e : only P (@throw A e).
Proof. intros env w. exists []. rewrite app_nil_r. split; [reflexivity|constructor]. Qed.

Lemma only_gets {A} (f : World -> A) : only P (gets f).
Proof. intros env w. exists []. rewrite app_nil_r. split; [reflexivity|constructor]. Qed.

Lemma only_read {A} (oracle : Env -> nat -> A) : only P (read oracle).
Proof.
  intros env w. exists []. cbn. rewrite app_nil_r. split; [reflexivity|constructor].
Qed.

Lemma only_modify f : (forall w, trace (f w) = trace w) -> only P (modify f).
Proof.
  intros H env w. exists []. cbn. rewrite app_nil_r, H. split; [reflexivity|constructor].
Qed.

Lemma only_emit e : P e -> only P (emit e).
Proof. intros H env w. exists [e]. split; [reflexivity|]. repeat constructor. exact H. Qed.

Lemma only_bind {A B} (m : M A) (f : A -> M B) :
  only P m -> (forall a, only P (f a)) -> only P (bind m f).
Proof.
  intros Hm Hf env w. rewrite run_bind.
  destruct (Hm env w) as (evs1 & Htr1 & Hall1).
  destruct (m env w) as [[a|e] w1]; cbn [snd] in Htr1.
  - destruct (Hf a env w1) as (evs2 & Htr2 & Hall2).
    exists (evs1 ++ evs2). rewrite Htr2, Htr1, app_assoc.
    split; [reflexivity|apply Forall_app; split; assumption].
  - exists evs1. split; assumption.
Qed.

Lemma only_try_catch {A} (m : M A) (h : Js.value -> M A) :
  only P m -> (forall e, only P (h e)) -> only P (try_catch m h).
Proof.
  intros Hm Hh env w. rewrite run_try_catch.
  destruct (Hm env w) as (evs1 & Htr1 & Hall1).
  destruct (m env w) as [[a|e] w1]; cbn [snd] in Htr1.
  - exists evs1. split; assumption.
  - destruct (Hh e env w1) as (evs2 & Htr2 & Hall2).
    exists (evs1 ++ evs2). rewrite Htr2, Htr1, app_assoc.
    split; [reflexivity|apply Forall_app; split; assumption].
Qed.

Lemma P_audit action detail : P (Audit action detail).
Proof. apply P_other. discriminate. Qed.

Lemma only_remoteGenerate p :
  p <> Local -> only P (remoteGenerate p (defaultModel p) messages (Some options)).
Proof.
  intros Hp. unfold remoteGenerate, chatService.
  apply only_bind; [apply only_emit, P_other; discriminate|]. intros _.
  apply only_try_catch.
  - apply only_bind.
    + apply only_bind; [apply only_emit, P_chat; exact Hp|]. intros _.
      apply only_bind; [apply only_read|].
      intros [content usage|thrown]; [apply only_ret|apply only_throw].
    + intros response. apply only_bind; [apply only_read|]. intros processingTime.
      apply only_bind; [apply only_emit, P_audit|]. intros _. apply only_ret.
  - intros error. apply only_bind; [apply only_read|]. intros _.
    apply only_bind; [apply only_emit, P_audit|]. intros _. apply only_throw.
Qed.

Lemma only_provider_generateResponse p :
  only P (provider_generateResponse p messages (Some options)).
Proof.
  destruct p; cbn [provider_generateResponse].
  - apply (only_remoteGenerate OpenAI). discriminate.
  - apply (only_remoteGenerate Anthropic). discriminate.
  - unfold LocalLLMProvider.generateResponse, LocalLLMProvider.generateSimulatedResponse.
    apply only_bind; [apply only_emit, P_other; discriminate|]. intros _.
    apply only_bind; [apply only_gets|]. intros [|]; cbn [negb]; [|apply only_throw].
    apply only_try_catch.
    + apply only_bind.
      * apply only_bind; [apply only_emit, P_other; discriminate|]. intros _.
        apply only_bind; [apply only_read|]. intros index. apply only_ret.
      * intros simulated. apply only_bind; [apply only_read|]. intros processingTime.
        apply only_bind; [apply only_emit, P_audit|]. intros _. apply only_ret.
    + intros error. apply only_bind; [apply only_read|]. intros _.
      apply only_bind; [apply only_emit, P_audit|]. intros _. apply only_throw.
Qed.

Lemma only_shouldAttemptProvider n : only P (ResilientLLMService.shouldAttemptProvider n).
Proof.
  unfold ResilientLLMService.shouldAttemptProvider.
  apply only_bind; [apply only_gets|]. intros failures.
  apply only_bind; [apply only_gets|]. intros lastFailure.
  destruct (failures <? _); [apply only_ret|].
  apply only_bind; [apply only_read|]. intros now. apply only_ret.
Qed.

Lemma only_recordSuccess n : only P (ResilientLLMService.recordSuccess n).
Proof.
  unfold ResilientLLMService.recordSuccess.
  apply only_bind; [|intros _]; apply only_modify; reflexivity.
Qed.

Lemma only_recordFailure n : only P (ResilientLLMService.recordFailure n).
Proof.
  unfold ResilientLLMService.recordFailure.
  apply only_bind; [apply only_gets|]. intros c.
  apply only_bind; [apply only_modify; reflexivity|]. intros _.
  apply only_bind; [apply only_read|]. intros now.
  apply only_modify; reflexivity.
Qed.

Lemma only_tryPrimary : only P (ResilientLLMService.tryPrimary messages (Some options)).
Proof.
  unfold ResilientLLMService.tryPrimary.
  apply only_bind; [apply only_gets|]. intros primary.
  apply only_bind; [apply only_shouldAttemptProvider|]. intros [|]; [|apply only_ret].
  apply only_try_catch.
  - apply only_bind; [destruct primary; apply only_gets|]. intros [|]; [|apply only_ret].
    apply only_bind; [apply only_provider_generateResponse|]. intros response.
    apply only_bind; [apply only_recordSuccess|]. intros _. apply only_ret.
  - intros error. apply only_bind; [apply only_recordFailure|]. intros _.
    apply only_bind; [apply only_emit, P_other; discriminate|]. intros _.
    apply only_bind; [apply only_emit, P_audit|]. intros _. apply only_ret.
Qed.

Lemma only_tryFallbacks fallbacks :
  only P (ResilientLLMService.tryFallbacks fallbacks messages (Some options)).
Proof.
  induction fallbacks as [|fallback rest IH]; [apply only_ret|].
  cbn [ResilientLLMService.tryFallbacks].
  apply only_bind; [apply only_shouldAttemptProvider|]. intros [|]; cbn [negb];
    [|exact IH].
  apply only_bind.
  - apply only_try_catch.
    + apply only_bind; [destruct fallback; apply only_gets|].
      intros [|]; [|apply only_ret].
      apply only_bind; [apply only_emit, P_audit|]. intros _.
      apply only_bind; [apply only_provider_generateResponse|]. intros response.
      apply only_bind; [apply only_recordSuccess|]. intros _. apply only_ret.
    + intros error. apply only_bind; [apply only_recordFailure|]. intros _.
      apply only_bind; [apply only_emit, P_other; discriminate|]. intros _. apply only_ret.
  - intros [response|]; [apply only_ret|exact IH].
Qed.

Lemma only_initializeProviders : only P ResilientLLMService.initializeProviders.
Proof.
  intros env w. destruct (initializeProviders_run env w) as (m & p & fs & -> & _).
  exists []. cbn. rewrite app_nil_r. split; [reflexivity|constructor].
Qed.

Lemma only_generateResponse :
  only P (ResilientLLMService.generateResponse messages (Some options)).
Proof.
  unfold ResilientLLMService.generateResponse.
  apply only_bind; [apply only_initializeProviders|]. intros _.
  apply only_bind; [apply only_tryPrimary|]. intros [response|]; [apply only_ret|].
  apply only_bind; [apply only_gets|]. intros fallbacks.
  apply only_bind; [apply only_tryFallbacks|].
  intros [response|]; [apply only_ret|apply only_throw].
Qed.

Lemma only_tokenLoop delay words i accumulated :
  only P (tokenLoop delay i accumulated words).
Proof.
  revert i accumulated. induction words as [|word rest IH]; intros i accumulated;
    [apply only_ret|].
  cbn [tokenLoop].
  apply only_bind; [apply only_emit, P_other; discriminate|]. intros _.
  apply only_bind; [apply only_emit, P_other; discriminate|]. intros _. apply IH.
Qed.

Lemma only_provider_streamResponse p :
  only P (provider_streamResponse p messages options).
Proof.
  assert (H : forall delay fallbackMessage,
             only P (simulateStream (provider_generateResponse p) delay fallbackMessage
                       messages options)).
  { intros delay fallbackMessage. unfold simulateStream.
    apply only_bind; [apply only_read|]. intros startTime.
    apply only_try_catch.
    - apply only_bind; [apply only_provider_generateResponse|]. intros response.
      apply only_bind; [apply only_tokenLoop|]. intros _.
      apply only_bind; [apply only_read|]. intros endTime.
      apply only_emit, P_other. discriminate.
    - intros error. apply only_emit, P_other. discriminate. }
  destruct p; apply H.
Qed.

Lemma only_streamResponse :
  only P (ResilientLLMService.streamResponse messages options).
Proof.
  unfold ResilientLLMService.streamResponse.
  apply only_bind; [apply only_initializeProviders|]. intros _.
  apply only_bind.
  - apply only_try_catch.
    + apply only_bind; [apply only_gets|]. intros primary.
      apply only_bind; [destruct primary; apply only_gets|].
      intros [|]; cbn [andb supportsStreaming]; [|apply only_ret].
      apply only_bind; [apply only_provider_streamResponse|]. intros _. apply only_ret.
    + intros error. apply only_bind; [apply only_emit, P_other; discriminate|]. intros _.
      apply only_bind; [apply only_emit, P_other; discriminate|]. intros _. apply only_ret.
  - intros [|]; [apply only_ret|].
    apply only_try_catch.
    + apply only_bind; [apply only_generateResponse|]. intros response.
      apply only_emit, P_other. discriminate.
    + intros error. apply only_emit, P_other. discriminate.
Qed.

End Only.

Lemma requests_of_dispatch messages options :
  only (request_for messages options)
       (ResilientLLMService.generateResponse messages (Some options)) /\
  only (request_for messages options)
       (ResilientLLMService.streamResponse messages options).
Proof.
  assert (Hchat : forall p, p <> Local ->
             request_for messages options
               (ChatRequest (name p) messages (chatOptions (defaultModel p) (Some options)))).
  { intros p Hp. split; [reflexivity|]. exists p. repeat split. exact Hp. }
  assert (Hother : forall e, (forall n msgs opts, e <> ChatRequest n msgs opts) ->
                             request_for messages options e).
  { intros e He. destruct e; try exact I. exfalso. eapply He. reflexivity. }
  split.
  - apply only_generateResponse; assumption.
  - apply only_streamResponse; assumption.
Qed.

(** X23. What leaves the device. Every request that a call to the
    assistant's [generateResponse] sends to a chat backend goes to OpenAI
    or Anthropic and carries the same messages: the system prompt, then
    the whole conversation in order, each message with its content and the
    role [user] or [assistant] after its [isUser]; with the memory flag on
    and memories present the system prompt holds the recent memories. The
    options are always the provider's default model, temperature 0.7 and
    1024 tokens. *)
Theorem X23_what_the_backends_are_sent :
  forall (messages : list AssistantMessage.t) (onToken onComplete : bool)
         (recentMemories : Outcome (list string)) (env : Env) (w : World)
         (request : list AIMessage.t),
    (AssistantService.aiMessages messages recentMemories env w).1 = Returned request ->
    let w' := (AssistantService.generateResponse messages onToken onComplete
                 recentMemories env w).2 in
    (exists prompt,
       request = AIMessage.mk system prompt :: (AssistantService.toAIMessage <$> messages) /\
       (FeatureFlagService.isEnabled (featureFlags w) CONTEXT_MEMORY = false ->
        prompt = AssistantService.basePrompt) /\
       (FeatureFlagService.isEnabled (featureFlags w) CONTEXT_MEMORY = true ->
        forall m ms, recentMemories = Returned (m :: ms) ->
          prompt = AssistantService.basePrompt +:+ AssistantService.memoryPrompt +:+
                   String.concat AssistantService.nl
                     ((fun m => "[M" +:+ AssistantService.u 233 +:+ "moire: " +:+ m +:+ "]")
                        <$> (m :: ms)))) /\
    (forall n msgs opts,
       In (ChatRequest n msgs opts) (new_events w w') ->
       msgs = request /\
       exists p, p <> Local /\ n = name p /\
                 opts = ChatOptions.mk (defaultModel p) 0.7%float 1024).
Proof.
  intros messages onToken onComplete recentMemories env w request Hreq. cbv zeta. split.
  - revert Hreq. unfold AssistantService.aiMessages. rewrite run_bind.
    unfold isEnabled. cbn [gets].
    destruct (FeatureFlagService.isEnabled (featureFlags w) CONTEXT_MEMORY).
    + destruct recentMemories as [[|m ms]|error]; cbn [fst]; intros [= <-].
      * eexists. split; [reflexivity|]. split; [discriminate|]. intros _ ? ? [=].
      * eexists. split; [reflexivity|]. split; [discriminate|].
        intros _ m' ms' [= <- <-].
        unfold AssistantService.getSystemPrompt.
        match goal with
        | |- context [String.eqb ?c ""] =>
            destruct (String.eqb_spec c "") as [Hempty|_]; [|reflexivity]
        end.
        exfalso. destruct ms; cbn in Hempty; discriminate Hempty.
    + cbn [fst]. intros [= <-]. eexists. split; [reflexivity|].
      split; [reflexivity|discriminate].
  - assert (Hevents : exists evs,
               trace (AssistantService.generateResponse messages onToken onComplete
                        recentMemories env w).2 = trace w ++ evs /\
               Forall (request_for request AssistantService.options) evs).
    { destruct (requests_of_dispatch request AssistantService.options) as (Hgen & Hstream).
      rewrite assistant_unfold, Hreq.
      destruct (FeatureFlagService.isEnabled (featureFlags w) STREAMING_RESPONSES
                && onToken).
      - cbv zeta. destruct (Hstream env w) as (evs & Htr & Hall).
        destruct (runCallbacks_returns messages onComplete
                    (callbacks (new_events w
                       (ResilientLLMService.streamResponse request
                          AssistantService.options env w).2)) "" env
                    (ResilientLLMService.streamResponse request
                       AssistantService.options env w).2) as (text & effects & ->).
        exists evs. split; [exact Htr|exact Hall].
      - destruct (Hgen env w) as (evs & Htr & Hall).
        destruct (ResilientLLMService.generateResponse request
                    (Some AssistantService.options) env w) as [[response|error] w'];
          exists evs; (split; [exact Htr|exact Hall]). }
    destruct Hevents as (evs & Htr & Hall).
    rewrite (new_events_app _ _ _ Htr).
    intros n msgs opts Hin. rewrite List.Forall_forall in Hall.
    destruct (Hall _ Hin) as (-> & p & Hp & -> & ->).
    split; [reflexivity|]. exists p. split; [exact Hp|]. split; [reflexivity|].
    destruct p; [reflexivity|reflexivity|congruence].
Qed.

Lemma X23_witness :
  let request := AIMessage.mk system AssistantService.basePrompt
                 :: (AssistantService.toAIMessage <$> question) in
  let sent := new_events started
                (AssistantService.generateResponse question true true (Returned [])
                   (healthy 0) started).2 in
  In (ChatRequest "Anthropic" request
        (ChatOptions.mk "claude-3-5-sonnet-20240620" 0.7%float 1024)) sent /\
  forall n msgs opts, In (ChatRequest n msgs opts) sent -> msgs = request.
Proof.
  cbv zeta. split; [vm_compute; auto 10|].
  intros n msgs opts Hin.
  destruct (X23_what_the_backends_are_sent question true true (Returned []) (healthy 0)
              started
              (AIMessage.mk system AssistantService.basePrompt
               :: (AssistantService.toAIMessage <$> question)))
    as (_ & Hsent); [vm_compute; reflexivity|].
  destruct (Hsent n msgs opts Hin) as (-> & _). reflexivity.
Defined.

(** ** The flags in the running app *)

Lemma rollout_overridden o k (v : option FeatureFlag) :
  rolloutPercentage <$> (overridden o k <$> v) = rolloutPercentage <$> v.
Proof.
  destruct v as [f|]; [|reflexivity]. cbn. unfold overridden.
  destruct (o !! k); reflexivity.
Qed.

Lemma initialize_anonymous dev rejects id x :
  Js.string_or id "anonymous" = "anonymous" ->
  (forall k, rolloutPercentage <$> FeatureFlagStore.getFlag k x
             = rolloutPercentage <$> default_flag dev k) ->
  anonymous_rollout dev (FeatureFlagStore.initialize rejects id x).
Proof.
  intros Hid Hroll. split; [|split].
  - unfold FeatureFlagStore.initialize, AsyncStorage.getItem.
    destruct (rejects _); [reflexivity|]. destruct (AsyncStorage.item _); reflexivity.
  - unfold FeatureFlagStore.initialize, AsyncStorage.getItem.
    destruct (rejects _); [|destruct (AsyncStorage.item _)]; cbn; rewrite Hid; reflexivity.
  - intros k. unfold FeatureFlagStore.getFlag. rewrite initialize_lookup.
    rewrite rollout_overridden. apply Hroll.
Qed.

Lemma anonymous_same dev x x' :
  FeatureFlagStore.service x' = FeatureFlagStore.service x ->
  anonymous_rollout dev x -> anonymous_rollout dev x'.
Proof.
  intros Hs (Hi & Hu & Hr). unfold anonymous_rollout, FeatureFlagStore.getFlag in *.
  rewrite Hs. auto.
Qed.

Lemma reachable_anonymous dev x : reachable dev x -> anonymous_rollout dev x.
Proof.
  induction 1 as [rejects st|rejects k on x _ IH|rejects k x _ IH|rejects x _ IH
                 |rejects x _ IH].
  - apply initialize_anonymous; [reflexivity|]. intros k. reflexivity.
  - destruct (FeatureFlagStore.getFlag k x) as [f|] eqn:Hf.
    + rewrite (setFlagOverride_run rejects k on x f Hf). cbv zeta.
      destruct IH as (Hi & Hu & Hr). split; [exact Hi|]. split; [exact Hu|].
      intros k'. unfold FeatureFlagStore.getFlag.
      cbn [FeatureFlagStore.service FeatureFlagService.flags].
      destruct (decide (flag_key k' = flag_key k)) as [Hk|Hk].
      * apply flag_key_inj in Hk. subst k'.
        rewrite lookup_insert_eq. rewrite <- Hr, Hf. reflexivity.
      * rewrite lookup_insert_ne by congruence. apply Hr.
    + unfold FeatureFlagStore.setFlagOverride. unfold FeatureFlagStore.getFlag in Hf.
      rewrite Hf. exact IH.
  - unfold FeatureFlagStore.clearFlagOverride.
    rewrite getStoredOverrides_run. unfold AsyncStorage.setItem.
    cbn [AsyncStorage.calls AsyncStorage.item].
    destruct IH as (Hi & Hu & Hr).
    destruct (rejects (S _)).
    + split; [exact Hi|]. split; [exact Hu|]. exact Hr.
    + apply initialize_anonymous; [rewrite Hu; reflexivity|].
      intros k'. unfold FeatureFlagStore.getFlag. cbn [FeatureFlagStore.service].
      rewrite initializeDefaultFlags_lookup. reflexivity.
  - unfold FeatureFlagStore.enableAllFlags. destruct dev; cbn [negb snd]; [|exact IH].
    unfold AsyncStorage.setItem. destruct IH as (Hi & Hu & Hr).
    destruct (rejects _); cbn [snd].
    + split; [exact Hi|]. split; [exact Hu|]. exact Hr.
    + apply initialize_anonymous; [rewrite Hu; reflexivity|]. exact Hr.
  - unfold FeatureFlagStore.resetAllFlags. destruct dev; cbn [negb snd]; [|exact IH].
    unfold AsyncStorage.removeItem. destruct IH as (Hi & Hu & Hr).
    destruct (rejects _); cbn [snd].
    + split; [exact Hi|]. split; [exact Hu|]. exact Hr.
    + apply initialize_anonymous; [rewrite Hu; reflexivity|].
      intros k'. unfold FeatureFlagStore.getFlag. cbn [FeatureFlagStore.service].
      rewrite initializeDefaultFlags_lookup. reflexivity.
Qed.

Lemma anonymous_outside_rollout dev x k p :
  anonymous_rollout dev x ->
  rolloutPercentage <$> default_flag dev k = Some (Some p) -> p <= 75 ->
  FeatureFlagService.isEnabled (FeatureFlagStore.service x) k = false.
Proof.
  intros (Hi & Hu & Hr) Hdef Hp. specialize (Hr k). rewrite Hdef in Hr.
  unfold FeatureFlagStore.getFlag in Hr.
  destruct (FeatureFlagService.flags (FeatureFlagStore.service x) !! flag_key k)
    as [f|] eqn:Hf; [|discriminate Hr].
  injection Hr as Hr.
  rewrite (isEnabled_initialized _ k f Hf Hi), Hr.
  assert (Hperc : percentile (FeatureFlagStore.service x) = 75).
  { unfold percentile. rewrite Hu. vm_compute. reflexivity. }
  rewrite Hperc, bool_decide_eq_false_2 by lia. apply andb_false_r.
Qed.

(** X24. In the running app the local model cannot be switched on. The app
    initializes the flags for the user ['anonymous'], whose rollout
    percentile is 75, and no method changes a user id or a rollout
    percentage. So in every state the settings screens can reach, whatever
    the stored overrides and the storage failures, the three flags under a
    rollout (local model 20, wake word 10, background tasks 15) read as
    disabled, also right after [setFlagOverride] or [enableAllFlags] has
    set their bit. With these flags the local provider is unavailable, and
    every response [generateResponse] returns comes from Anthropic or
    OpenAI. *)
Theorem X24_local_model_cannot_be_enabled :
  forall (dev : bool) (x : FeatureFlagStore.t),
    reachable dev x ->
    let flags := FeatureFlagStore.service x in
    anonymous_rollout dev x /\
    FeatureFlagService.isEnabled flags LOCAL_LLM = false /\
    FeatureFlagService.isEnabled flags VOICE_WAKE_WORD = false /\
    FeatureFlagService.isEnabled flags BACKGROUND_TASKS = false /\
    forall (env : Env) (messages : list AIMessage.t) (options : option LLMOptions.t)
           (w : World),
      featureFlags w = flags ->
      available Local w = false /\
      forall response,
        (ResilientLLMService.generateResponse messages options env w).1
          = Returned response ->
        LLMResponse.provider response = "Anthropic" \/
        LLMResponse.provider response = "OpenAI".
Proof.
  intros dev x Hreach. cbv zeta.
  pose proof (reachable_anonymous dev x Hreach) as Hinv.
  assert (Hlocal : FeatureFlagService.isEnabled (FeatureFlagStore.service x) LOCAL_LLM
                   = false).
  { apply (anonymous_outside_rollout dev x LOCAL_LLM 20 Hinv); [|lia].
    destruct dev; reflexivity. }
  split; [exact Hinv|]. split; [exact Hlocal|]. split; [|split].
  - apply (anonymous_outside_rollout dev x VOICE_WAKE_WORD 10 Hinv); [|lia].
    destruct dev; reflexivity.
  - apply (anonymous_outside_rollout dev x BACKGROUND_TASKS 15 Hinv); [|lia].
    destruct dev; reflexivity.
  - intros env messages options w Hflags.
    assert (Hun : available Local w = false).
    { unfold available. rewrite Hflags. exact Hlocal. }
    split; [exact Hun|]. intros response Hres.
    destruct (generateResponse_summary messages options env w)
      as (w0 & r & w' & evs & Hrun & HRun & _ & _ & Hfl & _).
    rewrite Hrun in Hres. cbn [fst] in Hres.
    destruct r as [r|]; [|discriminate Hres]. injection Hres as ->.
    destruct (Run_hit_provider _ _ _ _ _ _ HRun) as (p & _ & -> & Hav & _).
    destruct p; [right; reflexivity|left; reflexivity|].
    exfalso. unfold available in Hav, Hun. rewrite Hfl, Hun in Hav. discriminate Hav.
Qed.

Lemma X24_witness :
  let x := FeatureFlagStore.setFlagOverride reliable LOCAL_LLM true
             (FeatureFlagStore.initialize reliable None
                (fresh_process false (fresh_storage None))) in
  enabled <$> FeatureFlagStore.getFlag LOCAL_LLM x = Some true /\
  FeatureFlagService.isEnabled (FeatureFlagStore.service x) LOCAL_LLM = false.
Proof.
  cbv zeta. split; [vm_compute; reflexivity|].
  destruct (X24_local_model_cannot_be_enabled false
              (FeatureFlagStore.setFlagOverride reliable LOCAL_LLM true
                 (FeatureFlagStore.initialize reliable None
                    (fresh_process false (fresh_storage None)))))
    as (_ & Hoff & _); [apply reach_set, reach_start|exact Hoff].
Defined.
